(** * Book page converter: label extraction, recognition retry, page
      lifecycle and page ordering

    A shallow embedding of [server/ocrService.ts] and of the [pages] router
    of the application server, with the properties of the design document
    stated and proved (or refuted) against it. *)

From Stdlib Require Import List ZArith NArith Lia Bool String Ascii.
From Stdlib Require Import Sorted Permutation.
From Stdlib Require QArith.
Import ListNotations.

Local Open Scope Z_scope.

(** ** JavaScript strings

    A JavaScript string is a sequence of UTF-16 code units.  Literals of the
    source that are plain ASCII are written with [js]. *)

Definition jsstring := list N.

Definition js (s : string) : jsstring :=
  List.map N_of_ascii (list_ascii_of_string s).

Definition inRange (lo hi c : N) : bool := (N.leb lo c && N.leb c hi)%bool.

(** [\d] *)
Definition isDigit (c : N) : bool := inRange 48 57 c.

(** ECMAScript LineTerminator: LF, CR, LS, PS. *)
Definition isLineTerminator (c : N) : bool :=
  (N.eqb c 10 || N.eqb c 13 || N.eqb c 8232 || N.eqb c 8233)%bool.

(** [\s]: WhiteSpace and LineTerminator of ECMAScript. *)
Definition isWhiteSpace (c : N) : bool :=
  (inRange 9 13 c || N.eqb c 32 || N.eqb c 160 || N.eqb c 5760
   || inRange 8192 8202 c || N.eqb c 8232 || N.eqb c 8233
   || N.eqb c 8239 || N.eqb c 8287 || N.eqb c 12288 || N.eqb c 65279)%bool.

(** [[-–—]]: hyphen-minus, en dash, em dash. *)
Definition isDash (c : N) : bool :=
  (N.eqb c 45 || N.eqb c 8211 || N.eqb c 8212)%bool.

(** Upper-casing of one code unit; exact on ASCII, the identity elsewhere
    (it is only applied to strings that passed an ASCII letter test). *)
Definition toUpperChar (c : N) : N :=
  if inRange 97 122 c then (c - 32)%N else c.

Definition toUpperCase (s : jsstring) : jsstring := List.map toUpperChar s.

(** Case-insensitive match of a code unit against an ASCII letter of a
    pattern with the [i] flag (without the [u] flag a non-ASCII code unit
    never canonicalizes to an ASCII one). *)
Definition ciEq (lit c : N) : bool :=
  (N.ltb c 128 && N.eqb (toUpperChar c) (toUpperChar lit))%bool.

(** [[ivxlcdm]] under the [i] flag. *)
Definition isRomanLetter (c : N) : bool :=
  (ciEq 105 c || ciEq 118 c || ciEq 120 c || ciEq 108 c
   || ciEq 99 c || ciEq 100 c || ciEq 109 c)%bool.

Fixpoint span (p : N -> bool) (s : jsstring) : jsstring * jsstring :=
  match s with
  | [] => ([], [])
  | c :: r => if p c then let '(a, b) := span p r in (c :: a, b) else ([], s)
  end.

Fixpoint dropWhile (p : N -> bool) (s : jsstring) : jsstring :=
  match s with
  | [] => []
  | c :: r => if p c then dropWhile p r else s
  end.

Definition nonEmpty (s : jsstring) : bool :=
  match s with [] => false | _ => true end.

(** [String.prototype.trim] *)
Definition trim (s : jsstring) : jsstring :=
  rev (dropWhile isWhiteSpace (rev (dropWhile isWhiteSpace s))).

(** [$] under the [m] flag: end of input or just before a line terminator. *)
Definition atLineEnd (s : jsstring) : bool :=
  match s with [] => true | c :: _ => isLineTerminator c end.

(** ** Regular expressions of [extractPageNumber]

    A matcher takes the input from a candidate start position and returns
    the first capture group when the pattern matches there.  [searchLines]
    tries the positions where [^] holds under the [m] flag, [searchAll]
    tries every position; both return the leftmost match, as
    [String.prototype.match] does for a pattern without the [g] flag. *)

Definition matcher := jsstring -> option jsstring.

Fixpoint searchLines (m : matcher) (atStart : bool) (s : jsstring)
  : option jsstring :=
  match (if atStart then m s else None) with
  | Some cap => Some cap
  | None =>
      match s with
      | [] => None
      | c :: r => searchLines m (isLineTerminator c) r
      end
  end.

Fixpoint searchAll (m : matcher) (s : jsstring) : option jsstring :=
  match m s with
  | Some cap => Some cap
  | None =>
      match s with
      | [] => None
      | _ :: r => searchAll m r
      end
  end.

(** [(\d+)] followed by the continuation [k] on the rest. *)
Definition digitsThen (k : jsstring -> bool) (s : jsstring) : option jsstring :=
  let '(ds, r) := span isDigit s in
  if (nonEmpty ds && k r)%bool then Some ds else None.

(** [/^(\d+)$/m] *)
Definition standaloneNumber : matcher := digitsThen atLineEnd.

(** [/^[-–—]\s*(\d+)\s*[-–—]$/m] *)
Definition dashedNumber : matcher := fun s =>
  match s with
  | c :: r =>
      if isDash c then
        digitsThen (fun r2 =>
          match dropWhile isWhiteSpace r2 with
          | d :: r3 => (isDash d && atLineEnd r3)%bool
          | [] => false
          end) (dropWhile isWhiteSpace r)
      else None
  | [] => None
  end.

(** Case-insensitive literal prefix. *)
Fixpoint stripPrefixCI (lit s : jsstring) : option jsstring :=
  match lit, s with
  | [], _ => Some s
  | l :: lit', c :: s' => if ciEq l c then stripPrefixCI lit' s' else None
  | _ :: _, [] => None
  end.

(** [\s*(\d+)] *)
Definition spacedDigits (s : jsstring) : option jsstring :=
  digitsThen (fun _ => true) (dropWhile isWhiteSpace s).

Definition orElse {A} (a b : option A) : option A :=
  match a with Some _ => a | None => b end.

(** [lit\.?] then [\s*(\d+)], the optional dot being greedy. *)
Definition prefixOptDot (lit : jsstring) (s : jsstring) : option jsstring :=
  match stripPrefixCI lit s with
  | Some r =>
      match r with
      | 46%N :: r' => orElse (spacedDigits r') (spacedDigits r)
      | _ => spacedDigits r
      end
  | None => None
  end.

(** [/(?:page|pg\.?|p\.?)\s*(\d+)/i] *)
Definition pagePrefixed : matcher := fun s =>
  orElse
    (match stripPrefixCI (js "page") s with
     | Some r => spacedDigits r
     | None => None
     end)
    (orElse (prefixOptDot (js "pg") s) (prefixOptDot (js "p") s)).

(** [/^([ivxlcdm]+)$/im] *)
Definition romanLine : matcher := fun s =>
  let '(rs, r) := span isRomanLetter s in
  if (nonEmpty rs && atLineEnd r)%bool then Some rs else None.

(** [/[\[\(](\d+)[\]\)]/] *)
Definition bracketedNumber : matcher := fun s =>
  match s with
  | c :: r =>
      if (N.eqb c 91 || N.eqb c 40)%bool then
        digitsThen (fun r2 =>
          match r2 with
          | d :: _ => (N.eqb d 93 || N.eqb d 41)%bool
          | [] => false
          end) r
      else None
  | [] => None
  end.

(** The [patterns] array, each entry with the search it needs. *)
Definition patterns : list (jsstring -> option jsstring) :=
  [ searchLines standaloneNumber true;
    searchLines dashedNumber true;
    searchAll pagePrefixed;
    searchLines romanLine true;
    searchAll bracketedNumber ].

(** ** [romanToArabic] *)

Definition romanMap (c : N) : option Z :=
  match c with
  | 73%N => Some 1
  | 86%N => Some 5
  | 88%N => Some 10
  | 76%N => Some 50
  | 67%N => Some 100
  | 68%N => Some 500
  | 77%N => Some 1000
  | _ => None
  end.

(** The loop body, run over the code units from the last to the first. *)
Fixpoint romanLoop (revRoman : jsstring) (result prevValue : Z) : option Z :=
  match revRoman with
  | [] => Some result
  | c :: r =>
      match romanMap c with
      | None => None
      | Some currentValue =>
          if currentValue <? prevValue
          then romanLoop r (result - currentValue) currentValue
          else romanLoop r (result + currentValue) currentValue
      end
  end.

Definition romanToArabic (roman : jsstring) : option Z :=
  romanLoop (rev roman) 0 0.

(** ** [parseInt(s, 10)]

    Leading white space is skipped, an optional sign is read, then the
    longest prefix of decimal digits; [None] stands for [NaN].  The result
    is the integer that was read; the number the program gets is the double
    nearest to it ([toNumber] below), which is that integer up to 2^53 and
    is between 0 and 10000 exactly when the integer is. *)

Definition digitValue (c : N) : Z := Z.of_N (c - 48).

Definition decimalValue (ds : jsstring) : Z :=
  fold_left (fun acc c => 10 * acc + digitValue c) ds 0.

Definition parseInt (s : jsstring) : option Z :=
  let t := dropWhile isWhiteSpace s in
  let '(sign, u) :=
    match t with
    | c :: u =>
        if N.eqb c 45 then (-1, u)
        else if N.eqb c 43 then (1, u)
        else (1, t)
    | [] => (1, t)
    end in
  let '(ds, _) := span isDigit u in
  if nonEmpty ds then Some (sign * decimalValue ds) else None.

(** ** [extractPageNumber] *)

Record Extracted := mkExtracted {
  pageNumber : option jsstring;
  sortOrder : option Z
}.

(** [/^[ivxlcdm]+$/i.test(captured)] *)
Definition romanTest (captured : jsstring) : bool :=
  (nonEmpty captured && forallb isRomanLetter captured)%bool.

(** What one iteration of the [for] loop returns for a match, [None] when
    it falls through to the next pattern. *)
Definition interpretCapture (cap : jsstring) : option Extracted :=
  let captured := trim cap in
  let asArabic :=
    match parseInt captured with
    | Some num =>
        if ((0 <? num) && (num <? 10000))%bool
        then Some (mkExtracted (Some captured) (Some num))
        else None
    | None => None
    end in
  if romanTest captured then
    match romanToArabic (toUpperCase captured) with
    | Some arabic => Some (mkExtracted (Some captured) (Some arabic))
    | None => asArabic
    end
  else asArabic.

Fixpoint extractLoop (ps : list (jsstring -> option jsstring)) (text : jsstring)
  : Extracted :=
  match ps with
  | [] => mkExtracted None None
  | p :: rest =>
      match p text with
      | Some cap =>
          if nonEmpty cap then
            match interpretCapture cap with
            | Some r => r
            | None => extractLoop rest text
            end
          else extractLoop rest text
      | None => extractLoop rest text
      end
  end.

Definition extractPageNumber (text : jsstring) : Extracted :=
  extractLoop patterns text.

(** A line feed. *)
Definition nl : jsstring := [10%N].

Definition found (label : string) (n : Z) : Extracted :=
  mkExtracted (Some (js label)) (Some n).

Definition notFound : Extracted := mkExtracted None None.

(** ** Thrown values and completions

    A JavaScript call either returns or throws.  A thrown value is an
    [Error] object with its message, or some other value, kept with its
    [String(...)] rendering (the only way the code looks at one). *)

Inductive Thrown :=
| ErrorObject (message : jsstring)
| NonError (rendering : jsstring).

Inductive Completion (A : Type) :=
| Returned (a : A)
| Threw (e : Thrown).

Arguments Returned {A} a.
Arguments Threw {A} e.

(** [String.prototype.startsWith] and [String.prototype.includes] *)
Fixpoint startsWith (needle hay : jsstring) : bool :=
  match needle, hay with
  | [], _ => true
  | n :: needle', h :: hay' => (N.eqb n h && startsWith needle' hay')%bool
  | _ :: _, [] => false
  end.

Fixpoint includes (needle hay : jsstring) : bool :=
  (startsWith needle hay
   || match hay with
      | [] => false
      | _ :: hay' => includes needle hay'
      end)%bool.

(** ** [retryWithBackoff] *)

(** [error instanceof Error ? error.message : String(error)] *)
Definition errorText (error : Thrown) : jsstring :=
  match error with
  | ErrorObject message => message
  | NonError rendering => rendering
  end.

Definition is500Error (error : Thrown) : bool :=
  (includes (js "500") (errorText error)
   || includes (js "Internal Server Error") (errorText error))%bool.

(** One run of the helper: how it completed, the state of the outside world
    afterwards, the completion of every call of [fn] in order, and the
    delays passed to [setTimeout] in order. *)
Record RetryRun (W T : Type) := mkRetryRun {
  outcome : Completion T;
  finalWorld : W;
  attempts : list (Completion T);
  delays : list Z
}.

Arguments mkRetryRun {W T}.
Arguments outcome {W T}.
Arguments finalWorld {W T}.
Arguments attempts {W T}.
Arguments delays {W T}.

Section Retry.
Context {W T : Type}.
Variable fn : W -> Completion T * W.
Variable maxRetries : nat.
Variable initialDelay : Z.

(** The [for] loop with [remaining] iterations left before
    [attempt < maxRetries] fails. *)
Fixpoint retryLoop (remaining attempt : nat) (lastError : Thrown) (w : W)
  : RetryRun W T :=
  match remaining with
  | O => mkRetryRun (Threw lastError) w [] []
  | S remaining' =>
      match fn w with
      | (Returned v, w') => mkRetryRun (Returned v) w' [Returned v] []
      | (Threw error, w') =>
          if (negb (is500Error error) || Nat.eqb attempt (maxRetries - 1))%bool
          then mkRetryRun (Threw error) w' [Threw error] []
          else
            let delay := initialDelay * 2 ^ Z.of_nat attempt in
            let run := retryLoop remaining' (S attempt) error w' in
            mkRetryRun (outcome run) (finalWorld run)
              (Threw error :: attempts run) (delay :: delays run)
      end
  end.

Definition retryWithBackoff (w : W) : RetryRun W T :=
  retryLoop maxRetries 0 (NonError (js "undefined")) w.

End Retry.

(** ** [performOCR] *)

Inductive BlockType := heading | paragraph | list_ | quote.

Record FormattingBlock := mkBlock {
  type_ : BlockType;
  level : option Z;
  content : jsstring;
  bold : bool;
  italic : bool
}.

Record FormattingData := mkFormatting { blocks : list FormattingBlock }.

Record OCRResult := mkOCRResult {
  ocrExtractedText : jsstring;
  ocrDetectedPageNumber : option jsstring;
  ocrFormattingData : FormattingData;
  confidence : QArith_base.Q
}.

(** The object [JSON.parse] gives for a reply that follows the schema. *)
Record ParsedReply := mkParsed {
  parsedPageNumber : option jsstring;
  parsedText : jsstring;
  parsedConfidence : QArith_base.Q;
  parsedBlocks : list FormattingBlock
}.

(** [if (x)] on a nullable string: neither [null] nor empty. *)
Definition truthy (x : option jsstring) : bool :=
  match x with Some (_ :: _) => true | _ => false end.

Section Recognizer.
Context {W : Type}.

(** The language model, [./_core/llm], stands outside the sources: a call
    with the prompt for [imageUrl] changes the outside world and returns
    [response.choices[0]?.message?.content] as a string, or throws. *)
Variable invokeLLM : jsstring -> W -> Completion (option jsstring) * W.

(** [JSON.parse] and the reads of the four fields of the schema. *)
Variable JSON_parse : jsstring -> Completion ParsedReply.

Definition defaultMaxRetries : nat := 3.
Definition defaultInitialDelay : Z := 1000.

(** The body of the [try] block. *)
Definition performOCR_try (imageUrl : jsstring) (w : W)
  : Completion OCRResult * W :=
  let run :=
    retryWithBackoff (invokeLLM imageUrl) defaultMaxRetries
      defaultInitialDelay w in
  match outcome run with
  | Threw e => (Threw e, finalWorld run)
  | Returned content =>
      if truthy content then
        match content with
        | Some contentStr =>
            match JSON_parse contentStr with
            | Threw e => (Threw e, finalWorld run)
            | Returned parsed =>
                let detectedPageNumber :=
                  if truthy (parsedPageNumber parsed) then
                    match parsedPageNumber parsed with
                    | Some raw => pageNumber (extractPageNumber raw)
                    | None => None
                    end
                  else pageNumber (extractPageNumber (parsedText parsed)) in
                (Returned
                   (mkOCRResult (parsedText parsed) detectedPageNumber
                      (mkFormatting (parsedBlocks parsed))
                      (QArith_base.Qdiv (parsedConfidence parsed)
                         (QArith_base.inject_Z 100))),
                 finalWorld run)
            end
        | None => (Threw (ErrorObject (js "No response from LLM")), finalWorld run)
        end
      else (Threw (ErrorObject (js "No response from LLM")), finalWorld run)
  end.

Definition performOCR (imageUrl : jsstring) (w : W)
  : Completion OCRResult * W :=
  match performOCR_try imageUrl w with
  | (Returned r, w') => (Returned r, w')
  | (Threw error, w') =>
      (Threw (ErrorObject
         (js "OCR processing failed: "
            ++ match error with
               | ErrorObject message => message
               | NonError _ => js "Unknown error"
               end)), w')
  end.

End Recognizer.

(** ** Pages, projects and the storage layer *)

Inductive PageStatus := pending | processing | completed | failed.

Definition PageStatus_eqb (a b : PageStatus) : bool :=
  match a, b with
  | pending, pending | processing, processing
  | completed, completed | failed, failed => true
  | _, _ => false
  end.

Module Page.
Record t := mk {
  id : Z;
  projectId : Z;
  filename : jsstring;
  imageUrl : jsstring;
  extractedText : option jsstring;
  detectedPageNumber : option jsstring;
  formattingData : option FormattingData;
  status : PageStatus;
  errorMessage : option jsstring;
  sortOrder : Z
}.
End Page.

Module Project.
Record t := mk {
  id : Z;
  userId : Z;
  totalPages : Z;
  processedPages : Z
}.
End Project.

(** The object given to [updatePage]: a column that is absent from it is
    left alone, a nullable column can be set to [null] ([Some None]). *)
Record PagePatch := mkPatch {
  setExtractedText : option jsstring;
  setDetectedPageNumber : option (option jsstring);
  setFormattingData : option FormattingData;
  setStatus : option PageStatus;
  setErrorMessage : option (option jsstring);
  setSortOrder : option Z
}.

Definition orKeep {A} (new : option A) (old : A) : A :=
  match new with Some v => v | None => old end.

Definition applyPatch (patch : PagePatch) (p : Page.t) : Page.t :=
  Page.mk (Page.id p) (Page.projectId p) (Page.filename p) (Page.imageUrl p)
    (match setExtractedText patch with
     | Some v => Some v
     | None => Page.extractedText p
     end)
    (orKeep (setDetectedPageNumber patch) (Page.detectedPageNumber p))
    (match setFormattingData patch with
     | Some v => Some v
     | None => Page.formattingData p
     end)
    (orKeep (setStatus patch) (Page.status p))
    (orKeep (setErrorMessage patch) (Page.errorMessage p))
    (orKeep (setSortOrder patch) (Page.sortOrder p)).

(** The two tables, with the rows of [pages] in the order in which
    [getPagesByProjectId] returns them, and a journal of the status writes
    (page, new status), the latest first. *)
Record Db := mkDb {
  pages : list Page.t;
  projects : list Project.t;
  statusJournal : list (Z * PageStatus)
}.

(** *** The storage layer

    The storage layer ([./db]) is not part of the sources.  The design
    document has it as "create/read/update page and project records by
    identity", each call atomic on one record; the procedures below are
    written from that and from the way the router calls them. *)

(** Modelled from the spec: [getPageById] of [./db], the page record with
    that identity, if any. *)
Definition getPageById (pageId : Z) (d : Db) : option Page.t :=
  find (fun p => Page.id p =? pageId) (pages d).

(** Modelled from the spec: [getProjectById] of [./db], the project record
    with that identity, if any. *)
Definition getProjectById (projectId : Z) (d : Db) : option Project.t :=
  find (fun p => Project.id p =? projectId) (projects d).

(** Modelled from the spec: [getPagesByProjectId] of [./db], the pages of
    the project.  Neither the design document nor the sources say in which
    order the rows come; here it is the order of the table, which no write
    of a position changes.  The statements about [reorder] speak of the
    rows as they were returned, and [reorder_discards_manual_order] says
    what does not depend on their order. *)
Definition getPagesByProjectId (projectId : Z) (d : Db) : list Page.t :=
  filter (fun p => Page.projectId p =? projectId) (pages d).

(** Modelled from the spec: [updatePage] of [./db], which writes the
    columns of the object it is given on the page with that identity. *)
Definition updatePage (pageId : Z) (patch : PagePatch) (d : Db) : Db :=
  mkDb
    (List.map (fun p => if Page.id p =? pageId then applyPatch patch p else p)
       (pages d))
    (projects d)
    (match setStatus patch with
     | Some s => (pageId, s) :: statusJournal d
     | None => statusJournal d
     end).

(** Modelled from the spec: [updatePageStatus] of [./db], which writes the
    status and, when it is given one, the error text; without one it
    leaves the error text alone. *)
Definition updatePageStatus (pageId : Z) (s : PageStatus)
  (errorMessage : option jsstring) (d : Db) : Db :=
  updatePage pageId
    (mkPatch None None None (Some s)
       (match errorMessage with Some m => Some (Some m) | None => None end)
       None) d.

Definition setProcessedPages (n : Z) (p : Project.t) : Project.t :=
  Project.mk (Project.id p) (Project.userId p) (Project.totalPages p) n.

(** Modelled from the spec: [updateProject] of [./db], here for the one
    object the page procedures give it, [{ processedPages: n }]. *)
Definition updateProject (projectId : Z) (n : Z) (d : Db) : Db :=
  mkDb (pages d)
    (List.map
       (fun p => if Project.id p =? projectId then setProcessedPages n p else p)
       (projects d))
    (statusJournal d).

(** ** Procedures: state and exceptions

    A procedure runs on the storage and the outside world and either
    returns or throws; what it wrote before throwing stays written. *)

Record State (W : Type) := mkState { db : Db; world : W }.

Arguments mkState {W}.
Arguments db {W}.
Arguments world {W}.

Definition M (W A : Type) : Type := State W -> Completion A * State W.

Definition ret {W A} (a : A) : M W A := fun s => (Returned a, s).

Definition bind {W A B} (c : M W A) (k : A -> M W B) : M W B :=
  fun s =>
    match c s with
    | (Returned a, s') => k a s'
    | (Threw e, s') => (Threw e, s')
    end.

Definition throw {W A} (e : Thrown) : M W A := fun s => (Threw e, s).

Definition throwError {W A} (message : jsstring) : M W A :=
  throw (ErrorObject message).

Definition tryCatch {W A} (body : M W A) (handler : Thrown -> M W A) : M W A :=
  fun s =>
    match body s with
    | (Returned a, s') => (Returned a, s')
    | (Threw e, s') => handler e s'
    end.

Definition readDb {W A} (f : Db -> A) : M W A :=
  fun s => (Returned (f (db s)), s).

Definition writeDb {W} (f : Db -> Db) : M W unit :=
  fun s => (Returned tt, mkState (f (db s)) (world s)).

Definition onWorld {W A} (f : W -> Completion A * W) : M W A :=
  fun s => let '(r, w') := f (world s) in (r, mkState (db s) w').

Notation "x <- c ;; k" := (bind c (fun x => k))
  (at level 61, c at next level, right associativity).
Notation "c ;;; k" := (bind c (fun _ => k))
  (at level 61, right associativity).

(** ** Numbers

    A JavaScript number is an IEEE 754 double.  The comparator of [reorder]
    subtracts the numbers [parseInt] gives for two labels; for an integer
    of more than 53 bits that number is not the integer itself but the
    nearest double, ties to the even significand, and "Infinity" from
    2^1024 - 2^970 on. *)

Inductive Number :=
| Finite (z : Z)
| PlusInfinity
| MinusInfinity
| NaN.

(** The double nearest to the integer [m >= 0], [None] when that is
    beyond the largest double. *)
Definition roundToDouble (m : Z) : option Z :=
  if m <? 2 ^ 53 then Some m
  else
    let e := Z.log2 m - 52 in
    let q := m / 2 ^ e in
    let r := m mod 2 ^ e in
    let half := 2 ^ (e - 1) in
    let q' :=
      if r <? half then q
      else if half <? r then q + 1
      else if Z.even q then q else q + 1 in
    let v := q' * 2 ^ e in
    if v <? 2 ^ 1024 then Some v else None.

(** The Number value of a mathematical integer. *)
Definition toNumber (z : Z) : Number :=
  match roundToDouble (Z.abs z) with
  | Some v => Finite (Z.sgn z * v)
  | None => if 0 <? z then PlusInfinity else MinusInfinity
  end.

Definition isNaN (v : Number) : bool :=
  match v with NaN => true | _ => false end.

(** [a - b] on numbers that are integers or infinite. *)
Definition numberSub (a b : Number) : Number :=
  match a, b with
  | NaN, _ | _, NaN => NaN
  | Finite x, Finite y => toNumber (x - y)
  | PlusInfinity, PlusInfinity | MinusInfinity, MinusInfinity => NaN
  | PlusInfinity, _ | _, MinusInfinity => PlusInfinity
  | MinusInfinity, _ | _, PlusInfinity => MinusInfinity
  end.

(** [parseInt(s, 10)] as the number the comparator gets. *)
Definition parseIntNumber (s : jsstring) : Number :=
  match parseInt s with
  | Some z => toNumber z
  | None => NaN
  end.

(** ** [Array.prototype.sort] and the comparator of [reorder] *)

(** [Array.prototype.sort] is stable, and for a consistent comparator its
    result is the one sorted arrangement that keeps equal elements in their
    input order; a stable insertion sort computes it.  [cmp] is the
    comparator as the sort reads it, see [sortCompare]. *)
Fixpoint insertSorted {A} (cmp : A -> A -> Z) (x : A) (l : list A) : list A :=
  match l with
  | [] => [x]
  | y :: l' => if cmp x y <=? 0 then x :: l else y :: insertSorted cmp x l'
  end.

Definition sortWith {A} (cmp : A -> A -> Z) (l : list A) : list A :=
  fold_right (insertSorted cmp) [] l.

(** How the sort reads what the comparator returned: [NaN] is read as 0,
    and of the rest only the sign is looked at; 1 and -1 stand for the
    infinite values. *)
Definition sortCompare (v : Number) : Z :=
  match v with
  | Finite z => z
  | PlusInfinity => 1
  | MinusInfinity => -1
  | NaN => 0
  end.

Section Comparator.

(** [String.prototype.localeCompare].  The router calls it without a
    locale, so the comparison is the one of the default locale of the
    server process; it stands outside the sources. *)
Variable localeCompare : jsstring -> jsstring -> Z.

(** The arrow function given to [sort].  The ids are the integers of a
    key column, on which the subtraction of doubles is exact. *)
Definition pageComparator (a b : Page.t) : Number :=
  let ta := truthy (Page.detectedPageNumber a) in
  let tb := truthy (Page.detectedPageNumber b) in
  if (ta && negb tb)%bool then Finite (-1)
  else if (negb ta && tb)%bool then Finite 1
  else if (negb ta && negb tb)%bool then Finite (Page.id a - Page.id b)
  else
    match Page.detectedPageNumber a, Page.detectedPageNumber b with
    | Some la, Some lb =>
        let aNum := parseIntNumber la in
        let bNum := parseIntNumber lb in
        if (negb (isNaN aNum) && negb (isNaN bNum))%bool
        then numberSub aNum bNum
        else Finite (localeCompare la lb)
    | _, _ => Finite 0
    end.

(** The comparison of two pages as the sort makes it. *)
Definition comparePages (a b : Page.t) : Z :=
  sortCompare (pageComparator a b).

Definition sortedPagesOf (ps : list Page.t) : list Page.t :=
  sortWith comparePages ps.

End Comparator.

(** ** The [pages] router *)

Record ProcessReply := mkProcessReply {
  success : bool;
  replyPageNumber : option jsstring
}.

Record RetryEntry := mkEntry {
  pageId : Z;
  entrySuccess : bool;
  error : option jsstring
}.

(** [successCount] is absent from the reply of the early return. *)
Record BatchReply := mkBatchReply {
  batchSuccess : bool;
  retriedCount : Z;
  successCount : option Z;
  results : list RetryEntry
}.

(** [error instanceof Error ? error.message : "OCR processing failed"] *)
Definition messageOf (e : Thrown) : jsstring :=
  match e with
  | ErrorObject message => message
  | NonError _ => js "OCR processing failed"
  end.

(** The object written when recognition succeeded; [retrySingle] and
    [retryFailed] also write [errorMessage: null], [processOCR] does not. *)
Definition completedPatch (r : OCRResult) (clearError : bool) : PagePatch :=
  mkPatch (Some (ocrExtractedText r)) (Some (ocrDetectedPageNumber r))
    (Some (ocrFormattingData r)) (Some completed)
    (if clearError then Some None else None) None.

Definition failedPatch (errorMessage : jsstring) : PagePatch :=
  mkPatch None None None (Some failed) (Some (Some errorMessage)) None.

(** [{ sortOrder: i }] *)
Definition sortOrderPatch (i : Z) : PagePatch :=
  mkPatch None None None None None (Some i).

Section Router.
Context {W : Type}.
Variable invokeLLM : jsstring -> W -> Completion (option jsstring) * W.
Variable JSON_parse : jsstring -> Completion ParsedReply.
Variable localeCompare : jsstring -> jsstring -> Z.

(** [ctx.user.id] *)
Variable user : Z.

Definition recognize (imageUrl : jsstring) : M W OCRResult :=
  onWorld (performOCR invokeLLM JSON_parse imageUrl).

(** The page and its project, after the checks every page procedure starts
    with. *)
Definition loadPage (pageId : Z) : M W (Page.t * Project.t) :=
  found <- readDb (getPageById pageId) ;;
  match found with
  | None => throwError (js "Page not found")
  | Some page =>
      owner <- readDb (getProjectById (Page.projectId page)) ;;
      match owner with
      | None => throwError (js "Unauthorized")
      | Some project =>
          if Project.userId project =? user
          then ret (page, project)
          else throwError (js "Unauthorized")
      end
  end.

Definition loadProject (projectId : Z) : M W Project.t :=
  found <- readDb (getProjectById projectId) ;;
  match found with
  | None => throwError (js "Project not found")
  | Some project =>
      if Project.userId project =? user
      then ret project
      else throwError (js "Unauthorized")
  end.

Definition processOCR (pageId : Z) : M W ProcessReply :=
  loaded <- loadPage pageId ;;
  let '(page, project) := loaded in
  tryCatch
    (writeDb (updatePageStatus pageId processing None) ;;;
     ocrResult <- recognize (Page.imageUrl page) ;;
     writeDb (updatePage pageId (completedPatch ocrResult false)) ;;;
     writeDb (updateProject (Page.projectId page)
                (Project.processedPages project + 1)) ;;;
     ret (mkProcessReply true (ocrDetectedPageNumber ocrResult)))
    (fun error =>
       let errorMessage := messageOf error in
       writeDb (updatePageStatus pageId failed (Some errorMessage)) ;;;
       throw error).

Definition retrySingle (pageId : Z) : M W ProcessReply :=
  loaded <- loadPage pageId ;;
  let '(page, project) := loaded in
  if (negb (PageStatus_eqb (Page.status page) failed)
      && negb (PageStatus_eqb (Page.status page) pending))%bool
  then throwError (js "Only failed or pending pages can be processed")
  else
    tryCatch
      (writeDb (updatePageStatus pageId processing None) ;;;
       ocrResult <- recognize (Page.imageUrl page) ;;
       writeDb (updatePage pageId (completedPatch ocrResult true)) ;;;
       writeDb (updateProject (Page.projectId page)
                  (Project.processedPages project + 1)) ;;;
       ret (mkProcessReply true (ocrDetectedPageNumber ocrResult)))
      (fun error =>
         let errorMessage := messageOf error in
         writeDb (updatePage pageId (failedPatch errorMessage)) ;;;
         throwError errorMessage).

(** One iteration of the loop of [retryFailed], giving the entry it pushes
    on [results]. *)
Definition retryOne (page : Page.t) : M W RetryEntry :=
  tryCatch
    (writeDb (updatePageStatus (Page.id page) processing None) ;;;
     ocrResult <- recognize (Page.imageUrl page) ;;
     writeDb (updatePage (Page.id page) (completedPatch ocrResult true)) ;;;
     ret (mkEntry (Page.id page) true None))
    (fun error =>
       let errorMessage := messageOf error in
       writeDb (updatePage (Page.id page) (failedPatch errorMessage)) ;;;
       ret (mkEntry (Page.id page) false (Some errorMessage))).

Fixpoint retryEach (failedPages : list Page.t) : M W (list RetryEntry) :=
  match failedPages with
  | [] => ret []
  | page :: rest =>
      entry <- retryOne page ;;
      entries <- retryEach rest ;;
      ret (entry :: entries)
  end.

Definition countSuccesses (rs : list RetryEntry) : Z :=
  Z.of_nat (List.length (filter entrySuccess rs)).

Definition retryFailed (projectId : Z) : M W BatchReply :=
  project <- loadProject projectId ;;
  allPages <- readDb (getPagesByProjectId projectId) ;;
  let failedPages :=
    filter (fun p => PageStatus_eqb (Page.status p) failed) allPages in
  match failedPages with
  | [] => ret (mkBatchReply true 0 None [])
  | _ :: _ =>
      rs <- retryEach failedPages ;;
      let count := countSuccesses rs in
      (if 0 <? count
       then writeDb (updateProject projectId
                       (Project.processedPages project + count))
       else ret tt) ;;;
      ret (mkBatchReply true (Z.of_nat (List.length failedPages)) (Some count) rs)
  end.

(** The loop that writes the positions, from index [i] on. *)
Fixpoint writePositions (i : Z) (sortedPages : list Page.t) : M W unit :=
  match sortedPages with
  | [] => ret tt
  | p :: rest =>
      writeDb (updatePage (Page.id p) (sortOrderPatch i)) ;;;
      writePositions (i + 1) rest
  end.

Definition reorder (projectId : Z) : M W bool :=
  project <- loadProject projectId ;;
  allPages <- readDb (getPagesByProjectId projectId) ;;
  let sortedPages := sortedPagesOf localeCompare allPages in
  writePositions 0 sortedPages ;;;
  ret true.

End Router.

(** ** Roman numerals of the design document

    Written from the design document, not from the code: the numeral of
    [n] in standard subtractive notation, in capitals, digit by digit. *)

Definition romanDigit (one five ten : N) (d : nat) : jsstring :=
  match d with
  | 1 => [one]
  | 2 => [one; one]
  | 3 => [one; one; one]
  | 4 => [one; five]
  | 5 => [five]
  | 6 => [five; one]
  | 7 => [five; one; one]
  | 8 => [five; one; one; one]
  | 9 => [one; ten]
  | _ => []
  end%nat.

Definition romanNumeral (n : nat) : jsstring :=
  romanDigit 67 68 77 ((n / 100) mod 10)
  ++ romanDigit 88 76 67 ((n / 10) mod 10)
  ++ romanDigit 73 86 88 (n mod 10).

(** Every way of writing a string of capitals in mixed case. *)
Fixpoint casings (u : jsstring) : list jsstring :=
  match u with
  | [] => [[]]
  | c :: r => flat_map (fun t => [c :: t; (c + 32)%N :: t]) (casings r)
  end.

Definition isCapital (c : N) : bool := inRange 65 90 c.

Fixpoint jsstring_eqb (a b : jsstring) : bool :=
  match a, b with
  | [], [] => true
  | x :: a', y :: b' => (N.eqb x y && jsstring_eqb a' b')%bool
  | _, _ => false
  end.

(** [e] is the label [s] with the sort key [n]. *)
Definition extractedIs (s : jsstring) (n : Z) (e : Extracted) : bool :=
  match pageNumber e, sortOrder e with
  | Some l, Some k => (jsstring_eqb l s && (k =? n))%bool
  | _, _ => false
  end.

Definition romanTableOk (upTo : nat) : bool :=
  forallb
    (fun n =>
       (forallb isCapital (romanNumeral n)
        && forallb (fun s => extractedIs s (Z.of_nat n) (extractPageNumber s))
             (casings (romanNumeral n)))%bool)
    (seq 1 upTo).

(** ** Vocabulary of the statements *)

(** [needle] occurs in [hay]. *)
Definition occursIn (needle hay : jsstring) : Prop :=
  exists before after, hay = before ++ needle ++ after.

(** The signal of a transient failure of the server side: the message of
    the failure mentions the status code 500 or the status text "Internal
    Server Error". *)
Definition serverSideSignal (message : jsstring) : Prop :=
  occursIn (js "500") message
  \/ occursIn (js "Internal Server Error") message.

(** A call of [fn] that threw a failure with that signal. *)
Definition transientFailure {T} (c : Completion T) : Prop :=
  match c with
  | Threw e => serverSideSignal (errorText e)
  | Returned _ => False
  end.

(** The delays of [n] retries in a row, from attempt [from] on. *)
Definition backoffDelays (initialDelay : Z) (from n : nat) : list Z :=
  List.map (fun k => initialDelay * 2 ^ Z.of_nat k) (seq from n).

(** A recognizer for examples: the outside world counts the calls, and a
    call fails for good when the image reference starts with "bad", fails
    with an upstream error on the first call when it starts with "slow",
    and otherwise answers with the image reference itself. *)
Definition echoLLM (imageUrl : jsstring) (calls : nat)
  : Completion (option jsstring) * nat :=
  if startsWith (js "bad") imageUrl
  then (Threw (ErrorObject (js "unreadable image")), S calls)
  else if (startsWith (js "slow") imageUrl && Nat.eqb calls 0)%bool
  then (Threw (ErrorObject (js "500 Internal Server Error")), S calls)
  else (Returned (Some imageUrl), S calls).

(** A reply parser for examples: the reply is the printed page label. *)
Definition echoParse (reply : jsstring) : Completion ParsedReply :=
  Returned (mkParsed (Some reply) reply (QArith_base.inject_Z 90) []).


(** A function that fails twice with an upstream error, then returns. *)
Definition failsTwice (calls : nat) : Completion jsstring * nat :=
  match calls with
  | 0%nat => (Threw (ErrorObject (js "500 Internal Server Error")), S calls)
  | 1%nat => (Threw (ErrorObject (js "upstream returned 500")), S calls)
  | _ => (Returned (js "done"), S calls)
  end.

(** [recognized c]: the recognition completed normally. *)
Definition recognized {A} (c : Completion A) : bool :=
  match c with Returned _ => true | Threw _ => false end.

Section Outcomes.
Context {W : Type}.
Variable invokeLLM : jsstring -> W -> Completion (option jsstring) * W.
Variable JSON_parse : jsstring -> Completion ParsedReply.

(** Recognition of the pages of a list, one after the other, each on the
    outside world the one before left: the completions, in order, and the
    outside world at the end. *)
Fixpoint recognitions (ps : list Page.t) (w : W)
  : list (Completion OCRResult) * W :=
  match ps with
  | [] => ([], w)
  | p :: rest =>
      let '(c, w1) := performOCR invokeLLM JSON_parse (Page.imageUrl p) w in
      let '(cs, w2) := recognitions rest w1 in
      (c :: cs, w2)
  end.

End Outcomes.

(** The report entry of a page whose recognition completed as [c]. *)
Definition entryOf (p : Page.t) (c : Completion OCRResult) : RetryEntry :=
  match c with
  | Returned _ => mkEntry (Page.id p) true None
  | Threw e => mkEntry (Page.id p) false (Some (messageOf e))
  end.

(** The status writes of one batch iteration, the latest first. *)
Definition statusWritesOf (p : Page.t) (c : Completion OCRResult)
  : list (Z * PageStatus) :=
  [ (Page.id p, if recognized c then completed else failed);
    (Page.id p, processing) ].

(** What one batch iteration leaves in the storage. *)
Definition dbAfterRetry (p : Page.t) (c : Completion OCRResult) (d : Db) : Db :=
  updatePage (Page.id p)
    (match c with
     | Returned r => completedPatch r true
     | Threw e => failedPatch (messageOf e)
     end)
    (updatePageStatus (Page.id p) processing None d).

(** What the whole loop leaves in the storage, and its status writes, the
    latest first. *)
Fixpoint dbAfterBatch (ps : list Page.t) (cs : list (Completion OCRResult))
  (d : Db) : Db :=
  match ps, cs with
  | p :: ps', c :: cs' => dbAfterBatch ps' cs' (dbAfterRetry p c d)
  | _, _ => d
  end.

Definition batchJournal (ps : list Page.t) (cs : list (Completion OCRResult))
  : list (Z * PageStatus) :=
  flat_map (fun pc => statusWritesOf (fst pc) (snd pc)) (rev (combine ps cs)).

Definition entriesOf (ps : list Page.t) (cs : list (Completion OCRResult))
  : list RetryEntry :=
  List.map (fun pc => entryOf (fst pc) (snd pc)) (combine ps cs).

Definition isFailed (p : Page.t) : bool := PageStatus_eqb (Page.status p) failed.

(** ** Vocabulary of the ordering *)

(** How the comparator sees the label of a page: no label ([null] or
    empty), a label [parseInt] reads a number from, or another label. *)
Inductive LabelClass :=
| Numbered (n : Z)
| Lettered (l : jsstring)
| Unlabelled.

Definition classify (p : Page.t) : LabelClass :=
  match Page.detectedPageNumber p with
  | Some l =>
      if nonEmpty l then
        match parseInt l with
        | Some n => Numbered n
        | None => Lettered l
        end
      else Unlabelled
  | None => Unlabelled
  end.

(** The labels [extractPageNumber] gives: digits only, or Roman letters
    only; or no label. *)
Definition labelOk (p : Page.t) : bool :=
  match Page.detectedPageNumber p with
  | Some l =>
      (negb (nonEmpty l) || forallb isDigit l || forallb isRomanLetter l)%bool
  | None => true
  end.

(** The value of the double nearest to an integer, with 2^1024 and
    -2^1024 for the two infinities: the order of the doubles. *)
Definition doubleOf (z : Z) : Z :=
  match toNumber z with
  | Finite v => v
  | PlusInfinity => 2 ^ 1024
  | MinusInfinity => - 2 ^ 1024
  | NaN => 0
  end.

(** What the sort reads when the comparator subtracts the numbers of two
    labels. *)
Definition numberDiff (x y : Z) : Z :=
  sortCompare (numberSub (toNumber x) (toNumber y)).

(** What the statements ask of [localeCompare], whatever the locale: it
    changes sign when its arguments are swapped, its "before or equal" is
    transitive, and a string that starts with a digit comes before a string
    that starts with one of the letters i, v, x, l, c, d, m. *)
Record Collation (localeCompare : jsstring -> jsstring -> Z) : Prop :=
  mkCollation {
    collation_swap : forall a b, localeCompare b a = - localeCompare a b;
    collation_trans : forall a b c,
      localeCompare a b <= 0 -> localeCompare b c <= 0 -> localeCompare a c <= 0;
    collation_digits_first : forall c c' r r',
      isDigit c = true -> isRomanLetter c' = true ->
      localeCompare (c :: r) (c' :: r') < 0
  }.

(** The order of [reorder], as the code has it: numbered pages first, by
    number (as doubles); then the pages with another label, by
    [localeCompare] of the labels; then the pages without label, by id. *)
Definition pageOrder (localeCompare : jsstring -> jsstring -> Z)
  (a b : Page.t) : Prop :=
  match classify a, classify b with
  | Numbered x, Numbered y => doubleOf x <= doubleOf y
  | Numbered _, _ => True
  | Lettered _, Numbered _ => False
  | Lettered la, Lettered lb => localeCompare la lb <= 0
  | Lettered _, Unlabelled => True
  | Unlabelled, Unlabelled => Page.id a <= Page.id b
  | Unlabelled, _ => False
  end.

(** *** Two collations

    A comparison by primary weights (the letter or digit), then by
    tertiary weights (the case), as the Unicode collation algorithm makes
    it on strings of ASCII letters and digits. *)
Fixpoint lexCompare (a b : list Z) : Z :=
  match a, b with
  | [], [] => 0
  | [], _ :: _ => -1
  | _ :: _, [] => 1
  | x :: a', y :: b' =>
      if x <? y then -1 else if y <? x then 1 else lexCompare a' b'
  end.

Definition collateBy (primary tertiary : N -> Z) (a b : jsstring) : Z :=
  let first := lexCompare (List.map primary a) (List.map primary b) in
  if first =? 0
  then lexCompare (List.map tertiary a) (List.map tertiary b)
  else first.

Definition isAsciiLetter (c : N) : bool :=
  (inRange 65 90 c || inRange 97 122 c)%bool.

Definition tertiaryWeight (c : N) : Z :=
  if inRange 65 90 c then 1 else 0.

(** The root collation (the one of the locale en-US): digits before
    letters, letters in alphabetical order whatever their case, and between
    strings that differ in case only, the first difference decides, lower
    case first.  Other code units are put before the digits, in code
    order. *)
Definition primaryWeight (c : N) : Z :=
  if isAsciiLetter c then 200000 + 2 * Z.of_N (toUpperChar c)
  else if isDigit c then 100000 + Z.of_N c
  else Z.of_N c.

Definition rootCollation : jsstring -> jsstring -> Z :=
  collateBy primaryWeight tertiaryWeight.

(** The collation of the locale tr-TR: the capital I is the capital of the
    dotless i there, a letter of its own that comes before i. *)
Definition turkishPrimaryWeight (c : N) : Z :=
  if N.eqb c 73 then primaryWeight c - 1 else primaryWeight c.

Definition turkishCollation : jsstring -> jsstring -> Z :=
  collateBy turkishPrimaryWeight tertiaryWeight.

Definition hasNumber (k : Z) (p : Page.t) : bool :=
  match classify p with
  | Numbered n => n =? k
  | _ => false
  end.

Fixpoint distinct (l : list Z) : bool :=
  match l with
  | [] => true
  | x :: r => (negb (existsb (Z.eqb x) r) && distinct r)%bool
  end.

Definition withSortOrder (i : Z) (p : Page.t) : Page.t :=
  applyPatch (sortOrderPatch i) p.

(** The pages of a list with the positions i, i+1, ... in that order. *)
Fixpoint setPositions (i : Z) (l : list Page.t) : list Page.t :=
  match l with
  | [] => []
  | p :: r => withSortOrder i p :: setPositions (i + 1) r
  end.

(** The position the writes of [writePositions i] leave on the page with
    id [k], whose position was [before]: the last write to [k] wins. *)
Fixpoint finalPosition (i : Z) (ids : list Z) (k : Z) (before : Z) : Z :=
  match ids with
  | [] => before
  | q :: r => finalPosition (i + 1) r k (if k =? q then i else before)
  end.

Definition repositionFrom (i : Z) (ids : list Z) (p : Page.t) : Page.t :=
  withSortOrder (finalPosition i ids (Page.id p) (Page.sortOrder p)) p.

(** What the loop of [reorder] leaves in the storage, from index [i] on. *)
Fixpoint dbAfterPositions (i : Z) (l : list Page.t) (d : Db) : Db :=
  match l with
  | [] => d
  | p :: r =>
      dbAfterPositions (i + 1) r (updatePage (Page.id p) (sortOrderPatch i) d)
  end.

Definition labelOf (p : Page.t) : jsstring :=
  match Page.detectedPageNumber p with Some l => l | None => [] end.

(** A label of digits only or of Roman letters only. *)
Definition capOk (l : jsstring) : Prop :=
  nonEmpty l = true
  /\ (forallb isDigit l = true \/ forallb isRomanLetter l = true).

Definition asciiCodes : list N := List.map N.of_nat (seq 0 128).

(** What [labelOk] leaves of the three classes. *)
Inductive Shape (p : Page.t) : Prop :=
| ShapeNumbered (n : Z) (c : N) (r : jsstring) :
    classify p = Numbered n -> labelOf p = c :: r -> isDigit c = true -> Shape p
| ShapeRoman (c : N) (r : jsstring) :
    classify p = Lettered (labelOf p) -> labelOf p = c :: r ->
    isRomanLetter c = true -> Shape p
| ShapeUnlabelled :
    classify p = Unlabelled -> Shape p.

(** The sort key the design document speaks of: the number the label
    extractor resolves the label of the page to. *)
Definition sortKeyOf (p : Page.t) : option Z :=
  match Page.detectedPageNumber p with
  | Some l => sortOrder (extractPageNumber l)
  | None => None
  end.

(** "Pages with non-null sort keys are ordered numerically ascending", on
    the positions written back. *)
Definition keysAscend (ps : list Page.t) : Prop :=
  forall p q kp kq,
    In p ps -> In q ps ->
    sortKeyOf p = Some kp -> sortKeyOf q = Some kq ->
    kp < kq -> Page.sortOrder p < Page.sortOrder q.

(** Sample data: project 7 of user 1 with five failed pages, a completed
    one and a pending one, in upload order. *)
Definition samplePage (id : Z) (imageUrl : string)
  (text label : option jsstring) (status : PageStatus)
  (errorMessage : option jsstring) (position : Z) : Page.t :=
  Page.mk id 7 (js "scan.png") (js imageUrl) text label None status
    errorMessage position.

Definition samplePages : list Page.t :=
  [ samplePage 10 "12" None None failed (Some (js "old failure")) 0;
    samplePage 11 "bad-1" None None failed (Some (js "old failure")) 1;
    samplePage 12 "iv" None None failed (Some (js "old failure")) 2;
    samplePage 13 "bad-2" None None failed (Some (js "old failure")) 3;
    samplePage 14 "[78]" None None failed (Some (js "old failure")) 4;
    samplePage 15 "42" (Some (js "text of page 42")) (Some (js "42"))
      completed None 5;
    samplePage 16 "9" None None pending None 6 ].

Definition sampleDb : Db :=
  mkDb samplePages [Project.mk 7 1 7 1] [].

Definition sampleState : State nat := mkState sampleDb 0%nat.

(** Project 8 of user 1: numbered, Roman and unlabelled pages mixed, with
    the number 9 twice.  Project 9: the Roman pages ix and v. *)
Definition labelledPage (id project : Z) (label : option jsstring) (position : Z)
  : Page.t :=
  Page.mk id project (js "scan.png") (js "image") None label None completed
    None position.

Definition mixedPages : list Page.t :=
  [ labelledPage 20 8 (Some (js "10")) 0;
    labelledPage 21 8 None 0;
    labelledPage 22 8 (Some (js "iv")) 0;
    labelledPage 23 8 (Some (js "9")) 0;
    labelledPage 24 8 (Some (js "IX")) 0;
    labelledPage 25 8 (Some (js "9")) 0;
    labelledPage 26 8 None 0 ].

Definition romanPages : list Page.t :=
  [ labelledPage 30 9 (Some (js "ix")) 0;
    labelledPage 31 9 (Some (js "v")) 0 ].

Definition orderingDb : Db :=
  mkDb (mixedPages ++ romanPages) [Project.mk 8 1 7 7; Project.mk 9 1 2 2] [].

Definition orderingState : State nat := mkState orderingDb 0%nat.

(** ** [pages.updateOrder] and the retry loops of the client *)

Definition isPending (p : Page.t) : bool :=
  PageStatus_eqb (Page.status p) pending.

(** The pages [retrySingle] accepts. *)
Definition retryable (p : Page.t) : bool := (isFailed p || isPending p)%bool.

Section MoreProcedures.
Context {W : Type}.
Variable invokeLLM : jsstring -> W -> Completion (option jsstring) * W.
Variable JSON_parse : jsstring -> Completion ParsedReply.
Variable user : Z.

(** The loop of [updateOrder] over [input.pageOrders], each entry a
    [pageId] with its [sortOrder]. *)
Fixpoint writeOrders (pageOrders : list (Z * Z)) : M W unit :=
  match pageOrders with
  | [] => ret tt
  | (pageId, position) :: rest =>
      writeDb (updatePage pageId (sortOrderPatch position)) ;;;
      writeOrders rest
  end.

Definition updateOrder (projectId : Z) (pageOrders : list (Z * Z)) : M W bool :=
  project <- loadProject user projectId ;;
  writeOrders pageOrders ;;;
  ret true.

(** The [for] loop of [handleRetryFailed] and of [handleProcessPending] in
    [ProjectDetail.tsx]: one [retrySingle] call per page, a rejected call
    counted as a failure; the two counters are what the loop leaves. *)
Fixpoint clientRetryLoop (pageIds : list Z) (successCount failCount : Z)
  : M W (Z * Z) :=
  match pageIds with
  | [] => ret (successCount, failCount)
  | pageId :: rest =>
      counts <-
        tryCatch
          (retrySingle invokeLLM JSON_parse user pageId ;;;
           ret (successCount + 1, failCount))
          (fun _ => ret (successCount, failCount + 1)) ;;
      clientRetryLoop rest (fst counts) (snd counts)
  end.

(** [handleRetryFailed] on the pages the client holds in [data.pages]. *)
Definition handleRetryFailed (dataPages : list Page.t) : M W (Z * Z) :=
  clientRetryLoop (List.map Page.id (filter isFailed dataPages)) 0 0.

(** [handleProcessPending] on the pages the client holds. *)
Definition handleProcessPending (dataPages : list Page.t) : M W (Z * Z) :=
  clientRetryLoop (List.map Page.id (filter isPending dataPages)) 0 0.

End MoreProcedures.

(** ** Vocabulary of the further statements *)

(** The values of [romanMap]. *)
Definition romanValues : list Z := [1; 5; 10; 50; 100; 500; 1000].

(** The sum of the values of [romanMap] below [v]. *)
Definition sumBelow (v : Z) : Z :=
  fold_right Z.add 0 (filter (fun u => u <? v) romanValues).

Definition totalDelay (ds : list Z) : Z := fold_right Z.add 0 ds.

(** The storage [d] with the counter of the project raised by [count], as
    [retryFailed] writes it: no write for a count of 0. *)
Definition bumpProcessed (projectId : Z) (project : Project.t) (count : Z)
  (d : Db) : Db :=
  if 0 <? count
  then updateProject projectId (Project.processedPages project + count) d
  else d.

(** A page as the procedures leave it after recognition: completed without
    error text, or failed with one. *)
Definition settled (p : Page.t) : Prop :=
  (Page.status p = completed /\ Page.errorMessage p = None)
  \/ (Page.status p = failed /\ Page.errorMessage p <> None).

(** A label with its sort key as [extractPageNumber] pairs them: digits
    that [parseInt] reads as a number strictly between 0 and 10000, or
    Roman letters with the value [romanToArabic] gives their capitals. *)
Definition normalized (l : jsstring) (k : Z) : Prop :=
  nonEmpty l = true
  /\ ((forallb isDigit l = true /\ parseInt l = Some k /\ 0 < k < 10000)
      \/ (forallb isRomanLetter l = true
          /\ romanToArabic (toUpperCase l) = Some k /\ 0 < k)).

(** The string of a nullable string that is not null. *)
Definition labelOf_option (x : option jsstring) : jsstring :=
  match x with Some l => l | None => [] end.

(** What the writes of [updateOrder] leave of a page: the last entry for
    its id decides. *)
Fixpoint orderedBy (pageOrders : list (Z * Z)) (p : Page.t) : Page.t :=
  match pageOrders with
  | [] => p
  | (pageId, position) :: rest =>
      orderedBy rest
        (if Page.id p =? pageId then withSortOrder position p else p)
  end.

(** The page [p] as a successful recognition [r] leaves it. *)
Definition completedPage (p : Page.t) (r : OCRResult) (clearError : bool)
  : Page.t :=
  Page.mk (Page.id p) (Page.projectId p) (Page.filename p) (Page.imageUrl p)
    (Some (ocrExtractedText r)) (ocrDetectedPageNumber r)
    (Some (ocrFormattingData r)) completed
    (if clearError then None else Page.errorMessage p) (Page.sortOrder p).

Definition notFoundError : Thrown := ErrorObject (js "Page not found").
Definition projectNotFoundError : Thrown := ErrorObject (js "Project not found").
Definition unauthorizedError : Thrown := ErrorObject (js "Unauthorized").
Definition notRetryableError : Thrown :=
  ErrorObject (js "Only failed or pending pages can be processed").

(** The number of completed pages of a project. *)
Definition isCompletedIn (projectId : Z) (p : Page.t) : bool :=
  ((Page.projectId p =? projectId)
   && PageStatus_eqb (Page.status p) completed)%bool.

Definition completedCount (projectId : Z) (d : Db) : Z :=
  Z.of_nat (List.length (filter (isCompletedIn projectId) (pages d))).

(** * Properties *)

(** ** Label extractor *)

(** C7: the examples of the design document: "42", "Page 123", "iv", "XII",
    "- 56 -" and "[78]" give their label and sort key, "99999" and
    "no number here" give neither. *)
Theorem extract_examples :
  extractPageNumber (js "42") = found "42" 42
  /\ extractPageNumber (js "Page 123") = found "123" 123
  /\ extractPageNumber (js "iv") = found "iv" 4
  /\ extractPageNumber (js "XII") = found "XII" 12
  /\ extractPageNumber (js "- 56 -") = found "56" 56
  /\ extractPageNumber (js "[78]") = found "78" 78
  /\ extractPageNumber (js "99999") = notFound
  /\ extractPageNumber (js "no number here") = notFound.
Proof.
  repeat apply conj; vm_compute; reflexivity.
Qed.

(** The cases of [ocrService.test.ts] that the examples above do not
    cover: parentheses, the table of Roman numerals, text without a number,
    a prefix without digits, and a page number inside a text of several
    lines. *)
Lemma extract_test_suite :
  extractPageNumber (js "(99)") = found "99" 99
  /\ List.map (fun s => sortOrder (extractPageNumber (js s)))
       [ "i"; "ii"; "iii"; "iv"; "v"; "vi"; "vii"; "viii"; "ix"; "x"; "xx";
         "xxx"; "xl"; "l"; "xc"; "c" ]%string
     = List.map Some [1; 2; 3; 4; 5; 6; 7; 8; 9; 10; 20; 30; 40; 50; 90; 100]
  /\ extractPageNumber
       (js "This is just regular text without any page number") = notFound
  /\ extractPageNumber (js "Page abc") = notFound
  /\ extractPageNumber
       (nl ++ js "      Some content here" ++ nl ++ js "      Page 45" ++ nl
        ++ js "      More content" ++ nl ++ js "    ")
     = found "45" 45.
Proof.
  repeat apply conj; vm_compute; reflexivity.
Qed.

(** C10: the bound (0, 10000) is checked on digit captures only: a line of
    ten letters m is accepted with the sort key 10000, while the digits
    10000 are rejected. *)
Theorem roman_capture_has_no_upper_bound :
  exists (text : jsstring) (k : Z),
    forallb isRomanLetter text = true
    /\ extractPageNumber text = mkExtracted (Some text) (Some k)
    /\ 10000 <= k
    /\ extractPageNumber (js "10000") = notFound.
Proof.
  exists (js "mmmmmmmmmm"), 10000.
  repeat apply conj; try (vm_compute; reflexivity).
  vm_compute. discriminate.
Qed.

Lemma jsstring_eqb_eq (a b : jsstring) : jsstring_eqb a b = true -> a = b.
Proof.
  revert b. induction a as [|x a IH]; intros [|y b] H; simpl in H;
    try discriminate; auto.
  apply andb_true_iff in H. destruct H as [Hx Hr].
  apply N.eqb_eq in Hx. subst. f_equal. auto.
Qed.

Lemma extractedIs_eq (s : jsstring) (n : Z) (e : Extracted) :
  extractedIs s n e = true -> e = mkExtracted (Some s) (Some n).
Proof.
  unfold extractedIs. destruct e as [[l|] [k|]]; simpl; try discriminate.
  intros H. apply andb_true_iff in H. destruct H as [Hl Hk].
  apply jsstring_eqb_eq in Hl. apply Z.eqb_eq in Hk. subst. reflexivity.
Qed.

Lemma toUpperChar_capital (c u : N) :
  isCapital u = true -> toUpperChar c = u -> c = u \/ c = (u + 32)%N.
Proof.
  unfold isCapital, toUpperChar, inRange. intros Hu.
  apply andb_true_iff in Hu. destruct Hu as [H1 H2].
  apply N.leb_le in H1. apply N.leb_le in H2.
  destruct (N.leb 97 c && N.leb c 122)%bool eqn:E.
  - apply andb_true_iff in E. destruct E as [E1 E2].
    apply N.leb_le in E1. apply N.leb_le in E2. intros H. right. lia.
  - intros H. left. exact H.
Qed.

Lemma casings_complete (u s : jsstring) :
  forallb isCapital u = true -> toUpperCase s = u -> In s (casings u).
Proof.
  revert s. induction u as [|c u IH]; intros s Hu Hs.
  - destruct s; [left; reflexivity | discriminate].
  - destruct s as [|x s]; [discriminate|].
    simpl in Hu. apply andb_true_iff in Hu. destruct Hu as [Hc Hu].
    unfold toUpperCase in Hs. simpl in Hs. injection Hs as Hx Hs.
    simpl. apply in_flat_map. exists s. split.
    + apply IH; assumption.
    + destruct (toUpperChar_capital x c Hc Hx) as [-> | ->];
        [left | right; left]; reflexivity.
Qed.

Lemma romanTableOk_sound (upTo n : nat) (s : jsstring) :
  romanTableOk upTo = true ->
  In n (seq 1 upTo) ->
  toUpperCase s = romanNumeral n ->
  extractPageNumber s = mkExtracted (Some s) (Some (Z.of_nat n)).
Proof.
  intros T Hin Hs. unfold romanTableOk in T.
  rewrite forallb_forall in T.
  specialize (T n Hin). apply andb_true_iff in T. destruct T as [Hcap Hall].
  rewrite forallb_forall in Hall.
  apply extractedIs_eq, Hall, casings_complete; assumption.
Qed.

Lemma romanTable_1_100 : romanTableOk 100 = true.
Proof. vm_compute. reflexivity. Qed.

(** C8: a Roman numeral of 1..100 in subtractive notation, in any mix of
    cases, alone on its input, is extracted with its value as the sort key
    and with its own spelling as the label. *)
Theorem extract_roman_numeral (n : nat) (s : jsstring) :
  (1 <= n <= 100)%nat ->
  toUpperCase s = romanNumeral n ->
  extractPageNumber s = mkExtracted (Some s) (Some (Z.of_nat n)).
Proof.
  intros Hn Hs.
  apply (romanTableOk_sound 100 n s romanTable_1_100); [|exact Hs].
  apply in_seq. lia.
Qed.

Lemma extract_roman_numeral_witness :
  (1 <= 94 <= 100)%nat
  /\ toUpperCase (js "xCiV") = romanNumeral 94
  /\ extractPageNumber (js "xCiV") = mkExtracted (Some (js "xCiV")) (Some 94).
Proof.
  split; [lia|]. split; [vm_compute; reflexivity|].
  apply (extract_roman_numeral 94 (js "xCiV")); [lia | vm_compute; reflexivity].
Defined.

(** ** Recognition invoker *)

Lemma last_default_irrelevant {A} (l : list A) (d d' : A) :
  l <> [] -> last l d = last l d'.
Proof.
  induction l as [|x l IH]; intros H; [congruence|].
  destruct l as [|y l]; [reflexivity|].
  change (last (y :: l) d = last (y :: l) d'). apply IH. discriminate.
Qed.

Lemma startsWith_spec (needle : jsstring) :
  forall hay, startsWith needle hay = true <-> exists after, hay = needle ++ after.
Proof.
  induction needle as [|n needle IH]; intros hay; simpl.
  - split; [intros _; exists hay; reflexivity | reflexivity].
  - destruct hay as [|h hay].
    + split; [discriminate | intros [after H]; discriminate].
    + rewrite andb_true_iff, N.eqb_eq, IH. split.
      * intros [-> [after ->]]. exists after. reflexivity.
      * intros [after H]. injection H as -> ->. eauto.
Qed.

(** [includes] finds the occurrences, and only them. *)
Lemma includes_spec (needle : jsstring) :
  forall hay, includes needle hay = true <-> occursIn needle hay.
Proof.
  unfold occursIn. induction hay as [|h hay IH].
  - simpl. rewrite orb_false_r, startsWith_spec. split.
    + intros [after H]. exists [], after. exact H.
    + intros (before & after & H). destruct before as [|c before].
      * exists after. exact H.
      * discriminate.
  - change (includes needle (h :: hay))
      with (startsWith needle (h :: hay) || includes needle hay)%bool.
    rewrite orb_true_iff, startsWith_spec, IH. split.
    + intros [[after H] | (before & after & H)].
      * exists [], after. exact H.
      * exists (h :: before), after. rewrite H. reflexivity.
    + intros (before & after & H). destruct before as [|c before].
      * left. exists after. exact H.
      * right. injection H as _ H. eauto.
Qed.

(** The test of the helper is the signal. *)
Lemma is500Error_spec (e : Thrown) :
  is500Error e = true <-> serverSideSignal (errorText e).
Proof.
  unfold is500Error, serverSideSignal.
  rewrite orb_true_iff, !includes_spec. reflexivity.
Qed.

(** What the test makes of some messages: it is a test of the text, so a
    message with 500 in it passes for an upstream failure, and a server
    failure worded otherwise does not. *)
Lemma is500Error_examples :
  is500Error (ErrorObject (js "500 Internal Server Error")) = true
  /\ is500Error (NonError (js "upstream returned 500")) = true
  /\ is500Error (ErrorObject (js "timeout after 15000ms")) = true
  /\ is500Error (ErrorObject (js "timeout after 30000ms")) = false
  /\ is500Error (ErrorObject (js "internal server error")) = false
  /\ is500Error (ErrorObject (js "503 Service Unavailable")) = false
  /\ is500Error (ErrorObject (js "unreadable image")) = false.
Proof. repeat apply conj; vm_compute; reflexivity. Qed.


Section RetryFacts.
Context {W T : Type}.
Variable fn : W -> Completion T * W.
Variable maxRetries : nat.
Variable initialDelay : Z.

Lemma retryLoop_attempts_nonempty (remaining attempt : nat) (lastError : Thrown) (w : W) :
  remaining <> 0%nat ->
  attempts (retryLoop fn maxRetries initialDelay remaining attempt lastError w) <> [].
Proof.
  destruct remaining as [|r]; [congruence|]. intros _. simpl.
  destruct (fn w) as [[v|e] w'].
  - simpl. discriminate.
  - destruct (negb (is500Error e) || Nat.eqb attempt (maxRetries - 1))%bool;
      simpl; discriminate.
Qed.

Lemma retryLoop_spec (remaining : nat) :
  forall (attempt : nat) (lastError : Thrown) (w : W),
    (remaining + attempt = maxRetries)%nat ->
    let run := retryLoop fn maxRetries initialDelay remaining attempt lastError w in
    (List.length (attempts run) <= remaining)%nat
    /\ delays run
       = backoffDelays initialDelay attempt (List.length (attempts run) - 1)
    /\ Forall transientFailure (removelast (attempts run))
    /\ outcome run = last (attempts run) (Threw lastError)
    /\ (forall e, outcome run = Threw e -> serverSideSignal (errorText e) ->
        remaining <> 0%nat -> List.length (attempts run) = remaining).
Proof.
  induction remaining as [|r IH]; intros attempt lastError w Hsum; simpl.
  - repeat apply conj; auto; intros; congruence.
  - destruct (fn w) as [[v|e] w'] eqn:Hfn.
    + simpl. repeat apply conj; auto; try lia; intros; discriminate.
    + destruct (negb (is500Error e) || Nat.eqb attempt (maxRetries - 1))%bool eqn:Hstop.
      * simpl. repeat apply conj; auto; try lia.
        intros e' He' Ht _. injection He' as <-.
        apply is500Error_spec in Ht.
        rewrite Ht in Hstop. simpl in Hstop. apply Nat.eqb_eq in Hstop. lia.
      * apply orb_false_iff in Hstop. destruct Hstop as [Ht Hlast].
        apply negb_false_iff in Ht. apply Nat.eqb_neq in Hlast.
        assert (Hr : r <> 0%nat) by lia.
        specialize (IH (S attempt) e w' ltac:(lia)).
        pose proof (retryLoop_attempts_nonempty r (S attempt) e w' Hr) as Hne.
        cbv zeta in IH.
        set (run := retryLoop fn maxRetries initialDelay r (S attempt) e w') in *.
        destruct IH as (Hlen & Hdel & Htr & Hout & Hex).
        simpl.
        destruct (attempts run) as [|a rest] eqn:Hatt; [congruence|].
        repeat apply conj.
        -- simpl in *. lia.
        -- rewrite Hdel. unfold backoffDelays. simpl.
           rewrite Nat.sub_0_r. reflexivity.
        -- constructor; [apply is500Error_spec; exact Ht | exact Htr].
        -- rewrite Hout. apply last_default_irrelevant. discriminate.
        -- intros e' He' Ht' _. simpl. f_equal. apply (Hex e' He' Ht' Hr).
Qed.

End RetryFacts.



(** ** Storage lemmas *)

Lemma find_map_update {A} (key : A -> Z) (f : A -> A) (k : Z) (l : list A) :
  (forall a, key (f a) = key a) ->
  find (fun a => key a =? k)
    (List.map (fun a => if key a =? k then f a else a) l)
  = option_map f (find (fun a => key a =? k) l).
Proof.
  intros Hkey. induction l as [|a l IH]; [reflexivity|]. simpl.
  destruct (key a =? k) eqn:E.
  - simpl. rewrite Hkey, E. reflexivity.
  - simpl. rewrite E. exact IH.
Qed.

Lemma applyPatch_id (patch : PagePatch) (p : Page.t) :
  Page.id (applyPatch patch p) = Page.id p.
Proof. reflexivity. Qed.

Lemma getPageById_updatePage (pageId : Z) (patch : PagePatch) (d : Db) :
  getPageById pageId (updatePage pageId patch d)
  = option_map (applyPatch patch) (getPageById pageId d).
Proof.
  unfold getPageById, updatePage. simpl.
  apply (find_map_update Page.id). apply applyPatch_id.
Qed.

Lemma getPageById_updateProject (pageId projectId n : Z) (d : Db) :
  getPageById pageId (updateProject projectId n d) = getPageById pageId d.
Proof. reflexivity. Qed.

Lemma getProjectById_updatePage (projectId pageId : Z) (patch : PagePatch) (d : Db) :
  getProjectById projectId (updatePage pageId patch d) = getProjectById projectId d.
Proof. reflexivity. Qed.

Lemma getProjectById_updateProject (projectId n : Z) (d : Db) :
  getProjectById projectId (updateProject projectId n d)
  = option_map (setProcessedPages n) (getProjectById projectId d).
Proof.
  unfold getProjectById, updateProject. simpl.
  apply (find_map_update Project.id). reflexivity.
Qed.

(** ** Single-page procedures *)

Section RouterFacts.
Context {W : Type}.
Variable invokeLLM : jsstring -> W -> Completion (option jsstring) * W.
Variable JSON_parse : jsstring -> Completion ParsedReply.
Variable user : Z.

Lemma performOCR_throws_Error (imageUrl : jsstring) (w w' : W) (e : Thrown) :
  performOCR invokeLLM JSON_parse imageUrl w = (Threw e, w') ->
  exists cause, e = ErrorObject (js "OCR processing failed: " ++ cause).
Proof.
  unfold performOCR.
  destruct (performOCR_try invokeLLM JSON_parse imageUrl w) as [[r|e0] w0];
    intros H; [discriminate|].
  exists (match e0 with
          | ErrorObject message => message
          | NonError _ => js "Unknown error"
          end).
  injection H as He _. symmetry. exact He.
Qed.

Lemma loadPage_ok (st : State W) (pageId : Z) (page : Page.t) (project : Project.t) :
  getPageById pageId (db st) = Some page ->
  getProjectById (Page.projectId page) (db st) = Some project ->
  Project.userId project = user ->
  loadPage user pageId st = (Returned (page, project), st).
Proof.
  intros Hp Hq Hu. unfold loadPage, bind, readDb. rewrite Hp, Hq, Hu.
  rewrite Z.eqb_refl. reflexivity.
Qed.

Lemma loadProject_ok (st : State W) (projectId : Z) (project : Project.t) :
  getProjectById projectId (db st) = Some project ->
  Project.userId project = user ->
  loadProject user projectId st = (Returned project, st).
Proof.
  intros Hq Hu. unfold loadProject, bind, readDb. rewrite Hq, Hu.
  rewrite Z.eqb_refl. reflexivity.
Qed.

(** [retrySingle] refuses a page that is neither failed nor pending, before
    any write. *)
Lemma retrySingle_guard (st : State W) (pageId : Z) (page : Page.t) (project : Project.t) :
  getPageById pageId (db st) = Some page ->
  getProjectById (Page.projectId page) (db st) = Some project ->
  Project.userId project = user ->
  Page.status page = completed \/ Page.status page = processing ->
  retrySingle invokeLLM JSON_parse user pageId st
  = (Threw (ErrorObject (js "Only failed or pending pages can be processed")), st).
Proof.
  intros Hp Hq Hu Hs. unfold retrySingle, bind.
  rewrite (loadPage_ok st pageId page project Hp Hq Hu).
  destruct Hs as [-> | ->]; reflexivity.
Qed.

(** [processOCR] has no such guard: whatever the status of the page, its
    first write is the status [processing]. *)
Lemma processOCR_any_status (st : State W) (pageId : Z) (page : Page.t) (project : Project.t) :
  getPageById pageId (db st) = Some page ->
  getProjectById (Page.projectId page) (db st) = Some project ->
  Project.userId project = user ->
  exists final,
    statusJournal (db (snd (processOCR invokeLLM JSON_parse user pageId st)))
    = [(pageId, final); (pageId, processing)] ++ statusJournal (db st).
Proof.
  intros Hp Hq Hu. unfold processOCR, bind.
  rewrite (loadPage_ok st pageId page project Hp Hq Hu).
  unfold tryCatch, bind, writeDb, recognize, onWorld. simpl.
  destruct (performOCR invokeLLM JSON_parse (Page.imageUrl page) (world st))
    as [[r|e] w']; simpl; eauto.
Qed.

(** What a single-page procedure leaves of a page whose recognition
    failed with [e]: the status [failed] with the message of [e]. *)
Lemma failed_page_recorded (d : Db) (pageId : Z) (page : Page.t) (e : Thrown)
  (errorColumn : option (option jsstring)) :
  getPageById pageId d = Some page ->
  errorColumn = Some (Some (messageOf e)) ->
  exists page',
    getPageById pageId
      (updatePage pageId (mkPatch None None None (Some failed) errorColumn None)
         (updatePageStatus pageId processing None d)) = Some page'
    /\ Page.status page' = failed
    /\ Page.errorMessage page' = Some (messageOf e).
Proof.
  intros Hp ->. unfold updatePageStatus.
  rewrite !getPageById_updatePage, Hp. simpl. eauto.
Qed.

(** C5, as the code has it: when recognition fails, [processOCR] and
    [retrySingle] write the status [failed] with the message of the failure
    as the error text of the page, leave the counter of the project alone,
    and then throw to their caller: [processOCR] the failure itself,
    [retrySingle] a new error with the same message. *)
Theorem single_page_failure_recorded_then_rethrown
  (st : State W) (pageId : Z) (page : Page.t) (project : Project.t)
  (e : Thrown) (w' : W) :
  getPageById pageId (db st) = Some page ->
  getProjectById (Page.projectId page) (db st) = Some project ->
  Project.userId project = user ->
  performOCR invokeLLM JSON_parse (Page.imageUrl page) (world st) = (Threw e, w') ->
  (exists st' page',
     processOCR invokeLLM JSON_parse user pageId st = (Threw e, st')
     /\ getPageById pageId (db st') = Some page'
     /\ Page.status page' = failed
     /\ Page.errorMessage page' = Some (messageOf e)
     /\ projects (db st') = projects (db st))
  /\ (Page.status page = failed \/ Page.status page = pending ->
      exists st' page',
        retrySingle invokeLLM JSON_parse user pageId st
        = (Threw (ErrorObject (messageOf e)), st')
        /\ getPageById pageId (db st') = Some page'
        /\ Page.status page' = failed
        /\ Page.errorMessage page' = Some (messageOf e)
        /\ projects (db st') = projects (db st)).
Proof.
  intros Hp Hq Hu Hocr.
  destruct (failed_page_recorded (db st) pageId page e _ Hp eq_refl)
    as (page' & Hget & Hst & Herr).
  split.
  - unfold processOCR, bind.
    rewrite (loadPage_ok st pageId page project Hp Hq Hu).
    unfold tryCatch, bind, writeDb, recognize, onWorld, throw. simpl.
    rewrite Hocr. simpl.
    eexists. exists page'. split; [reflexivity|]. simpl.
    repeat apply conj; auto.
  - intros Hs. unfold retrySingle, bind.
    rewrite (loadPage_ok st pageId page project Hp Hq Hu).
    assert (Hguard : (negb (PageStatus_eqb (Page.status page) failed)
                      && negb (PageStatus_eqb (Page.status page) pending))%bool
                     = false)
      by (destruct Hs as [-> | ->]; reflexivity).
    rewrite Hguard.
    unfold tryCatch, bind, writeDb, recognize, onWorld, throwError, throw. simpl.
    rewrite Hocr. simpl.
    eexists. exists page'. split; [reflexivity|]. simpl.
    repeat apply conj; auto.
Qed.

End RouterFacts.

(** C5, as stated, fails: on page 11 of the sample project, whose
    recognition fails, both procedures complete by throwing to their
    caller. *)
Lemma single_page_failure_reaches_caller :
  fst (performOCR echoLLM echoParse (js "bad-1") 0%nat)
  = Threw (ErrorObject (js "OCR processing failed: unreadable image"))
  /\ fst (processOCR echoLLM echoParse 1 11 sampleState)
     = Threw (ErrorObject (js "OCR processing failed: unreadable image"))
  /\ fst (retrySingle echoLLM echoParse 1 11 sampleState)
     = Threw (ErrorObject (js "OCR processing failed: unreadable image"))
  /\ ~ (exists reply,
         fst (processOCR echoLLM echoParse 1 11 sampleState) = Returned reply)
  /\ ~ (exists reply,
         fst (retrySingle echoLLM echoParse 1 11 sampleState) = Returned reply).
Proof.
  assert (H1 : fst (processOCR echoLLM echoParse 1 11 sampleState)
               = Threw (ErrorObject (js "OCR processing failed: unreadable image")))
    by (vm_compute; reflexivity).
  assert (H2 : fst (retrySingle echoLLM echoParse 1 11 sampleState)
               = Threw (ErrorObject (js "OCR processing failed: unreadable image")))
    by (vm_compute; reflexivity).
  repeat apply conj; try assumption; try (vm_compute; reflexivity);
    intros [reply H]; congruence.
Qed.

Lemma single_page_failure_recorded_then_rethrown_witness :
  exists st' page',
    processOCR echoLLM echoParse 1 11 sampleState
    = (Threw (ErrorObject (js "OCR processing failed: unreadable image")), st')
    /\ getPageById 11 (db st') = Some page'
    /\ Page.status page' = failed
    /\ Page.errorMessage page'
       = Some (js "OCR processing failed: unreadable image")
    /\ projects (db st') = projects sampleDb.
Proof.
  refine (proj1 (single_page_failure_recorded_then_rethrown
            echoLLM echoParse 1 sampleState 11
            (samplePage 11 "bad-1" None None failed (Some (js "old failure")) 1)
            (Project.mk 7 1 7 1)
            (ErrorObject (js "OCR processing failed: unreadable image"))
            1%nat _ _ _ _));
    vm_compute; reflexivity.
Defined.

(** C4 fails on [processOCR], which lacks the guard of [retrySingle]: page
    15 of the sample project is completed; [processOCR] does not reject it
    but writes [processing], recognizes it again and counts it a second
    time, so that the project counts 2 processed pages with one completed
    page; [retrySingle] rejects the same request and writes nothing. *)
Theorem processOCR_reprocesses_completed_page :
  let after := db (snd (processOCR echoLLM echoParse 1 15 sampleState)) in
  option_map Page.status (getPageById 15 sampleDb) = Some completed
  /\ fst (processOCR echoLLM echoParse 1 15 sampleState)
     = Returned (mkProcessReply true (Some (js "42")))
  /\ statusJournal after = [(15, completed); (15, processing)]
  /\ option_map Project.processedPages (getProjectById 7 sampleDb) = Some 1
  /\ option_map Project.processedPages (getProjectById 7 after) = Some 2
  /\ List.length
       (filter (fun p => PageStatus_eqb (Page.status p) completed) (pages after))
     = 1%nat
  /\ retrySingle echoLLM echoParse 1 15 sampleState
     = (Threw (ErrorObject (js "Only failed or pending pages can be processed")),
        sampleState).
Proof.
  repeat apply conj; vm_compute; reflexivity.
Qed.

(** The page after the two writes of a successful run: with
    [errorMessage: null] in the second write the error text is cleared,
    without it the error text is what it was. *)
Lemma completion_error_text (d : Db) (pageId : Z) (page : Page.t)
  (r : OCRResult) (clearError : bool) :
  getPageById pageId d = Some page ->
  exists page',
    getPageById pageId
      (updatePage pageId (completedPatch r clearError)
         (updatePageStatus pageId processing None d)) = Some page'
    /\ Page.status page' = completed
    /\ Page.errorMessage page'
       = if clearError then None else Page.errorMessage page.
Proof.
  intros Hp. unfold updatePageStatus.
  rewrite !getPageById_updatePage, Hp. simpl.
  eexists. split; [reflexivity|]. split; [reflexivity|].
  destruct clearError; reflexivity.
Qed.

(** C6 fails on [processOCR]: page 10 of the sample project is failed with
    an error text; [processOCR] completes it and the old error text stays,
    where [retrySingle] on the same page writes [errorMessage: null]. *)
Theorem processOCR_keeps_stale_error :
  let view := option_map (fun p => (Page.status p, Page.errorMessage p)) in
  view (getPageById 10 sampleDb) = Some (failed, Some (js "old failure"))
  /\ view (getPageById 10
             (db (snd (processOCR echoLLM echoParse 1 10 sampleState))))
     = Some (completed, Some (js "old failure"))
  /\ view (getPageById 10
             (db (snd (retrySingle echoLLM echoParse 1 10 sampleState))))
     = Some (completed, None).
Proof.
  repeat apply conj; vm_compute; reflexivity.
Qed.

(** ** Batch retry *)

Section BatchFacts.
Context {W : Type}.
Variable invokeLLM : jsstring -> W -> Completion (option jsstring) * W.
Variable JSON_parse : jsstring -> Completion ParsedReply.
Variable user : Z.

Lemma retryOne_run (p : Page.t) (st : State W) :
  retryOne invokeLLM JSON_parse p st
  = (Returned
       (entryOf p (fst (performOCR invokeLLM JSON_parse (Page.imageUrl p) (world st)))),
     mkState
       (dbAfterRetry p
          (fst (performOCR invokeLLM JSON_parse (Page.imageUrl p) (world st)))
          (db st))
       (snd (performOCR invokeLLM JSON_parse (Page.imageUrl p) (world st)))).
Proof.
  unfold retryOne, tryCatch, bind, writeDb, recognize, onWorld, ret. simpl.
  destruct (performOCR invokeLLM JSON_parse (Page.imageUrl p) (world st))
    as [[r|e] w']; reflexivity.
Qed.

Lemma retryEach_run (ps : list Page.t) :
  forall st : State W,
    retryEach invokeLLM JSON_parse ps st
    = (Returned
         (entriesOf ps (fst (recognitions invokeLLM JSON_parse ps (world st)))),
       mkState
         (dbAfterBatch ps
            (fst (recognitions invokeLLM JSON_parse ps (world st))) (db st))
         (snd (recognitions invokeLLM JSON_parse ps (world st)))).
Proof.
  induction ps as [|p ps IH]; intros st.
  - destruct st. reflexivity.
  - simpl. unfold bind at 1. rewrite retryOne_run.
    destruct (performOCR invokeLLM JSON_parse (Page.imageUrl p) (world st))
      as [c w1] eqn:Hocr. simpl.
    unfold bind at 1. rewrite IH. simpl.
    destruct (recognitions invokeLLM JSON_parse ps w1) as [cs w2]. reflexivity.
Qed.

Lemma recognitions_length (ps : list Page.t) :
  forall w : W,
    List.length (fst (recognitions invokeLLM JSON_parse ps w)) = List.length ps.
Proof.
  induction ps as [|p ps IH]; intros w; [reflexivity|]. simpl.
  destruct (performOCR invokeLLM JSON_parse (Page.imageUrl p) w) as [c w1].
  specialize (IH w1).
  destruct (recognitions invokeLLM JSON_parse ps w1) as [cs w2].
  simpl in *. congruence.
Qed.

End BatchFacts.

Lemma entryOf_pageId (p : Page.t) (c : Completion OCRResult) :
  pageId (entryOf p c) = Page.id p.
Proof. destruct c; reflexivity. Qed.

Lemma entryOf_success (p : Page.t) (c : Completion OCRResult) :
  entrySuccess (entryOf p c) = recognized c.
Proof. destruct c; reflexivity. Qed.

Lemma entriesOf_ids (ps : list Page.t) :
  forall cs, List.length cs = List.length ps ->
    List.map pageId (entriesOf ps cs) = List.map Page.id ps.
Proof.
  induction ps as [|p ps IH]; intros [|c cs] H; try discriminate; [reflexivity|].
  unfold entriesOf in *. simpl. rewrite entryOf_pageId. f_equal.
  apply IH. simpl in H. congruence.
Qed.

Lemma entriesOf_successes (ps : list Page.t) :
  forall cs, List.length cs = List.length ps ->
    countSuccesses (entriesOf ps cs)
    = Z.of_nat (List.length (filter recognized cs)).
Proof.
  unfold countSuccesses. intros cs H. f_equal. revert cs H.
  induction ps as [|p ps IH]; intros [|c cs] H; try discriminate; [reflexivity|].
  unfold entriesOf in *. simpl. rewrite entryOf_success.
  injection H as H. destruct (recognized c); simpl; rewrite (IH cs H); reflexivity.
Qed.

Lemma dbAfterRetry_projects (p : Page.t) (c : Completion OCRResult) (d : Db) :
  projects (dbAfterRetry p c d) = projects d.
Proof. reflexivity. Qed.

Lemma dbAfterRetry_journal (p : Page.t) (c : Completion OCRResult) (d : Db) :
  statusJournal (dbAfterRetry p c d) = statusWritesOf p c ++ statusJournal d.
Proof. destruct c; reflexivity. Qed.

Lemma dbAfterBatch_projects (ps : list Page.t) :
  forall cs d, projects (dbAfterBatch ps cs d) = projects d.
Proof.
  induction ps as [|p ps IH]; intros [|c cs] d; try reflexivity.
  simpl. rewrite IH. apply dbAfterRetry_projects.
Qed.

Lemma dbAfterBatch_journal (ps : list Page.t) :
  forall cs d,
    statusJournal (dbAfterBatch ps cs d) = batchJournal ps cs ++ statusJournal d.
Proof.
  unfold batchJournal.
  induction ps as [|p ps IH]; intros [|c cs] d; try reflexivity.
  simpl. rewrite IH, dbAfterRetry_journal, flat_map_app. simpl.
  rewrite <- !app_assoc. reflexivity.
Qed.

Lemma setProcessedPages_same (p : Project.t) :
  setProcessedPages (Project.processedPages p + 0) p = p.
Proof. destruct p. unfold setProcessedPages. simpl. rewrite Z.add_0_r. reflexivity. Qed.

(** The failures of a batch are errors of [performOCR], with its prefix. *)
Lemma recognitions_errors {W : Type}
  (invokeLLM : jsstring -> W -> Completion (option jsstring) * W)
  (JSON_parse : jsstring -> Completion ParsedReply) (ps : list Page.t) :
  forall w e,
    In (Threw e) (fst (recognitions invokeLLM JSON_parse ps w)) ->
    exists cause, e = ErrorObject (js "OCR processing failed: " ++ cause).
Proof.
  induction ps as [|p ps IH]; intros w e; simpl; [contradiction|].
  destruct (performOCR invokeLLM JSON_parse (Page.imageUrl p) w) as [c w1] eqn:E.
  specialize (IH w1 e).
  destruct (recognitions invokeLLM JSON_parse ps w1) as [cs w2].
  simpl. intros [H|H]; [|exact (IH H)].
  subst c. exact (performOCR_throws_Error invokeLLM JSON_parse _ _ _ _ E).
Qed.

(** The entry of a page says how its recognition went, and carries the
    message of the failure. *)
Lemma entriesOf_texts (ps : list Page.t) :
  forall cs,
    List.length cs = List.length ps ->
    (forall e, In (Threw e) cs ->
       exists cause, e = ErrorObject (js "OCR processing failed: " ++ cause)) ->
    Forall2
      (fun (c : Completion OCRResult) entry =>
         match c with
         | Returned _ => entrySuccess entry = true /\ error entry = None
         | Threw e =>
             entrySuccess entry = false
             /\ exists cause,
                  e = ErrorObject (js "OCR processing failed: " ++ cause)
                  /\ error entry = Some (js "OCR processing failed: " ++ cause)
         end)
      cs (entriesOf ps cs).
Proof.
  induction ps as [|p ps IH]; intros [|c cs] Hlen Herr; try discriminate;
    [constructor|].
  unfold entriesOf. simpl. constructor.
  - destruct c as [r|e]; simpl; [auto|]. split; [reflexivity|].
    destruct (Herr e (or_introl eq_refl)) as [cause ->].
    exists cause. split; reflexivity.
  - apply IH.
    + simpl in Hlen. congruence.
    + intros e He. apply Herr. right. exact He.
Qed.

(** C2: the batch retry takes the failed pages of the project one after
    the other, each on the outside world the one before left; whatever the
    failures, it returns normally with one entry per failed page, in order:
    a success entry without error text where recognition returned, a
    failure entry with the message of the failure (an error of [performOCR],
    "OCR processing failed: ...") where it threw; every page had its two
    status writes; the loop leaves the projects alone, and after it the
    counter of the project is written once, with its old value plus the
    number of successes (not at all when there is no success). *)
Theorem retryFailed_report {W : Type}
  (invokeLLM : jsstring -> W -> Completion (option jsstring) * W)
  (JSON_parse : jsstring -> Completion ParsedReply) (user : Z)
  (st : State W) (projectId : Z) (project : Project.t) :
  getProjectById projectId (db st) = Some project ->
  Project.userId project = user ->
  let failedPages := filter isFailed (getPagesByProjectId projectId (db st)) in
  let outcomes := fst (recognitions invokeLLM JSON_parse failedPages (world st)) in
  exists reply st',
    retryFailed invokeLLM JSON_parse user projectId st = (Returned reply, st')
    /\ results reply = entriesOf failedPages outcomes
    /\ List.length (results reply) = List.length failedPages
    /\ List.map pageId (results reply) = List.map Page.id failedPages
    /\ (forall entry, In entry (results reply) ->
        entrySuccess entry = false -> error entry <> None)
    /\ Forall2
         (fun (c : Completion OCRResult) entry =>
            match c with
            | Returned _ => entrySuccess entry = true /\ error entry = None
            | Threw e =>
                entrySuccess entry = false
                /\ exists cause,
                     e = ErrorObject (js "OCR processing failed: " ++ cause)
                     /\ error entry
                        = Some (js "OCR processing failed: " ++ cause)
            end)
         outcomes (results reply)
    /\ countSuccesses (results reply)
       = Z.of_nat (List.length (filter recognized outcomes))
    /\ statusJournal (db st')
       = batchJournal failedPages outcomes ++ statusJournal (db st)
    /\ getProjectById projectId (db st')
       = Some (setProcessedPages
                 (Project.processedPages project + countSuccesses (results reply))
                 project)
    /\ exists st1,
         retryEach invokeLLM JSON_parse failedPages st
         = (Returned (results reply), st1)
         /\ projects (db st1) = projects (db st)
         /\ st' = mkState
                    (if 0 <? countSuccesses (results reply)
                     then updateProject projectId
                            (Project.processedPages project
                             + countSuccesses (results reply))
                            (db st1)
                     else db st1)
                    (world st1).
Proof.
  intros Hq Hu failedPages outcomes.
  pose proof (recognitions_length invokeLLM JSON_parse failedPages (world st))
    as Hlen.
  fold outcomes in Hlen.
  assert (Hentries : forall entry, In entry (entriesOf failedPages outcomes) ->
            entrySuccess entry = false -> error entry <> None).
  { intros entry Hin. unfold entriesOf in Hin. apply in_map_iff in Hin.
    destruct Hin as ([p c] & <- & _). simpl. destruct c; simpl; congruence. }
  assert (Htexts := entriesOf_texts failedPages outcomes Hlen
                      (recognitions_errors invokeLLM JSON_parse failedPages
                         (world st))).
  unfold retryFailed, bind.
  rewrite (loadProject_ok user st projectId project Hq Hu).
  unfold readDb at 1. cbv beta iota.
  fold isFailed. fold failedPages.
  destruct failedPages as [|p0 rest] eqn:Hfp.
  - exists (mkBatchReply true 0 None []), st.
    assert (outcomes = []) by (destruct outcomes; [reflexivity | discriminate]).
    subst outcomes. rewrite H. simpl.
    repeat apply conj; try reflexivity.
    + intros entry [].
    + constructor.
    + rewrite setProcessedPages_same. exact Hq.
    + exists st. destruct st. repeat apply conj; reflexivity.
  - rewrite retryEach_run. fold outcomes.
    set (entries := entriesOf (p0 :: rest) outcomes) in *.
    set (w' := snd (recognitions invokeLLM JSON_parse (p0 :: rest) (world st))).
    set (d' := dbAfterBatch (p0 :: rest) outcomes (db st)).
    assert (Hq' : getProjectById projectId d' = Some project).
    { unfold getProjectById, d'. rewrite dbAfterBatch_projects. exact Hq. }
    assert (Hids : List.map pageId entries = List.map Page.id (p0 :: rest))
      by (apply entriesOf_ids; exact Hlen).
    assert (Hcount : countSuccesses entries
                     = Z.of_nat (List.length (filter recognized outcomes)))
      by (apply entriesOf_successes; exact Hlen).
    assert (Hjournal : statusJournal d'
                       = batchJournal (p0 :: rest) outcomes ++ statusJournal (db st))
      by apply dbAfterBatch_journal.
    assert (Hl : List.length entries = List.length (p0 :: rest))
      by (rewrite <- (length_map pageId), Hids, length_map; reflexivity).
    assert (Hloop : projects d' = projects (db st))
      by apply dbAfterBatch_projects.
    destruct (0 <? countSuccesses entries) eqn:Hpos.
    + eexists. eexists. split.
      * unfold writeDb, ret. reflexivity.
      * cbn [results db world]. repeat apply conj; auto.
        -- rewrite getProjectById_updateProject, Hq'. reflexivity.
        -- eexists. split; [reflexivity|]. cbn [db world]. rewrite Hpos.
           split; [exact Hloop | reflexivity].
    + eexists. eexists. split.
      * unfold ret. reflexivity.
      * cbn [results db world]. repeat apply conj; auto.
        -- assert (H0 : countSuccesses entries = 0).
           { apply Z.ltb_ge in Hpos. unfold countSuccesses in *. lia. }
           rewrite H0, setProcessedPages_same. exact Hq'.
        -- eexists. split; [reflexivity|]. cbn [db world]. rewrite Hpos.
           split; [exact Hloop | reflexivity].
Qed.

Lemma retryFailed_report_witness :
  exists reply st',
    retryFailed echoLLM echoParse 1 7 sampleState = (Returned reply, st')
    /\ results reply
       = [ mkEntry 10 true None;
           mkEntry 11 false
             (Some (js "OCR processing failed: unreadable image"));
           mkEntry 12 true None;
           mkEntry 13 false
             (Some (js "OCR processing failed: unreadable image"));
           mkEntry 14 true None ]
    /\ option_map Project.processedPages (getProjectById 7 (db st')) = Some 4
    /\ List.map
         (fun k =>
            option_map (fun p => (Page.status p, Page.errorMessage p))
              (getPageById k (db st')))
         [10; 11]
       = [ Some (completed, None);
           Some (failed, Some (js "OCR processing failed: unreadable image")) ].
Proof.
  destruct (retryFailed_report echoLLM echoParse 1 sampleState 7
              (Project.mk 7 1 7 1) eq_refl eq_refl)
    as (reply & st' & Hrun & Hres & _ & _ & _ & _ & Hcount & _ & Hproject & _).
  exists reply, st'. split; [exact Hrun|]. split; [|split].
  - rewrite Hres. vm_compute. reflexivity.
  - rewrite Hproject, Hcount. vm_compute. reflexivity.
  - replace st' with (snd (retryFailed echoLLM echoParse 1 7 sampleState))
      by (rewrite Hrun; reflexivity).
    vm_compute. reflexivity.
Defined.

(** ** Sorting *)

Section SortFacts.
Context {A : Type}.
Variable cmp : A -> A -> Z.

Lemma insertSorted_perm (x : A) (l : list A) :
  Permutation (x :: l) (insertSorted cmp x l).
Proof.
  induction l as [|y l IH]; simpl; [apply Permutation_refl|].
  destruct (cmp x y <=? 0); [apply Permutation_refl|].
  eapply Permutation_trans; [apply perm_swap|]. apply perm_skip. exact IH.
Qed.

Lemma sortWith_perm (l : list A) : Permutation l (sortWith cmp l).
Proof.
  induction l as [|x l IH]; simpl; [constructor|].
  eapply Permutation_trans; [apply perm_skip; exact IH|].
  apply insertSorted_perm.
Qed.

(** Sorting commutes with a change of the elements the comparator does not
    see. *)
Lemma sortWith_map (f : A -> A) (l : list A) :
  (forall a b, cmp (f a) (f b) = cmp a b) ->
  sortWith cmp (List.map f l) = List.map f (sortWith cmp l).
Proof.
  intros Hf. induction l as [|x l IH]; [reflexivity|]. simpl. rewrite IH.
  generalize (sortWith cmp l). intros s.
  induction s as [|y s IHs]; [reflexivity|]. simpl. rewrite Hf.
  destruct (cmp x y <=? 0); simpl; [reflexivity|]. f_equal. exact IHs.
Qed.

(** Stability: elements the comparator takes for equal keep their order. *)
Lemma filter_insertSorted (P : A -> bool) (x : A) (l : list A) :
  (forall a b, P a = true -> P b = true -> cmp a b <= 0) ->
  filter P (insertSorted cmp x l) = filter P (x :: l).
Proof.
  intros Heq. induction l as [|y l IH]; [reflexivity|]. simpl.
  destruct (cmp x y <=? 0) eqn:E; [reflexivity|].
  simpl. rewrite IH. simpl.
  destruct (P x) eqn:Px, (P y) eqn:Py; try reflexivity.
  apply Z.leb_gt in E. specialize (Heq x y Px Py). lia.
Qed.

Lemma filter_sortWith (P : A -> bool) (l : list A) :
  (forall a b, P a = true -> P b = true -> cmp a b <= 0) ->
  filter P (sortWith cmp l) = filter P l.
Proof.
  intros Heq. induction l as [|x l IH]; [reflexivity|]. simpl.
  rewrite filter_insertSorted by exact Heq. simpl. rewrite IH. reflexivity.
Qed.

Variable ok : A -> Prop.
Variable le : A -> A -> Prop.
Hypothesis cmp_le : forall a b, ok a -> ok b -> cmp a b <= 0 -> le a b.
Hypothesis cmp_gt : forall a b, ok a -> ok b -> 0 < cmp a b -> le b a.
Hypothesis le_trans : forall a b c, le a b -> le b c -> le a c.

Lemma insertSorted_sorted (x : A) (l : list A) :
  ok x -> Forall ok l -> StronglySorted le l ->
  StronglySorted le (insertSorted cmp x l).
Proof.
  intros Hx Hok Hs. induction l as [|y l IH]; simpl.
  - constructor; constructor.
  - inversion Hok as [|? ? Hy Hl]; subst.
    inversion Hs as [|? ? Hsl Hyl]; subst.
    destruct (cmp x y <=? 0) eqn:E.
    + apply Z.leb_le in E. pose proof (cmp_le x y Hx Hy E) as Hxy.
      constructor; [exact Hs|]. constructor; [exact Hxy|].
      eapply Forall_impl; [|exact Hyl]. intros z Hz. eapply le_trans; eauto.
    + apply Z.leb_gt in E. pose proof (cmp_gt x y Hx Hy E) as Hyx.
      constructor; [apply IH; assumption|].
      eapply Permutation_Forall; [apply insertSorted_perm|].
      constructor; assumption.
Qed.

Lemma sortWith_sorted (l : list A) :
  Forall ok l -> StronglySorted le (sortWith cmp l).
Proof.
  induction l as [|x l IH]; intros Hok; simpl; [constructor|].
  inversion Hok; subst. apply insertSorted_sorted; auto.
  eapply Permutation_Forall; [apply sortWith_perm|]. assumption.
Qed.

End SortFacts.

(** ** Collations *)

Lemma lexCompare_range (a : list Z) :
  forall b, lexCompare a b = -1 \/ lexCompare a b = 0 \/ lexCompare a b = 1.
Proof.
  induction a as [|x a IH]; intros [|y b]; simpl; auto.
  destruct (x <? y); auto. destruct (y <? x); auto.
Qed.

Lemma lexCompare_refl (a : list Z) : lexCompare a a = 0.
Proof.
  induction a as [|x a IH]; simpl; [reflexivity|].
  rewrite Z.ltb_irrefl. exact IH.
Qed.

Lemma lexCompare_eq (a : list Z) :
  forall b, lexCompare a b = 0 -> a = b.
Proof.
  induction a as [|x a IH]; intros [|y b]; simpl; intros H;
    try discriminate; [reflexivity|].
  destruct (Z.ltb_spec x y); [discriminate|].
  destruct (Z.ltb_spec y x); [discriminate|].
  f_equal; [lia | auto].
Qed.

Lemma lexCompare_antisym (a : list Z) :
  forall b, lexCompare b a = - lexCompare a b.
Proof.
  induction a as [|x a IH]; intros [|y b]; simpl; try reflexivity.
  destruct (Z.ltb_spec x y), (Z.ltb_spec y x); try reflexivity; try lia.
  apply IH.
Qed.

Lemma lexCompare_trans_lt (a : list Z) :
  forall b c, lexCompare a b < 0 -> lexCompare b c < 0 -> lexCompare a c < 0.
Proof.
  induction a as [|x a IH]; intros [|y b] [|z c]; simpl; try lia.
  destruct (Z.ltb_spec x y), (Z.ltb_spec y x), (Z.ltb_spec y z),
    (Z.ltb_spec z y), (Z.ltb_spec x z), (Z.ltb_spec z x);
    try lia; intros; eauto.
Qed.

Lemma lexCompare_trans_le (a b c : list Z) :
  lexCompare a b <= 0 -> lexCompare b c <= 0 -> lexCompare a c <= 0.
Proof.
  intros Hab Hbc.
  destruct (Z.eq_dec (lexCompare a b) 0) as [E|E].
  - apply lexCompare_eq in E. subst. exact Hbc.
  - destruct (Z.eq_dec (lexCompare b c) 0) as [E'|E'].
    + apply lexCompare_eq in E'. subst. exact Hab.
    + assert (lexCompare a c < 0); [|lia].
      apply (lexCompare_trans_lt a b c); lia.
Qed.

Section CollateBy.
Variables primary tertiary : N -> Z.

Lemma collateBy_swap (a b : jsstring) :
  collateBy primary tertiary b a = - collateBy primary tertiary a b.
Proof.
  unfold collateBy.
  rewrite (lexCompare_antisym (List.map primary a)).
  rewrite (lexCompare_antisym (List.map tertiary a)).
  destruct (Z.eqb_spec (lexCompare (List.map primary a)
                          (List.map primary b)) 0) as [E|E].
  - rewrite E. reflexivity.
  - destruct (Z.eqb_spec (- lexCompare (List.map primary a)
                              (List.map primary b)) 0); [lia | reflexivity].
Qed.

Lemma collateBy_trans (a b c : jsstring) :
  collateBy primary tertiary a b <= 0 -> collateBy primary tertiary b c <= 0 ->
  collateBy primary tertiary a c <= 0.
Proof.
  unfold collateBy.
  set (pa := List.map primary a). set (pb := List.map primary b).
  set (pc := List.map primary c).
  destruct (Z.eqb_spec (lexCompare pa pb) 0) as [Eab|Eab];
    destruct (Z.eqb_spec (lexCompare pb pc) 0) as [Ebc|Ebc]; intros Hab Hbc.
  - apply lexCompare_eq in Eab. apply lexCompare_eq in Ebc.
    rewrite Eab, Ebc, lexCompare_refl. simpl.
    eapply lexCompare_trans_le; eauto.
  - apply lexCompare_eq in Eab. rewrite Eab.
    destruct (Z.eqb_spec (lexCompare pb pc) 0); [contradiction | exact Hbc].
  - apply lexCompare_eq in Ebc. rewrite <- Ebc.
    destruct (Z.eqb_spec (lexCompare pa pb) 0); [contradiction | exact Hab].
  - assert (H : lexCompare pa pc < 0)
      by (apply (lexCompare_trans_lt pa pb pc); lia).
    destruct (Z.eqb_spec (lexCompare pa pc) 0); lia.
Qed.

Hypothesis digits_low : forall c, isDigit c = true -> primary c < 200000.
Hypothesis letters_high : forall c, isRomanLetter c = true -> 200000 <= primary c.

Lemma collateBy_lawful : Collation (collateBy primary tertiary).
Proof.
  constructor.
  - apply collateBy_swap.
  - apply collateBy_trans.
  - intros c c' r r' Hc Hc'. unfold collateBy. simpl.
    pose proof (digits_low c Hc). pose proof (letters_high c' Hc').
    destruct (Z.ltb_spec (primary c) (primary c')); [reflexivity | lia].
Qed.

End CollateBy.

(** ** Digits and Roman letters *)

Lemma all_ascii (P : N -> bool) :
  forallb P asciiCodes = true -> forall c, (c < 128)%N -> P c = true.
Proof.
  intros H c Hc. rewrite forallb_forall in H. apply H.
  unfold asciiCodes. apply in_map_iff. exists (N.to_nat c). split.
  - apply N2Nat.id.
  - apply in_seq. lia.
Qed.

Lemma isDigit_ascii (c : N) : isDigit c = true -> (c < 128)%N.
Proof.
  unfold isDigit, inRange. intros H. apply andb_true_iff in H.
  destruct H as [_ H]. apply N.leb_le in H. lia.
Qed.

Lemma isRomanLetter_ascii (c : N) : isRomanLetter c = true -> (c < 128)%N.
Proof.
  unfold isRomanLetter, ciEq. intros H.
  repeat (apply orb_true_iff in H; destruct H as [H|H]);
    apply andb_true_iff in H; destruct H as [H _]; apply N.ltb_lt in H; exact H.
Qed.

Lemma digit_facts (c : N) :
  isDigit c = true ->
  isWhiteSpace c = false /\ N.eqb c 45 = false /\ N.eqb c 43 = false
  /\ primaryWeight c < 200000.
Proof.
  intros H.
  pose proof (all_ascii
    (fun c => implb (isDigit c)
                (negb (isWhiteSpace c) && negb (N.eqb c 45) && negb (N.eqb c 43)
                 && (primaryWeight c <? 200000)))
    ltac:(vm_compute; reflexivity) c (isDigit_ascii c H)) as F.
  cbv beta in F. rewrite H in F. simpl in F.
  repeat (apply andb_true_iff in F; destruct F as [F ?]).
  repeat apply conj;
    try (apply negb_true_iff; assumption); apply Z.ltb_lt; assumption.
Qed.

Lemma roman_facts (c : N) :
  isRomanLetter c = true ->
  isWhiteSpace c = false /\ N.eqb c 45 = false /\ N.eqb c 43 = false
  /\ isDigit c = false /\ 200000 <= primaryWeight c.
Proof.
  intros H.
  pose proof (all_ascii
    (fun c => implb (isRomanLetter c)
                (negb (isWhiteSpace c) && negb (N.eqb c 45) && negb (N.eqb c 43)
                 && negb (isDigit c) && (200000 <=? primaryWeight c)))
    ltac:(vm_compute; reflexivity) c (isRomanLetter_ascii c H)) as F.
  cbv beta in F. rewrite H in F. simpl in F.
  repeat (apply andb_true_iff in F; destruct F as [F ?]).
  repeat apply conj;
    try (apply negb_true_iff; assumption); apply Z.leb_le; assumption.
Qed.

Lemma parseInt_digit_head (c : N) (r : jsstring) :
  isDigit c = true -> exists n, parseInt (c :: r) = Some n.
Proof.
  intros H. destruct (digit_facts c H) as (Hw & Hm & Hp & _).
  unfold parseInt. simpl dropWhile. rewrite Hw, Hm, Hp.
  simpl span. rewrite H. destruct (span isDigit r) as [ds rest].
  simpl. eauto.
Qed.

Lemma parseInt_roman_head (c : N) (r : jsstring) :
  isRomanLetter c = true -> parseInt (c :: r) = None.
Proof.
  intros H. destruct (roman_facts c H) as (Hw & Hm & Hp & Hd & _).
  unfold parseInt. simpl dropWhile. rewrite Hw, Hm, Hp.
  simpl span. rewrite Hd. reflexivity.
Qed.

Lemma turkish_facts (c : N) :
  (isDigit c = true -> turkishPrimaryWeight c < 200000)
  /\ (isRomanLetter c = true -> 200000 <= turkishPrimaryWeight c).
Proof.
  split; intros H.
  - pose proof (all_ascii
      (fun c => implb (isDigit c) (turkishPrimaryWeight c <? 200000))
      ltac:(vm_compute; reflexivity) c (isDigit_ascii c H)) as F.
    cbv beta in F. rewrite H in F. apply Z.ltb_lt. exact F.
  - pose proof (all_ascii
      (fun c => implb (isRomanLetter c) (200000 <=? turkishPrimaryWeight c))
      ltac:(vm_compute; reflexivity) c (isRomanLetter_ascii c H)) as F.
    cbv beta in F. rewrite H in F. apply Z.leb_le. exact F.
Qed.

(** The two collations satisfy what the statements ask of
    [localeCompare]. *)
Lemma rootCollation_lawful : Collation rootCollation.
Proof.
  apply collateBy_lawful.
  - intros c H. apply (digit_facts c H).
  - intros c H. apply (roman_facts c H).
Qed.

Lemma turkishCollation_lawful : Collation turkishCollation.
Proof.
  apply collateBy_lawful; intros c H; apply (turkish_facts c); exact H.
Qed.

(** ** Doubles *)

Lemma pow2_53_1024 : 2 ^ 53 < 2 ^ 1024.
Proof. apply Z.pow_lt_mono_r; lia. Qed.

Lemma roundToDouble_exact (m : Z) : m < 2 ^ 53 -> roundToDouble m = Some m.
Proof.
  intros H. unfold roundToDouble.
  destruct (Z.ltb_spec m (2 ^ 53)); [reflexivity | lia].
Qed.

(** From 2^53 on, the rounded value is at least 2^53. *)
Lemma roundToDouble_large (m v : Z) :
  2 ^ 53 <= m -> roundToDouble m = Some v -> 2 ^ 53 <= v < 2 ^ 1024.
Proof.
  intros Hm. unfold roundToDouble.
  destruct (Z.ltb_spec m (2 ^ 53)) as [Hlt|_]; [lia|].
  cbv zeta.
  assert (Hpos : 0 < m) by (pose proof (Z.pow_pos_nonneg 2 53); lia).
  assert (Hlog : 53 <= Z.log2 m).
  { rewrite <- (Z.log2_pow2 53) by lia. apply Z.log2_le_mono. exact Hm. }
  set (e := Z.log2 m - 52).
  assert (He : 1 <= e) by (unfold e; lia).
  assert (H2e : 0 < 2 ^ e) by (apply Z.pow_pos_nonneg; lia).
  assert (Hspec : 2 ^ (e + 52) <= m).
  { unfold e. replace (Z.log2 m - 52 + 52) with (Z.log2 m) by lia.
    apply (Z.log2_spec m Hpos). }
  assert (Hq : 2 ^ 52 <= m / 2 ^ e).
  { apply Z.div_le_lower_bound; [exact H2e|].
    rewrite <- Z.pow_add_r by lia. exact Hspec. }
  set (q := m / 2 ^ e) in *.
  set (q' := if m mod 2 ^ e <? 2 ^ (e - 1) then q
             else if 2 ^ (e - 1) <? m mod 2 ^ e then q + 1
             else if Z.even q then q else q + 1).
  assert (Hq' : q <= q').
  { unfold q'. destruct (m mod 2 ^ e <? 2 ^ (e - 1)); [lia|].
    destruct (2 ^ (e - 1) <? m mod 2 ^ e); [lia|].
    destruct (Z.even q); lia. }
  destruct (Z.ltb_spec (q' * 2 ^ e) (2 ^ 1024)) as [Hv|_]; [|discriminate].
  intros E. injection E as <-. split; [|exact Hv].
  assert (H53 : 2 ^ 53 = 2 ^ 52 * 2 ^ 1) by (rewrite <- Z.pow_add_r; [reflexivity | lia | lia]).
  rewrite H53.
  assert (H1e : 2 ^ 1 <= 2 ^ e) by (apply Z.pow_le_mono_r; lia).
  assert (H52 : 0 < 2 ^ 52) by (apply Z.pow_pos_nonneg; lia).
  apply Z.mul_le_mono_nonneg; lia.
Qed.

(** A double is finite with the sign of the integer, or infinite on the
    side of the integer; never [NaN]. *)
Lemma sgn_mul_abs (z : Z) : Z.sgn z * Z.abs z = z.
Proof.
  destruct (Z.sgn_spec z) as [[Hz Hs]|[[Hz Hs]|[Hz Hs]]]; rewrite Hs; lia.
Qed.

Lemma toNumber_cases (z : Z) :
  (exists v, toNumber z = Finite v
             /\ ((v < 0 /\ z < 0) \/ (v = 0 /\ z = 0) \/ (0 < v /\ 0 < z))
             /\ - 2 ^ 1024 < v < 2 ^ 1024)
  \/ (toNumber z = PlusInfinity /\ 0 < z)
  \/ (toNumber z = MinusInfinity /\ z < 0).
Proof.
  pose proof pow2_53_1024 as Hbig.
  assert (H53 : 0 < 2 ^ 53) by (apply Z.pow_pos_nonneg; lia).
  unfold toNumber.
  destruct (Z.ltb_spec (Z.abs z) (2 ^ 53)) as [Hsmall|Hlarge].
  - rewrite (roundToDouble_exact _ Hsmall). left. exists z.
    rewrite sgn_mul_abs. split; [reflexivity|].
    set (b := 2 ^ 53) in *. set (big := 2 ^ 1024) in *. clearbody b big. lia.
  - destruct (roundToDouble (Z.abs z)) as [v|] eqn:E.
    + pose proof (roundToDouble_large _ v Hlarge E) as Hv.
      left. exists (Z.sgn z * v). split; [reflexivity|].
      set (b := 2 ^ 53) in *. set (big := 2 ^ 1024) in *. clearbody b big.
      destruct (Z.sgn_spec z) as [[Hz Hs]|[[Hz Hs]|[Hz Hs]]]; rewrite Hs; lia.
    + right. set (b := 2 ^ 53) in *. clearbody b.
      destruct (Z.ltb_spec 0 z); [left | right]; split; try reflexivity; lia.
Qed.

Lemma toNumber_not_NaN (z : Z) : isNaN (toNumber z) = false.
Proof.
  destruct (toNumber_cases z) as [(v & -> & _) | [[-> _] | [-> _]]]; reflexivity.
Qed.

Lemma toNumber_opp (z : Z) :
  toNumber (- z)
  = match toNumber z with
    | Finite v => Finite (- v)
    | PlusInfinity => MinusInfinity
    | MinusInfinity => PlusInfinity
    | NaN => NaN
    end.
Proof.
  destruct (Z.eq_dec z 0) as [->|Hz].
  - unfold toNumber. simpl Z.abs. rewrite roundToDouble_exact; [reflexivity|].
    apply Z.pow_pos_nonneg; lia.
  - unfold toNumber. rewrite Z.abs_opp, Z.sgn_opp.
    destruct (roundToDouble (Z.abs z)) as [v|].
    + f_equal. lia.
    + destruct (Z.ltb_spec 0 z), (Z.ltb_spec 0 (- z)); try reflexivity; lia.
Qed.

Lemma numberDiff_swap (x y : Z) : numberDiff y x = - numberDiff x y.
Proof.
  unfold numberDiff.
  destruct (toNumber_cases x) as [(vx & -> & _) | [[-> _] | [-> _]]];
    destruct (toNumber_cases y) as [(vy & -> & _) | [[-> _] | [-> _]]];
    try reflexivity.
  cbn [numberSub]. replace (vy - vx) with (- (vx - vy)) by lia.
  rewrite toNumber_opp. destruct (toNumber (vx - vy)); simpl; lia.
Qed.

(** The sign of the difference of two doubles is the one of their
    comparison. *)
Lemma numberDiff_spec (x y : Z) :
  (numberDiff x y < 0 /\ doubleOf x < doubleOf y)
  \/ (numberDiff x y = 0 /\ doubleOf x = doubleOf y)
  \/ (0 < numberDiff x y /\ doubleOf y < doubleOf x).
Proof.
  unfold numberDiff, doubleOf.
  destruct (toNumber_cases x) as [(vx & -> & _ & Hx) | [[-> _] | [-> _]]];
    destruct (toNumber_cases y) as [(vy & -> & _ & Hy) | [[-> _] | [-> _]]];
    cbn [numberSub sortCompare];
    try (destruct (toNumber_cases (vx - vy))
           as [(v & -> & Hs & _) | [[-> Hp] | [-> Hn]]]; cbn [sortCompare]);
    pose proof (Z.pow_pos_nonneg 2 1024) as Hbig;
    set (big := 2 ^ 1024) in *; clearbody big; lia.
Qed.

Lemma doubleOf_exact (z : Z) : - 2 ^ 53 < z < 2 ^ 53 -> doubleOf z = z.
Proof.
  intros H. unfold doubleOf, toNumber.
  rewrite roundToDouble_exact by lia. apply sgn_mul_abs.
Qed.

(** The range check of [extractPageNumber] gives the same on the double as
    on the integer. *)
Lemma toNumber_in_range (z : Z) :
  match toNumber z with
  | Finite v => ((0 <? v) && (v <? 10000))%bool
  | _ => false
  end = ((0 <? z) && (z <? 10000))%bool.
Proof.
  assert (H53 : 10000 < 2 ^ 53) by (vm_compute; reflexivity).
  unfold toNumber.
  destruct (Z.ltb_spec (Z.abs z) (2 ^ 53)) as [Hsmall|Hlarge].
  - rewrite (roundToDouble_exact _ Hsmall).
    rewrite sgn_mul_abs. reflexivity.
  - destruct (roundToDouble (Z.abs z)) as [v|] eqn:E.
    + pose proof (roundToDouble_large _ v Hlarge E) as [Hv _].
      set (b := 2 ^ 53) in *. clearbody b.
      destruct (Z.sgn_spec z) as [[Hz Hs]|[[Hz Hs]|[Hz Hs]]]; rewrite Hs.
      * replace (1 * v) with v by lia.
        rewrite (proj2 (Z.ltb_ge v 10000)) by lia.
        rewrite (proj2 (Z.ltb_ge z 10000)) by lia.
        rewrite !andb_false_r. reflexivity.
      * exfalso. lia.
      * rewrite (proj2 (Z.ltb_ge 0 z)) by lia.
        match goal with
        | |- context [0 <? ?t] => destruct (Z.ltb_spec 0 t); [lia | reflexivity]
        end.
    + set (b := 2 ^ 53) in *. clearbody b.
      destruct (Z.ltb_spec 0 z); [|reflexivity].
      rewrite (proj2 (Z.ltb_ge z 10000)) by lia. reflexivity.
Qed.

(** ** The comparator of [reorder] *)

Lemma labelOk_shape (p : Page.t) : labelOk p = true -> Shape p.
Proof.
  unfold labelOk. intros H.
  destruct (Page.detectedPageNumber p) as [[|c r]|] eqn:E.
  - apply ShapeUnlabelled. unfold classify. rewrite E. reflexivity.
  - cbn [nonEmpty negb orb forallb] in H.
    apply orb_true_iff in H. destruct H as [H|H];
      apply andb_true_iff in H; destruct H as [Hc _].
    + destruct (parseInt_digit_head c r Hc) as [n Hn].
      apply (ShapeNumbered p n c r); auto.
      * unfold classify. rewrite E. cbn [nonEmpty]. rewrite Hn. reflexivity.
      * unfold labelOf. rewrite E. reflexivity.
    + apply (ShapeRoman p c r); auto.
      * unfold classify, labelOf. rewrite E. cbn [nonEmpty].
        rewrite (parseInt_roman_head c r Hc). reflexivity.
      * unfold labelOf. rewrite E. reflexivity.
  - apply ShapeUnlabelled. unfold classify. rewrite E. reflexivity.
Qed.


Section ComparatorFacts.
Variable localeCompare : jsstring -> jsstring -> Z.

Lemma comparePages_classify (a b : Page.t) :
  comparePages localeCompare a b
  = match classify a, classify b with
    | Unlabelled, Unlabelled => Page.id a - Page.id b
    | Unlabelled, _ => 1
    | _, Unlabelled => -1
    | Numbered x, Numbered y => numberDiff x y
    | _, _ => localeCompare (labelOf a) (labelOf b)
    end.
Proof.
  unfold comparePages, pageComparator, classify, labelOf, truthy,
    parseIntNumber, numberDiff.
  destruct (Page.detectedPageNumber a) as [[|ca la]|];
    destruct (Page.detectedPageNumber b) as [[|cb lb]|];
    cbn [nonEmpty negb andb]; try reflexivity;
    repeat match goal with
           | |- context [parseInt ?l] => destruct (parseInt l)
           end;
    rewrite ?toNumber_not_NaN; cbn [isNaN negb andb sortCompare];
    rewrite ?andb_false_r; reflexivity.
Qed.

Lemma comparePages_repositionFrom (i : Z) (ids : list Z) (a b : Page.t) :
  comparePages localeCompare (repositionFrom i ids a) (repositionFrom i ids b)
  = comparePages localeCompare a b.
Proof. reflexivity. Qed.


(** Pages with the same number keep the order the storage gave them. *)
Lemma sortedPagesOf_stable (k : Z) (ps : list Page.t) :
  filter (hasNumber k) (sortedPagesOf localeCompare ps)
  = filter (hasNumber k) ps.
Proof.
  apply filter_sortWith. intros a b Ha Hb.
  rewrite comparePages_classify. unfold hasNumber in *.
  destruct (classify a) as [x| |]; try discriminate.
  destruct (classify b) as [y| |]; try discriminate.
  apply Z.eqb_eq in Ha. apply Z.eqb_eq in Hb. subst x y.
  destruct (numberDiff_spec k k) as [[_ H]|[[H _]|[_ H]]]; lia.
Qed.

Hypothesis lawful : Collation localeCompare.

Lemma localeCompare_refl (l : jsstring) : localeCompare l l = 0.
Proof. pose proof (collation_swap _ lawful l l). lia. Qed.

Lemma comparePages_flip (a b : Page.t) :
  comparePages localeCompare b a = - comparePages localeCompare a b.
Proof.
  rewrite !comparePages_classify.
  destruct (classify a), (classify b); try lia;
    try apply numberDiff_swap;
    apply (collation_swap _ lawful (labelOf a) (labelOf b)).
Qed.

Lemma comparePages_le (a b : Page.t) :
  labelOk a = true -> labelOk b = true ->
  comparePages localeCompare a b <= 0 -> pageOrder localeCompare a b.
Proof.
  intros Ha Hb. rewrite comparePages_classify. unfold pageOrder.
  destruct (labelOk_shape a Ha) as [x ca ra Ca La Da | ca ra Ca La Ra | Ca];
    destruct (labelOk_shape b Hb) as [y cb rb Cb Lb Db | cb rb Cb Lb Rb | Cb];
    rewrite Ca, Cb; try (intros; exact I); try lia.
  - destruct (numberDiff_spec x y) as [[? ?]|[[? ?]|[? ?]]]; lia.
  - rewrite La, Lb.
    pose proof (collation_digits_first _ lawful cb ca rb ra Db Ra).
    pose proof (collation_swap _ lawful (cb :: rb) (ca :: ra)). lia.
Qed.

Lemma comparePages_gt (a b : Page.t) :
  labelOk a = true -> labelOk b = true ->
  0 < comparePages localeCompare a b -> pageOrder localeCompare b a.
Proof.
  intros Ha Hb. rewrite comparePages_classify. unfold pageOrder.
  destruct (labelOk_shape a Ha) as [x ca ra Ca La Da | ca ra Ca La Ra | Ca];
    destruct (labelOk_shape b Hb) as [y cb rb Cb Lb Db | cb rb Cb Lb Rb | Cb];
    rewrite Ca, Cb; try (intros; exact I); try lia.
  - destruct (numberDiff_spec x y) as [[? ?]|[[? ?]|[? ?]]]; lia.
  - rewrite La, Lb.
    pose proof (collation_digits_first _ lawful ca cb ra rb Da Rb). lia.
  - rewrite (collation_swap _ lawful (labelOf a) (labelOf b)). lia.
Qed.

Lemma pageOrder_trans (a b c : Page.t) :
  pageOrder localeCompare a b -> pageOrder localeCompare b c ->
  pageOrder localeCompare a c.
Proof.
  unfold pageOrder.
  destruct (classify a), (classify b), (classify c);
    try tauto; try lia.
  apply (collation_trans _ lawful).
Qed.

Lemma sortedPagesOf_sorted (ps : list Page.t) :
  forallb labelOk ps = true ->
  StronglySorted (pageOrder localeCompare) (sortedPagesOf localeCompare ps).
Proof.
  intros H. unfold sortedPagesOf.
  apply (sortWith_sorted (comparePages localeCompare)
           (fun p => labelOk p = true) (pageOrder localeCompare)).
  - apply comparePages_le.
  - apply comparePages_gt.
  - apply pageOrder_trans.
  - apply Forall_forall. rewrite forallb_forall in H. exact H.
Qed.

Lemma pageOrder_comparePages (a b : Page.t) :
  labelOk a = true -> labelOk b = true ->
  pageOrder localeCompare a b -> comparePages localeCompare a b <= 0.
Proof.
  intros Ha Hb. rewrite comparePages_classify. unfold pageOrder.
  destruct (labelOk_shape a Ha) as [x ca ra Ca La Da | ca ra Ca La Ra | Ca];
    destruct (labelOk_shape b Hb) as [y cb rb Cb Lb Db | cb rb Cb Lb Rb | Cb];
    rewrite Ca, Cb; try tauto; try lia.
  - destruct (numberDiff_spec x y) as [[? ?]|[[? ?]|[? ?]]]; lia.
  - rewrite La, Lb.
    pose proof (collation_digits_first _ lawful ca cb ra rb Da Rb). lia.
Qed.

(** A list in the order of [reorder] is left as it is by the sort. *)
Lemma sortedPagesOf_fixed (l : list Page.t) :
  forallb labelOk l = true -> StronglySorted (pageOrder localeCompare) l ->
  sortedPagesOf localeCompare l = l.
Proof.
  unfold sortedPagesOf.
  induction l as [|x l IH]; intros Hok Hs; [reflexivity|].
  simpl in Hok. apply andb_true_iff in Hok. destruct Hok as [Hx Hl].
  inversion Hs as [|? ? Hsl Hxl]; subst.
  simpl. rewrite (IH Hl Hsl).
  destruct l as [|y l']; [reflexivity|]. simpl.
  simpl in Hl. apply andb_true_iff in Hl. destruct Hl as [Hy _].
  inversion Hxl as [|? ? Hxy _]; subst.
  pose proof (pageOrder_comparePages x y Hx Hy Hxy) as Hc.
  apply Z.leb_le in Hc. rewrite Hc. reflexivity.
Qed.

Lemma labelOk_sortedPagesOf (ps : list Page.t) :
  forallb labelOk ps = true ->
  forallb labelOk (sortedPagesOf localeCompare ps) = true.
Proof.
  intros H. rewrite forallb_forall in *. intros p Hp. apply H.
  eapply Permutation_in;
    [apply Permutation_sym, (sortWith_perm (comparePages localeCompare))|].
  exact Hp.
Qed.

(** Between numbered pages whose numbers are below 2^53 the order is the
    one of the numbers. *)
Lemma pageOrder_numbers (a b : Page.t) (x y : Z) :
  classify a = Numbered x -> classify b = Numbered y ->
  - 2 ^ 53 < x < 2 ^ 53 -> - 2 ^ 53 < y < 2 ^ 53 ->
  (pageOrder localeCompare a b <-> x <= y).
Proof.
  intros Ca Cb Hx Hy. unfold pageOrder. rewrite Ca, Cb.
  rewrite (doubleOf_exact x Hx), (doubleOf_exact y Hy). reflexivity.
Qed.

End ComparatorFacts.

(** The number of a label that [extractPageNumber] gives is below 10000. *)
Lemma normalized_classify (p : Page.t) (l : jsstring) (k : Z) :
  Page.detectedPageNumber p = Some l -> normalized l k ->
  forallb isDigit l = true ->
  classify p = Numbered k /\ - 2 ^ 53 < k < 2 ^ 53.
Proof.
  intros Hl (Hne & [(_ & Hparse & Hk) | (Hr & _)]) Hd.
  - split.
    + unfold classify. rewrite Hl, Hne, Hparse. reflexivity.
    + assert (10000 < 2 ^ 53) by (vm_compute; reflexivity). lia.
  - exfalso. destruct l as [|c r]; [discriminate|].
    simpl in Hd, Hr. apply andb_true_iff in Hd. apply andb_true_iff in Hr.
    destruct Hd as [Hd _]. destruct Hr as [Hr _].
    destruct (roman_facts c Hr) as (_ & _ & _ & Hnd & _). congruence.
Qed.

(** ** Positions written by [reorder] *)

Lemma withSortOrder_twice (i j : Z) (p : Page.t) :
  withSortOrder i (withSortOrder j p) = withSortOrder i p.
Proof. reflexivity. Qed.

Lemma withSortOrder_same (p : Page.t) : withSortOrder (Page.sortOrder p) p = p.
Proof. destruct p. reflexivity. Qed.

Lemma finalPosition_notin (ids : list Z) :
  forall i k before, ~ In k ids -> finalPosition i ids k before = before.
Proof.
  induction ids as [|q ids IH]; intros i k before H; [reflexivity|]. simpl.
  destruct (Z.eqb_spec k q) as [->|Hne].
  - exfalso. apply H. left. reflexivity.
  - apply IH. intros Hin. apply H. right. exact Hin.
Qed.

(** Either no write reaches the page, or the writes decide its position
    whatever it was. *)
Lemma finalPosition_cases (ids : list Z) :
  forall i k,
    (forall before, finalPosition i ids k before = before)
    \/ (exists z, forall before, finalPosition i ids k before = z).
Proof.
  induction ids as [|q ids IH]; intros i k; [left; reflexivity|]. simpl.
  destruct (IH (i + 1) k) as [Hkeep | [z Hz]].
  - destruct (k =? q).
    + right. exists i. intros before. apply Hkeep.
    + left. intros before. apply Hkeep.
  - right. exists z. intros before. apply Hz.
Qed.

Lemma finalPosition_idempotent (ids : list Z) (i k before : Z) :
  finalPosition i ids k (finalPosition i ids k before)
  = finalPosition i ids k before.
Proof.
  destruct (finalPosition_cases ids i k) as [Hkeep | [z Hz]].
  - rewrite !Hkeep. reflexivity.
  - rewrite !Hz. reflexivity.
Qed.

Lemma repositionFrom_idempotent (i : Z) (ids : list Z) (p : Page.t) :
  repositionFrom i ids (repositionFrom i ids p) = repositionFrom i ids p.
Proof.
  unfold repositionFrom.
  change (Page.id (withSortOrder ?z p)) with (Page.id p).
  change (Page.sortOrder (withSortOrder ?z p)) with z.
  rewrite finalPosition_idempotent. apply withSortOrder_twice.
Qed.

Lemma dbAfterPositions_eq (l : list Page.t) :
  forall i d,
    dbAfterPositions i l d
    = mkDb (List.map (repositionFrom i (List.map Page.id l)) (pages d))
        (projects d) (statusJournal d).
Proof.
  induction l as [|q l IH]; intros i d.
  - simpl. destruct d as [ps pr j]. simpl. f_equal.
    symmetry. erewrite map_ext; [apply map_id|].
    intros p. apply withSortOrder_same.
  - simpl. rewrite IH. unfold updatePage. simpl. f_equal.
    rewrite map_map. apply map_ext. intros p. unfold repositionFrom. simpl.
    destruct (Page.id p =? Page.id q); reflexivity.
Qed.

Lemma setPositions_spec (l : list Page.t) :
  forall i, NoDup (List.map Page.id l) ->
    List.map (repositionFrom i (List.map Page.id l)) l = setPositions i l.
Proof.
  induction l as [|q l IH]; intros i Hnd; [reflexivity|].
  simpl in Hnd. inversion Hnd as [|? ? Hq Hl]; subst.
  simpl. f_equal.
  - unfold repositionFrom. simpl. rewrite Z.eqb_refl.
    rewrite finalPosition_notin by exact Hq. reflexivity.
  - rewrite <- (IH (i + 1) Hl). apply map_ext_in. intros p Hp.
    unfold repositionFrom. simpl.
    destruct (Z.eqb_spec (Page.id p) (Page.id q)) as [E|E]; [|reflexivity].
    exfalso. apply Hq. rewrite <- E. apply in_map. exact Hp.
Qed.

Lemma setPositions_sortOrder (l : list Page.t) :
  forall i,
    List.map Page.sortOrder (setPositions i l)
    = List.map (fun k => i + Z.of_nat k) (seq 0 (List.length l)).
Proof.
  induction l as [|q l IH]; intros i; [reflexivity|]. simpl.
  f_equal; [lia|]. rewrite IH, <- seq_shift, map_map.
  apply map_ext. intros k. lia.
Qed.

Lemma distinct_NoDup (l : list Z) : distinct l = true -> NoDup l.
Proof.
  induction l as [|x l IH]; intros H; [constructor|].
  simpl in H. apply andb_true_iff in H. destruct H as [Hx Hl].
  constructor; [|auto].
  intros Hin. apply negb_true_iff in Hx.
  assert (existsb (Z.eqb x) l = true); [|congruence].
  apply existsb_exists. exists x. split; [exact Hin | apply Z.eqb_refl].
Qed.

Lemma getPagesByProjectId_repositioned (projectId i : Z) (l : list Page.t) (d : Db) :
  getPagesByProjectId projectId (dbAfterPositions i l d)
  = List.map (repositionFrom i (List.map Page.id l))
      (getPagesByProjectId projectId d).
Proof.
  rewrite dbAfterPositions_eq. unfold getPagesByProjectId. simpl.
  induction (pages d) as [|p ps IH]; [reflexivity|]. simpl.
  change (Page.projectId (repositionFrom i (List.map Page.id l) p))
    with (Page.projectId p).
  destruct (Page.projectId p =? projectId); simpl; rewrite IH; reflexivity.
Qed.

Section ReorderFacts.
Context {W : Type}.
Variable localeCompare : jsstring -> jsstring -> Z.
Variable user : Z.

Lemma writePositions_run (l : list Page.t) :
  forall i (st : State W),
    writePositions i l st
    = (Returned tt, mkState (dbAfterPositions i l (db st)) (world st)).
Proof.
  induction l as [|q l IH]; intros i st.
  - destruct st. reflexivity.
  - simpl. unfold bind, writeDb. rewrite IH. reflexivity.
Qed.

Lemma reorder_run (projectId : Z) (st : State W) :
  reorder localeCompare user projectId st
  = match getProjectById projectId (db st) with
    | None => (Threw (ErrorObject (js "Project not found")), st)
    | Some project =>
        if Project.userId project =? user
        then (Returned true,
              mkState
                (dbAfterPositions 0
                   (sortedPagesOf localeCompare
                      (getPagesByProjectId projectId (db st)))
                   (db st))
                (world st))
        else (Threw (ErrorObject (js "Unauthorized")), st)
    end.
Proof.
  unfold reorder, loadProject, bind, readDb.
  destruct (getProjectById projectId (db st)) as [project|]; [|reflexivity].
  destruct (Project.userId project =? user); [|reflexivity].
  unfold ret at 1. cbv beta iota. rewrite writePositions_run. reflexivity.
Qed.

End ReorderFacts.

Lemma same_id_same_page (l : list Page.t) (p q : Page.t) :
  NoDup (List.map Page.id l) -> In p l -> In q l -> Page.id p = Page.id q ->
  p = q.
Proof.
  induction l as [|x l IH]; intros Hnd Hp Hq Hid; [contradiction|].
  simpl in Hnd. inversion Hnd as [|x0 l0 Hx Hl]; subst x0 l0.
  destruct Hp as [->|Hp], Hq as [->|Hq]; auto.
  - exfalso. apply Hx. rewrite Hid. apply in_map. exact Hq.
  - exfalso. apply Hx. rewrite <- Hid. apply in_map. exact Hp.
Qed.

Lemma getPageById_distinct (d : Db) (p : Page.t) :
  NoDup (List.map Page.id (pages d)) -> In p (pages d) ->
  getPageById (Page.id p) d = Some p.
Proof.
  intros Hnd Hin. unfold getPageById.
  destruct (find (fun q => Page.id q =? Page.id p) (pages d)) as [q|] eqn:E.
  - apply find_some in E. destruct E as [Hq E]. apply Z.eqb_eq in E.
    f_equal. apply (same_id_same_page (pages d)); assumption.
  - exfalso. apply (find_none _ _ E p) in Hin. rewrite Z.eqb_refl in Hin.
    discriminate.
Qed.

Lemma find_map_key {A} (key : A -> Z) (f : A -> A) (k : Z) (l : list A) :
  (forall a, key (f a) = key a) ->
  find (fun a => key a =? k) (List.map f l)
  = option_map f (find (fun a => key a =? k) l).
Proof.
  intros Hkey. induction l as [|a l IH]; [reflexivity|]. simpl.
  rewrite Hkey. destruct (key a =? k); [reflexivity | exact IH].
Qed.

(** ** Full reorder *)

(** C1, as the code has it, whatever the locale of the server process
    (any [localeCompare] that is a consistent comparison and puts digits
    before letters): on pages whose labels are such as the label extractor
    gives (digits only, Roman letters only, or none) and whose ids are
    distinct, [reorder] sorts the pages of the project into the order
    [pageOrder]: the pages with a decimal label first, by number ascending
    (the numbers compared as doubles, which below 2^53 is the order of the
    integers), pages with the same number in the order the storage
    returned them; then the pages with a Roman label, by [localeCompare] of
    the labels in the locale of the process, not by value; then the pages
    without label, by id; and it writes the positions 0, 1, ..., n-1 in
    that order on these pages. *)
Theorem reorder_total_order {W : Type}
  (localeCompare : jsstring -> jsstring -> Z) (user : Z) (st : State W)
  (projectId : Z) (project : Project.t) :
  Collation localeCompare ->
  getProjectById projectId (db st) = Some project ->
  Project.userId project = user ->
  let ps := getPagesByProjectId projectId (db st) in
  forallb labelOk ps = true ->
  distinct (List.map Page.id ps) = true ->
  let sorted := sortedPagesOf localeCompare ps in
  exists st',
    reorder localeCompare user projectId st = (Returned true, st')
    /\ Permutation ps sorted
    /\ StronglySorted (pageOrder localeCompare) sorted
    /\ (forall a b x y,
          classify a = Numbered x -> classify b = Numbered y ->
          - 2 ^ 53 < x < 2 ^ 53 -> - 2 ^ 53 < y < 2 ^ 53 ->
          (pageOrder localeCompare a b <-> x <= y))
    /\ (forall k, filter (hasNumber k) sorted = filter (hasNumber k) ps)
    /\ sortedPagesOf localeCompare (getPagesByProjectId projectId (db st'))
       = setPositions 0 sorted
    /\ List.map Page.sortOrder (setPositions 0 sorted)
       = List.map Z.of_nat (seq 0 (List.length ps))
    /\ (NoDup (List.map Page.id (pages (db st))) ->
        List.map (fun p => getPageById (Page.id p) (db st')) sorted
        = List.map Some (setPositions 0 sorted)).
Proof.
  intros Hlaw Hq Hu ps Hok Hdistinct sorted.
  eexists. split.
  { rewrite reorder_run, Hq, Hu, Z.eqb_refl. reflexivity. }
  cbn [db].
  assert (Hperm : Permutation ps sorted) by apply sortWith_perm.
  assert (Hnds : NoDup (List.map Page.id sorted)).
  { eapply Permutation_NoDup.
    - apply Permutation_map. exact Hperm.
    - apply distinct_NoDup. exact Hdistinct. }
  repeat apply conj.
  - exact Hperm.
  - apply sortedPagesOf_sorted; assumption.
  - intros a b x y. apply pageOrder_numbers.
  - intros k. apply sortedPagesOf_stable.
  - rewrite getPagesByProjectId_repositioned. fold ps. fold sorted.
    unfold sortedPagesOf at 1. rewrite sortWith_map.
    + fold (sortedPagesOf localeCompare ps). fold sorted.
      apply setPositions_spec. exact Hnds.
    + intros a b. apply comparePages_repositionFrom.
  - rewrite setPositions_sortOrder.
    rewrite <- (Permutation_length Hperm).
    apply map_ext. intros k. lia.
  - intros Hnd. rewrite dbAfterPositions_eq.
    rewrite <- (setPositions_spec sorted 0 Hnds), map_map.
    apply map_ext_in. intros p Hp.
    unfold getPageById. cbn [pages].
    rewrite (find_map_key Page.id (repositionFrom 0 (List.map Page.id sorted)))
      by reflexivity.
    fold (getPageById (Page.id p) (db st)).
    rewrite (getPageById_distinct (db st) p Hnd); [reflexivity|].
    apply (Permutation_in p (Permutation_sym Hperm)) in Hp.
    unfold ps, getPagesByProjectId in Hp. apply filter_In in Hp. apply Hp.
Qed.

Lemma reorder_total_order_witness :
  exists st',
    reorder rootCollation 1 8 orderingState = (Returned true, st')
    /\ List.map (fun p => (Page.id p, Page.sortOrder p))
         (sortedPagesOf rootCollation (getPagesByProjectId 8 (db st')))
       = [(23, 0); (25, 1); (20, 2); (22, 3); (24, 4); (21, 5); (26, 6)]
    /\ List.map
         (fun p =>
            option_map (fun q => (Page.id q, Page.sortOrder q))
              (getPageById (Page.id p) (db st')))
         (sortedPagesOf rootCollation (getPagesByProjectId 8 orderingDb))
       = [Some (23, 0); Some (25, 1); Some (20, 2); Some (22, 3);
          Some (24, 4); Some (21, 5); Some (26, 6)].
Proof.
  destruct (reorder_total_order rootCollation 1 orderingState 8
              (Project.mk 8 1 7 7) rootCollation_lawful
              eq_refl eq_refl eq_refl eq_refl)
    as (st' & Hrun & _ & _ & _ & _ & Hpos & _ & Hwritten).
  exists st'. split; [exact Hrun|]. split.
  - rewrite Hpos. vm_compute. reflexivity.
  - specialize (Hwritten
      (distinct_NoDup (List.map Page.id (pages orderingDb)) eq_refl)).
    cbn [db orderingState] in Hwritten.
    rewrite <- (map_map (fun p => getPageById (Page.id p) (db st'))
                  (option_map (fun q => (Page.id q, Page.sortOrder q)))).
    rewrite Hwritten. vm_compute. reflexivity.
Defined.

(** C1, as stated, fails: the pages labelled ix and v, whose sort keys are
    9 and 5, get the positions 0 and 1: Roman labels are compared as
    strings, in the root collation as in the Turkish one. *)
Lemma reorder_roman_labels_not_by_value :
  let after :=
    getPagesByProjectId 9
      (db (snd (reorder (W:=nat) rootCollation 1 9 orderingState))) in
  List.map (fun p => (Page.detectedPageNumber p, sortKeyOf p, Page.sortOrder p))
    after
  = [(Some (js "ix"), Some 9, 0); (Some (js "v"), Some 5, 1)]
  /\ ~ keysAscend after
  /\ getPagesByProjectId 9
       (db (snd (reorder (W:=nat) turkishCollation 1 9 orderingState)))
     = after.
Proof.
  intros after.
  assert (E : after = [ labelledPage 30 9 (Some (js "ix")) 0;
                        labelledPage 31 9 (Some (js "v")) 1 ])
    by (vm_compute; reflexivity).
  split; [rewrite E; vm_compute; reflexivity|]. split.
  - intros H.
    specialize (H (labelledPage 31 9 (Some (js "v")) 1)
                  (labelledPage 30 9 (Some (js "ix")) 0) 5 9).
    rewrite E in H.
    assert (Hlt : Page.sortOrder (labelledPage 31 9 (Some (js "v")) 1)
                  < Page.sortOrder (labelledPage 30 9 (Some (js "ix")) 0)).
    { apply H.
      - right. left. reflexivity.
      - left. reflexivity.
      - vm_compute. reflexivity.
      - vm_compute. reflexivity.
      - lia. }
    simpl in Hlt. lia.
  - rewrite E. vm_compute. reflexivity.
Qed.

(** The order of the Roman labels follows the locale: the pages labelled
    iv and Ix come in this order in the root collation and in the other
    order in the Turkish one. *)
Lemma roman_order_follows_locale :
  let iv := labelledPage 40 8 (Some (js "iv")) 0 in
  let Ix := labelledPage 41 8 (Some (js "Ix")) 0 in
  sortedPagesOf rootCollation [iv; Ix] = [iv; Ix]
  /\ sortedPagesOf rootCollation [Ix; iv] = [iv; Ix]
  /\ sortedPagesOf turkishCollation [iv; Ix] = [Ix; iv]
  /\ sortedPagesOf turkishCollation [Ix; iv] = [Ix; iv].
Proof. repeat apply conj; vm_compute; reflexivity. Qed.

(** Decimal labels are compared as doubles: beyond 2^53 two different
    numbers can compare equal, and the pages then stay in the order in
    which they were read. *)
Lemma numbers_compared_as_doubles :
  let a := labelledPage 42 8 (Some (js "9007199254740993")) 0 in
  let b := labelledPage 43 8 (Some (js "9007199254740992")) 0 in
  classify a = Numbered 9007199254740993
  /\ classify b = Numbered 9007199254740992
  /\ comparePages rootCollation a b = 0
  /\ sortedPagesOf rootCollation [a; b] = [a; b]
  /\ sortedPagesOf rootCollation [b; a] = [b; a].
Proof. repeat apply conj; vm_compute; reflexivity. Qed.

(** C9: a second [reorder] completes as the first did and leaves the
    storage as the first left it; and the pages, taken in the order of the
    positions written, are left in that order by the sort. *)
Theorem reorder_idempotent {W : Type}
  (localeCompare : jsstring -> jsstring -> Z) (user : Z) (projectId : Z)
  (st : State W) :
  reorder localeCompare user projectId
    (snd (reorder localeCompare user projectId st))
  = reorder localeCompare user projectId st
  /\ (Collation localeCompare ->
      forall ps, forallb labelOk ps = true ->
        sortedPagesOf localeCompare (sortedPagesOf localeCompare ps)
        = sortedPagesOf localeCompare ps).
Proof.
  split.
  - rewrite (reorder_run localeCompare user projectId st).
    destruct (getProjectById projectId (db st)) as [project|] eqn:Hq.
    + destruct (Project.userId project =? user) eqn:Hu.
      * cbn [snd]. rewrite reorder_run. cbn [db world].
        rewrite dbAfterPositions_eq at 1. unfold getProjectById at 1.
        cbn [projects]. fold (getProjectById projectId (db st)).
        rewrite Hq, Hu. f_equal. f_equal.
        rewrite getPagesByProjectId_repositioned.
        set (ps := getPagesByProjectId projectId (db st)).
        set (ids := List.map Page.id (sortedPagesOf localeCompare ps)).
        unfold sortedPagesOf at 1.
        rewrite sortWith_map by (intros a b; apply comparePages_repositionFrom).
        fold (sortedPagesOf localeCompare ps).
        rewrite (dbAfterPositions_eq (List.map _ _)).
        rewrite map_map.
        change (List.map (fun x => Page.id (repositionFrom 0 ids x))
                  (sortedPagesOf localeCompare ps)) with ids.
        rewrite (dbAfterPositions_eq (sortedPagesOf localeCompare ps)). fold ids.
        cbn [pages projects statusJournal]. f_equal.
        rewrite map_map. apply map_ext. intros p.
        apply repositionFrom_idempotent.
      * cbn [snd]. rewrite reorder_run, Hq, Hu. reflexivity.
    + cbn [snd]. rewrite reorder_run, Hq. reflexivity.
  - intros Hlaw ps Hok. apply sortedPagesOf_fixed.
    + exact Hlaw.
    + apply labelOk_sortedPagesOf. exact Hok.
    + apply sortedPagesOf_sorted; assumption.
Qed.

Lemma reorder_idempotent_witness :
  sortedPagesOf rootCollation (sortedPagesOf rootCollation mixedPages)
  = sortedPagesOf rootCollation mixedPages.
Proof.
  apply (proj2 (reorder_idempotent (W:=nat) rootCollation 1 8 orderingState)
           rootCollation_lawful mixedPages).
  vm_compute. reflexivity.
Defined.

(** ** The labels recognition stores

    Every label [extractPageNumber] gives, hence every label [performOCR]
    returns and the router stores, is made of digits only or of Roman
    letters only: the pages of the storage satisfy [labelOk]. *)

Lemma span_forallb (p : N -> bool) (s : jsstring) :
  forallb p (fst (span p s)) = true.
Proof.
  induction s as [|c s IH]; [reflexivity|]. simpl.
  destruct (p c) eqn:E; [|reflexivity].
  destruct (span p s) as [a b]. simpl in *. rewrite E. exact IH.
Qed.

Lemma digitsThen_capOk (k : jsstring -> bool) (s cap : jsstring) :
  digitsThen k s = Some cap -> capOk cap.
Proof.
  unfold digitsThen. pose proof (span_forallb isDigit s) as H.
  destruct (span isDigit s) as [ds r]. simpl in H.
  destruct (nonEmpty ds) eqn:E; simpl; [|discriminate].
  destruct (k r); [|discriminate].
  intros Hc. injection Hc as <-. split; auto.
Qed.

Lemma orElse_Some {A} (a b : option A) (x : A) :
  orElse a b = Some x -> a = Some x \/ b = Some x.
Proof. destruct a; simpl; auto. Qed.

Lemma prefixOptDot_capOk (lit s cap : jsstring) :
  prefixOptDot lit s = Some cap -> capOk cap.
Proof.
  unfold prefixOptDot, spacedDigits.
  destruct (stripPrefixCI lit s) as [r|]; [|discriminate].
  destruct r as [|c r'].
  - apply digitsThen_capOk.
  - destruct (N.eq_dec c 46) as [->|Hne].
    + intros H. apply orElse_Some in H.
      destruct H as [H|H]; exact (digitsThen_capOk _ _ _ H).
    + assert (E : match c with
                  | 46%N =>
                      orElse (digitsThen (fun _ => true) (dropWhile isWhiteSpace r'))
                        (digitsThen (fun _ => true) (dropWhile isWhiteSpace (c :: r')))
                  | _ => digitsThen (fun _ => true) (dropWhile isWhiteSpace (c :: r'))
                  end = digitsThen (fun _ => true) (dropWhile isWhiteSpace (c :: r'))).
      { destruct c as [|q]; [reflexivity|].
        do 6 (destruct q as [q|q|]; try reflexivity).
        exfalso. apply Hne. reflexivity. }
      rewrite E. apply digitsThen_capOk.
Qed.

Lemma matchers_capOk (s cap : jsstring) :
  standaloneNumber s = Some cap \/ dashedNumber s = Some cap
  \/ pagePrefixed s = Some cap \/ romanLine s = Some cap
  \/ bracketedNumber s = Some cap ->
  capOk cap.
Proof.
  intros [H|[H|[H|[H|H]]]].
  - exact (digitsThen_capOk _ _ _ H).
  - unfold dashedNumber in H. destruct s as [|c r]; [discriminate|].
    destruct (isDash c); [|discriminate]. exact (digitsThen_capOk _ _ _ H).
  - unfold pagePrefixed in H. apply orElse_Some in H. destruct H as [H|H].
    + destruct (stripPrefixCI (js "page") s) as [r|]; [|discriminate].
      exact (digitsThen_capOk _ _ _ H).
    + apply orElse_Some in H.
      destruct H as [H|H]; exact (prefixOptDot_capOk _ _ _ H).
  - unfold romanLine in H. pose proof (span_forallb isRomanLetter s) as F.
    destruct (span isRomanLetter s) as [rs r]. simpl in F.
    destruct (nonEmpty rs) eqn:E; simpl in H; [|discriminate].
    destruct (atLineEnd r); [|discriminate].
    injection H as <-. split; auto.
  - unfold bracketedNumber in H. destruct s as [|c r]; [discriminate|].
    destruct (N.eqb c 91 || N.eqb c 40)%bool; [|discriminate].
    exact (digitsThen_capOk _ _ _ H).
Qed.

Lemma searchLines_found (m : matcher) (s : jsstring) :
  forall atStart cap,
    searchLines m atStart s = Some cap -> exists s', m s' = Some cap.
Proof.
  induction s as [|c s IH]; intros atStart cap; simpl.
  - destruct atStart; [|discriminate].
    destruct (m []) eqn:E; [|discriminate]. intros H. injection H as <-. eauto.
  - destruct atStart.
    + destruct (m (c :: s)) eqn:E.
      * intros H. injection H as <-. eauto.
      * apply IH.
    + apply IH.
Qed.

Lemma searchAll_found (m : matcher) (s : jsstring) :
  forall cap, searchAll m s = Some cap -> exists s', m s' = Some cap.
Proof.
  induction s as [|c s IH]; intros cap; simpl.
  - destruct (m []) eqn:E; [|discriminate]. intros H. injection H as <-. eauto.
  - destruct (m (c :: s)) eqn:E.
    + intros H. injection H as <-. eauto.
    + apply IH.
Qed.

Lemma patterns_capOk :
  Forall (fun p => forall text cap, p text = Some cap -> capOk cap) patterns.
Proof.
  unfold patterns.
  repeat apply Forall_cons; try apply Forall_nil; intros text cap H;
    (apply searchLines_found in H || apply searchAll_found in H);
    destruct H as [s' H]; apply (matchers_capOk s' cap); tauto.
Qed.

Lemma dropWhile_none (p : N -> bool) (s : jsstring) :
  forallb (fun c => negb (p c)) s = true -> dropWhile p s = s.
Proof.
  destruct s as [|c s]; [reflexivity|]. simpl. intros H.
  apply andb_true_iff in H. destruct H as [H _].
  apply negb_true_iff in H. rewrite H. reflexivity.
Qed.

Lemma capOk_no_space (cap : jsstring) :
  capOk cap -> forallb (fun c => negb (isWhiteSpace c)) cap = true.
Proof.
  intros [_ [H|H]]; rewrite forallb_forall in *; intros c Hc;
    apply negb_true_iff.
  - apply (digit_facts c (H c Hc)).
  - apply (roman_facts c (H c Hc)).
Qed.

Lemma trim_capOk (cap : jsstring) : capOk cap -> trim cap = cap.
Proof.
  intros H. apply capOk_no_space in H. unfold trim.
  rewrite (dropWhile_none _ cap H).
  rewrite dropWhile_none; [apply rev_involutive|].
  rewrite forallb_forall in *. intros c Hc. apply H. apply in_rev. exact Hc.
Qed.

Lemma interpretCapture_label (cap : jsstring) (r : Extracted) :
  capOk cap -> interpretCapture cap = Some r -> pageNumber r = Some cap.
Proof.
  intros Hok. unfold interpretCapture. rewrite (trim_capOk cap Hok).
  assert (Harabic :
    match parseInt cap with
    | Some num =>
        if ((0 <? num) && (num <? 10000))%bool
        then Some (mkExtracted (Some cap) (Some num))
        else None
    | None => None
    end = Some r -> pageNumber r = Some cap).
  { destruct (parseInt cap) as [num|]; [|discriminate].
    destruct ((0 <? num) && (num <? 10000))%bool; [|discriminate].
    intros H. injection H as <-. reflexivity. }
  destruct (romanTest cap); [|exact Harabic].
  destruct (romanToArabic (toUpperCase cap)); [|exact Harabic].
  intros H. injection H as <-. reflexivity.
Qed.

Lemma extractLoop_label (ps : list (jsstring -> option jsstring)) (text l : jsstring) :
  Forall (fun p => forall text cap, p text = Some cap -> capOk cap) ps ->
  pageNumber (extractLoop ps text) = Some l -> capOk l.
Proof.
  induction ps as [|p ps IH]; intros Hps; simpl; [discriminate|].
  inversion Hps as [|? ? Hp Hrest]; subst.
  destruct (p text) as [cap|] eqn:E; [|apply IH; exact Hrest].
  destruct (nonEmpty cap); [|apply IH; exact Hrest].
  destruct (interpretCapture cap) as [r|] eqn:Er; [|apply IH; exact Hrest].
  intros H. rewrite (interpretCapture_label cap r (Hp text cap E) Er) in H.
  injection H as <-. exact (Hp text cap E).
Qed.

Lemma extractPageNumber_label (text l : jsstring) :
  pageNumber (extractPageNumber text) = Some l -> capOk l.
Proof. apply extractLoop_label, patterns_capOk. Qed.

Lemma performOCR_label {W : Type}
  (invokeLLM : jsstring -> W -> Completion (option jsstring) * W)
  (JSON_parse : jsstring -> Completion ParsedReply)
  (imageUrl : jsstring) (w w' : W) (r : OCRResult) (l : jsstring) :
  performOCR invokeLLM JSON_parse imageUrl w = (Returned r, w') ->
  ocrDetectedPageNumber r = Some l -> capOk l.
Proof.
  unfold performOCR.
  destruct (performOCR_try invokeLLM JSON_parse imageUrl w) as [[r0|e] w0] eqn:E;
    [|discriminate].
  intros H. injection H as <- _. revert E. unfold performOCR_try.
  destruct (outcome _) as [reply|e]; [|discriminate].
  destruct (truthy reply); [|discriminate].
  destruct reply as [contentStr|]; [|discriminate].
  destruct (JSON_parse contentStr) as [parsed|e]; [|discriminate].
  intros E. injection E as <- _. simpl.
  destruct (truthy (parsedPageNumber parsed)).
  - destruct (parsedPageNumber parsed) as [raw|]; [|discriminate].
    apply extractPageNumber_label.
  - apply extractPageNumber_label.
Qed.

(** A page completed by any of the procedures has a label [reorder] is
    specified on. *)
Lemma completed_page_labelOk {W : Type}
  (invokeLLM : jsstring -> W -> Completion (option jsstring) * W)
  (JSON_parse : jsstring -> Completion ParsedReply)
  (imageUrl : jsstring) (w w' : W) (r : OCRResult) (clearError : bool)
  (p : Page.t) :
  performOCR invokeLLM JSON_parse imageUrl w = (Returned r, w') ->
  labelOk (applyPatch (completedPatch r clearError) p) = true.
Proof.
  intros H. unfold labelOk. simpl.
  destruct (ocrDetectedPageNumber r) as [l|] eqn:E; [|reflexivity].
  destruct (performOCR_label invokeLLM JSON_parse imageUrl w w' r l H E)
    as [_ [Hd|Hr]].
  - rewrite Hd. apply orb_true_iff. left. apply orb_true_r.
  - rewrite Hr. apply orb_true_r.
Qed.

(** * Further properties *)

(** ** [romanToArabic] *)

Lemma romanMap_values (c : N) (v : Z) :
  romanMap c = Some v -> In v romanValues.
Proof.
  unfold romanMap, romanValues.
  destruct c as [|q]; [discriminate|].
  do 7 (destruct q as [q|q|]; try discriminate);
    intros H; injection H as <-; simpl; tauto.
Qed.

Lemma romanLoop_None (cs : jsstring) :
  forall result prevValue,
    romanLoop cs result prevValue = None
    <-> exists c, In c cs /\ romanMap c = None.
Proof.
  induction cs as [|c cs IH]; intros result prevValue; simpl.
  - split; [discriminate | intros [c [[] _]]].
  - destruct (romanMap c) as [v|] eqn:E.
    + destruct (v <? prevValue); rewrite IH; split.
      * intros [x [Hx Hn]]. exists x. auto.
      * intros [x [[->|Hx] Hn]]; [congruence | exists x; auto].
      * intros [x [Hx Hn]]. exists x. auto.
      * intros [x [[->|Hx] Hn]]; [congruence | exists x; auto].
    + split; [|reflexivity]. intros _. exists c. auto.
Qed.

Lemma sumBelow_step (v p : Z) :
  In v romanValues -> In p romanValues -> v < p ->
  v + sumBelow v <= sumBelow p.
Proof.
  unfold romanValues. simpl.
  intros Hv Hp Hlt.
  repeat (destruct Hv as [<-|Hv]; [|]); try contradiction;
    repeat (destruct Hp as [<-|Hp]; [|]); try contradiction;
    try lia; vm_compute; discriminate.
Qed.

Lemma sumBelow_bounds (v : Z) :
  In v romanValues -> 0 <= sumBelow v < v.
Proof.
  unfold romanValues. simpl. intros Hv.
  repeat (destruct Hv as [<-|Hv]; [|]); try contradiction;
    vm_compute; split; congruence.
Qed.

(** The invariant of the loop: the running result stays above the sum of
    the values below the value read last. *)
Lemma romanLoop_positive (cs : jsstring) :
  forall result prevValue k,
    In prevValue romanValues -> sumBelow prevValue < result ->
    romanLoop cs result prevValue = Some k -> 0 < k.
Proof.
  induction cs as [|c cs IH]; intros result prevValue k Hp Hr; simpl.
  - intros H. injection H as <-. pose proof (sumBelow_bounds prevValue Hp). lia.
  - destruct (romanMap c) as [v|] eqn:E; [|discriminate].
    pose proof (romanMap_values c v E) as Hv.
    pose proof (sumBelow_bounds v Hv) as Bv.
    pose proof (sumBelow_bounds prevValue Hp) as Bp.
    destruct (Z.ltb_spec v prevValue) as [Hlt|Hge].
    + apply IH; [exact Hv|].
      pose proof (sumBelow_step v prevValue Hv Hp Hlt). lia.
    + apply IH; [exact Hv|]. lia.
Qed.

(** X1: [romanToArabic] returns null exactly when some character of its
    argument is not one of the seven capitals of [romanMap] (so on any
    lower-case letter); otherwise it returns a number, which is 0 for the
    empty string and at least 1 for any other string, whatever the order
    of the letters. *)
Theorem romanToArabic_null_or_positive (roman : jsstring) :
  (romanToArabic roman = None
   <-> exists c, In c roman /\ romanMap c = None)
  /\ (forall k, romanToArabic roman = Some k -> roman <> [] -> 0 < k)
  /\ (roman = [] -> romanToArabic roman = Some 0).
Proof.
  unfold romanToArabic. split; [|split].
  - rewrite romanLoop_None. split; intros [c [Hc Hn]]; exists c;
      (split; [|exact Hn]).
    + rewrite <- in_rev in Hc. exact Hc.
    + rewrite <- in_rev. exact Hc.
  - intros k Hk Hne.
    destruct (rev roman) as [|c cs] eqn:E.
    + exfalso. apply Hne. apply (f_equal (@rev N)) in E.
      rewrite rev_involutive in E. exact E.
    + simpl in Hk. destruct (romanMap c) as [v|] eqn:Ev; [|discriminate].
      pose proof (romanMap_values c v Ev) as Hv.
      pose proof (sumBelow_bounds v Hv) as Bv.
      destruct (Z.ltb_spec v 0) as [Hneg|_]; [lia|].
      apply (romanLoop_positive cs (0 + v) v k Hv); [lia | exact Hk].
  - intros ->. reflexivity.
Qed.

Lemma romanToArabic_null_or_positive_witness :
  romanToArabic (js "iv") = None /\ 0 < 4.
Proof.
  split.
  - apply (proj1 (romanToArabic_null_or_positive (js "iv"))).
    exists 105%N. split; [left; reflexivity | reflexivity].
  - apply (proj1 (proj2 (romanToArabic_null_or_positive (js "IV"))) 4);
      [reflexivity | discriminate].
Defined.

Lemma romanToArabic_pos (roman : jsstring) (k : Z) :
  romanToArabic roman = Some k -> roman <> [] -> 0 < k.
Proof.
  unfold romanToArabic. intros Hk Hne.
  destruct (rev roman) as [|c cs] eqn:E.
  - exfalso. apply Hne. apply (f_equal (@rev N)) in E.
    rewrite rev_involutive in E. exact E.
  - simpl in Hk. destruct (romanMap c) as [v|] eqn:Ev; [|discriminate].
    pose proof (romanMap_values c v Ev) as Hv.
    pose proof (sumBelow_bounds v Hv) as Bv.
    destruct (Z.ltb_spec v 0) as [Hneg|_]; [lia|].
    apply (romanLoop_positive cs (0 + v) v k Hv); [lia | exact Hk].
Qed.

(** ** [extractPageNumber] on any text *)

Lemma digit_facts_more (c : N) :
  isDigit c = true ->
  isDash c = false /\ ciEq 112 c = false /\ isRomanLetter c = false
  /\ (N.eqb c 91 || N.eqb c 40)%bool = false /\ isLineTerminator c = false.
Proof.
  intros H.
  pose proof (all_ascii
    (fun c => implb (isDigit c)
                (negb (isDash c) && negb (ciEq 112 c) && negb (isRomanLetter c)
                 && negb (N.eqb c 91 || N.eqb c 40)
                 && negb (isLineTerminator c)))
    ltac:(vm_compute; reflexivity) c (isDigit_ascii c H)) as F.
  cbv beta in F. rewrite H in F. simpl in F.
  repeat (apply andb_true_iff in F; destruct F as [F ?]).
  repeat apply conj; apply negb_true_iff; assumption.
Qed.

Lemma roman_facts_more (c : N) :
  isRomanLetter c = true ->
  isDash c = false /\ ciEq 112 c = false
  /\ (N.eqb c 91 || N.eqb c 40)%bool = false /\ isLineTerminator c = false
  /\ romanMap (toUpperChar c) <> None.
Proof.
  intros H.
  pose proof (all_ascii
    (fun c => implb (isRomanLetter c)
                (negb (isDash c) && negb (ciEq 112 c)
                 && negb (N.eqb c 91 || N.eqb c 40)
                 && negb (isLineTerminator c)
                 && match romanMap (toUpperChar c) with
                    | Some _ => true
                    | None => false
                    end))
    ltac:(vm_compute; reflexivity) c (isRomanLetter_ascii c H)) as F.
  cbv beta in F. rewrite H in F. simpl in F.
  repeat (apply andb_true_iff in F; destruct F as [F ?]).
  repeat apply conj; try (apply negb_true_iff; assumption).
  destruct (romanMap (toUpperChar c)); [discriminate | discriminate].
Qed.

Lemma span_all (p : N -> bool) (s : jsstring) :
  forallb p s = true -> span p s = (s, []).
Proof.
  induction s as [|c s IH]; [reflexivity|]. simpl. intros H.
  apply andb_true_iff in H. destruct H as [Hc Hs].
  rewrite Hc, (IH Hs). reflexivity.
Qed.

Lemma searchLines_inside (m : matcher) (s : jsstring) :
  forallb (fun c => negb (isLineTerminator c)) s = true ->
  searchLines m false s = None.
Proof.
  induction s as [|c s IH]; [reflexivity|]. simpl. intros H.
  apply andb_true_iff in H. destruct H as [Hc Hs].
  apply negb_true_iff in Hc. rewrite Hc. apply IH. exact Hs.
Qed.

(** On a text of one line a pattern anchored with [^] is tried at the
    start only. *)
Lemma searchLines_single_line (m : matcher) (s : jsstring) :
  forallb (fun c => negb (isLineTerminator c)) s = true ->
  searchLines m true s = m s.
Proof.
  destruct s as [|c s]; simpl.
  - destruct (m []); reflexivity.
  - intros H. apply andb_true_iff in H. destruct H as [Hc Hs].
    apply negb_true_iff in Hc. rewrite Hc, (searchLines_inside m s Hs).
    destruct (m (c :: s)); reflexivity.
Qed.

Lemma searchAll_none (m : matcher) (P : N -> bool) (s : jsstring) :
  m [] = None ->
  (forall c r, P c = true -> m (c :: r) = None) ->
  forallb P s = true -> searchAll m s = None.
Proof.
  intros Hnil Hcons. induction s as [|c s IH]; simpl; intros H.
  - rewrite Hnil. reflexivity.
  - apply andb_true_iff in H. destruct H as [Hc Hs].
    rewrite (Hcons c s Hc). apply IH. exact Hs.
Qed.

Lemma digitsThen_no_digit (k : jsstring -> bool) (c : N) (r : jsstring) :
  isDigit c = false -> digitsThen k (c :: r) = None.
Proof. intros H. unfold digitsThen. simpl. rewrite H. reflexivity. Qed.

Lemma pagePrefixed_no_p (c : N) (r : jsstring) :
  ciEq 112 c = false -> pagePrefixed (c :: r) = None.
Proof.
  intros H. unfold pagePrefixed, prefixOptDot.
  change (js "page") with [112; 97; 103; 101]%N.
  change (js "pg") with [112; 103]%N.
  change (js "p") with [112]%N.
  simpl. rewrite H. reflexivity.
Qed.

Lemma bracketedNumber_no_bracket (c : N) (r : jsstring) :
  (N.eqb c 91 || N.eqb c 40)%bool = false -> bracketedNumber (c :: r) = None.
Proof. intros H. unfold bracketedNumber. rewrite H. reflexivity. Qed.

Lemma forallb_weaken (P Q : N -> bool) (s : jsstring) :
  (forall c, P c = true -> Q c = true) ->
  forallb P s = true -> forallb Q s = true.
Proof.
  intros HPQ H. rewrite forallb_forall in *. intros c Hc. apply HPQ, H, Hc.
Qed.

Lemma parseInt_digits (d : jsstring) :
  nonEmpty d = true -> forallb isDigit d = true ->
  parseInt d = Some (decimalValue d).
Proof.
  intros Hne Hd. destruct d as [|c r]; [discriminate|].
  pose proof Hd as Hall. simpl in Hd. apply andb_true_iff in Hd.
  destruct Hd as [Hc _].
  destruct (digit_facts c Hc) as (Hw & Hm & Hp & _).
  unfold parseInt. simpl dropWhile. rewrite Hw, Hm, Hp.
  rewrite (span_all isDigit (c :: r) Hall). cbn [nonEmpty].
  rewrite Z.mul_1_l. reflexivity.
Qed.

Lemma interpretCapture_digits (d : jsstring) :
  nonEmpty d = true -> forallb isDigit d = true ->
  interpretCapture d
  = if ((0 <? decimalValue d) && (decimalValue d <? 10000))%bool
    then Some (mkExtracted (Some d) (Some (decimalValue d)))
    else None.
Proof.
  intros Hne Hd. unfold interpretCapture.
  rewrite (trim_capOk d) by (split; auto).
  rewrite (parseInt_digits d Hne Hd).
  destruct d as [|c r]; [discriminate|].
  simpl in Hd. apply andb_true_iff in Hd. destruct Hd as [Hc _].
  destruct (digit_facts_more c Hc) as (_ & _ & Hr & _).
  unfold romanTest. cbn [nonEmpty forallb andb]. rewrite Hr. reflexivity.
Qed.

Lemma romanToArabic_capitals (s : jsstring) :
  forallb isRomanLetter s = true ->
  exists k, romanToArabic (toUpperCase s) = Some k.
Proof.
  intros H. destruct (romanToArabic (toUpperCase s)) as [k|] eqn:E; [eauto|].
  exfalso. unfold romanToArabic in E. apply romanLoop_None in E.
  destruct E as (c & Hc & Hn). rewrite <- in_rev in Hc.
  unfold toUpperCase in Hc. apply in_map_iff in Hc.
  destruct Hc as (c0 & <- & Hc0).
  rewrite forallb_forall in H.
  apply (roman_facts_more c0 (H c0 Hc0)). exact Hn.
Qed.

Lemma interpretCapture_roman (s : jsstring) (k : Z) :
  nonEmpty s = true -> forallb isRomanLetter s = true ->
  romanToArabic (toUpperCase s) = Some k ->
  interpretCapture s = Some (mkExtracted (Some s) (Some k)).
Proof.
  intros Hne Hs Hk. unfold interpretCapture.
  rewrite (trim_capOk s) by (split; auto).
  unfold romanTest. rewrite Hne, Hs, Hk. reflexivity.
Qed.

Lemma digits_single_line (d : jsstring) :
  forallb isDigit d = true ->
  forallb (fun c => negb (isLineTerminator c)) d = true.
Proof.
  apply forallb_weaken. intros c Hc. apply negb_true_iff.
  apply (digit_facts_more c Hc).
Qed.

Lemma roman_single_line (s : jsstring) :
  forallb isRomanLetter s = true ->
  forallb (fun c => negb (isLineTerminator c)) s = true.
Proof.
  apply forallb_weaken. intros c Hc. apply negb_true_iff.
  apply (roman_facts_more c Hc).
Qed.

Lemma extract_digits_text (d : jsstring) :
  nonEmpty d = true -> forallb isDigit d = true ->
  extractPageNumber d
  = if ((0 <? decimalValue d) && (decimalValue d <? 10000))%bool
    then mkExtracted (Some d) (Some (decimalValue d))
    else notFound.
Proof.
  intros Hne Hd. pose proof (digits_single_line d Hd) as Hline.
  unfold extractPageNumber, patterns. cbn [extractLoop].
  rewrite (searchLines_single_line standaloneNumber d Hline).
  unfold standaloneNumber at 1, digitsThen at 1.
  rewrite (span_all isDigit d Hd), Hne. cbn [atLineEnd andb].
  rewrite Hne, (interpretCapture_digits d Hne Hd).
  destruct ((0 <? decimalValue d) && (decimalValue d <? 10000))%bool;
    [reflexivity|].
  rewrite (searchLines_single_line dashedNumber d Hline).
  rewrite (searchLines_single_line romanLine d Hline).
  rewrite (searchAll_none pagePrefixed isDigit d); try assumption;
    [|reflexivity
     |intros c r Hc; apply pagePrefixed_no_p, (digit_facts_more c Hc)].
  rewrite (searchAll_none bracketedNumber isDigit d); try assumption;
    [|reflexivity
     |intros c r Hc; apply bracketedNumber_no_bracket, (digit_facts_more c Hc)].
  destruct d as [|c r]; [discriminate|].
  simpl in Hd. apply andb_true_iff in Hd. destruct Hd as [Hc _].
  destruct (digit_facts_more c Hc) as (Hdash & _ & Hroman & _).
  unfold dashedNumber, romanLine. rewrite Hdash. simpl span. rewrite Hroman.
  reflexivity.
Qed.

Lemma extract_roman_text (s : jsstring) (k : Z) :
  nonEmpty s = true -> forallb isRomanLetter s = true ->
  romanToArabic (toUpperCase s) = Some k ->
  extractPageNumber s = mkExtracted (Some s) (Some k).
Proof.
  intros Hne Hs Hk. pose proof (roman_single_line s Hs) as Hline.
  assert (Hnodigit : forallb (fun c => negb (isDigit c)) s = true).
  { revert Hs. apply forallb_weaken. intros c Hc. apply negb_true_iff.
    apply (roman_facts c Hc). }
  unfold extractPageNumber, patterns. cbn [extractLoop].
  rewrite (searchLines_single_line standaloneNumber s Hline).
  rewrite (searchLines_single_line dashedNumber s Hline).
  rewrite (searchLines_single_line romanLine s Hline).
  rewrite (searchAll_none pagePrefixed isRomanLetter s); try assumption;
    [|reflexivity
     |intros c r Hc; apply pagePrefixed_no_p, (roman_facts_more c Hc)].
  assert (H1 : standaloneNumber s = None /\ dashedNumber s = None).
  { destruct s as [|c r]; [discriminate|].
    simpl in Hs. apply andb_true_iff in Hs. destruct Hs as [Hc _].
    destruct (roman_facts c Hc) as (_ & _ & _ & Hdigit & _).
    destruct (roman_facts_more c Hc) as (Hdash & _).
    split.
    - apply digitsThen_no_digit. exact Hdigit.
    - unfold dashedNumber. rewrite Hdash. reflexivity. }
  destruct H1 as [-> ->].
  unfold romanLine. rewrite (span_all isRomanLetter s Hs), Hne.
  cbn [atLineEnd andb]. rewrite Hne, (interpretCapture_roman s k Hne Hs Hk).
  reflexivity.
Qed.

Lemma interpretCapture_normalized (cap : jsstring) (r : Extracted) :
  capOk cap -> interpretCapture cap = Some r ->
  exists k, r = mkExtracted (Some cap) (Some k) /\ normalized cap k.
Proof.
  intros Hok. pose proof Hok as [Hne Hshape].
  unfold interpretCapture. rewrite (trim_capOk cap Hok).
  assert (Harabic :
    match parseInt cap with
    | Some num =>
        if ((0 <? num) && (num <? 10000))%bool
        then Some (mkExtracted (Some cap) (Some num))
        else None
    | None => None
    end = Some r ->
    exists k, r = mkExtracted (Some cap) (Some k) /\ normalized cap k).
  { destruct (parseInt cap) as [num|] eqn:Hp; [|discriminate].
    destruct ((0 <? num) && (num <? 10000))%bool eqn:Hrange; [|discriminate].
    intros H. injection H as <-. exists num. split; [reflexivity|].
    apply andb_true_iff in Hrange. destruct Hrange as [H0 H1].
    apply Z.ltb_lt in H0. apply Z.ltb_lt in H1.
    split; [exact Hne|]. left.
    destruct Hshape as [Hd|Hr]; [auto|].
    exfalso. destruct cap as [|c rest]; [discriminate|].
    simpl in Hr. apply andb_true_iff in Hr. destruct Hr as [Hc _].
    rewrite (parseInt_roman_head c rest Hc) in Hp. discriminate. }
  destruct (romanTest cap) eqn:Ht; [|exact Harabic].
  destruct (romanToArabic (toUpperCase cap)) as [arabic|] eqn:Ha;
    [|exact Harabic].
  intros H. injection H as <-. exists arabic. split; [reflexivity|].
  unfold romanTest in Ht. apply andb_true_iff in Ht. destruct Ht as [_ Hr].
  split; [exact Hne|]. right. repeat apply conj; auto.
  apply (romanToArabic_pos (toUpperCase cap) arabic Ha).
  destruct cap; [discriminate | discriminate].
Qed.

Lemma extractLoop_normalized (ps : list (jsstring -> option jsstring))
  (text : jsstring) :
  Forall (fun p => forall text cap, p text = Some cap -> capOk cap) ps ->
  extractLoop ps text = notFound
  \/ exists l k,
       extractLoop ps text = mkExtracted (Some l) (Some k) /\ normalized l k.
Proof.
  induction ps as [|p ps IH]; intros Hps; simpl; [left; reflexivity|].
  inversion Hps as [|? ? Hp Hrest]; subst.
  destruct (p text) as [cap|] eqn:E; [|apply IH; exact Hrest].
  destruct (nonEmpty cap); [|apply IH; exact Hrest].
  destruct (interpretCapture cap) as [r|] eqn:Er; [|apply IH; exact Hrest].
  destruct (interpretCapture_normalized cap r (Hp text cap E) Er)
    as (k & -> & Hn).
  right. exists cap, k. auto.
Qed.

Lemma normalized_fixed (l : jsstring) (k : Z) :
  normalized l k -> extractPageNumber l = mkExtracted (Some l) (Some k).
Proof.
  intros [Hne [(Hd & Hp & Hrange) | (Hr & Ha & _)]].
  - rewrite (parseInt_digits l Hne Hd) in Hp. injection Hp as Hk.
    rewrite (extract_digits_text l Hne Hd), Hk.
    destruct (Z.ltb_spec 0 k); [|lia].
    destruct (Z.ltb_spec k 10000); [|lia]. reflexivity.
  - apply extract_roman_text; assumption.
Qed.

Lemma extract_result_shape (text : jsstring) :
  extractPageNumber text = notFound
  \/ exists l k,
       extractPageNumber text = mkExtracted (Some l) (Some k)
       /\ normalized l k.
Proof. apply extractLoop_normalized, patterns_capOk. Qed.

(** X2: whatever the text, [extractPageNumber] returns either no label and
    no sort key, or both: a label of digits only with the number they
    spell, strictly between 0 and 10000, as the sort key, or a label of
    Roman letters only with the value of its capitals, at least 1, as the
    sort key. *)
Theorem extract_result_normalized (text : jsstring) :
  extractPageNumber text = notFound
  \/ exists l k,
       extractPageNumber text = mkExtracted (Some l) (Some k)
       /\ normalized l k.
Proof. apply extractLoop_normalized, patterns_capOk. Qed.

(** X3: on a text made of digits only, the label is the text itself, with
    its leading zeros, and the sort key is its value, when the value is
    strictly between 0 and 10000; otherwise nothing is extracted. *)
Theorem extract_bare_number (d : jsstring) :
  nonEmpty d = true -> forallb isDigit d = true ->
  extractPageNumber d
  = if ((0 <? decimalValue d) && (decimalValue d <? 10000))%bool
    then mkExtracted (Some d) (Some (decimalValue d))
    else notFound.
Proof. apply extract_digits_text. Qed.

Lemma extract_bare_number_witness :
  extractPageNumber (js "0042") = mkExtracted (Some (js "0042")) (Some 42)
  /\ extractPageNumber (js "0000") = notFound.
Proof.
  split.
  - apply (extract_bare_number (js "0042")); reflexivity.
  - apply (extract_bare_number (js "0000")); reflexivity.
Defined.

(** X4: on a text made of letters i, v, x, l, c, d, m only, in any case and
    any order (a well-formed numeral or not), the label is the text itself
    and the sort key is the value [romanToArabic] gives its capitals, which
    is at least 1 and has no upper bound. *)
Theorem extract_bare_roman (s : jsstring) :
  nonEmpty s = true -> forallb isRomanLetter s = true ->
  exists k,
    romanToArabic (toUpperCase s) = Some k /\ 0 < k
    /\ extractPageNumber s = mkExtracted (Some s) (Some k).
Proof.
  intros Hne Hs. destruct (romanToArabic_capitals s Hs) as [k Hk].
  exists k. repeat apply conj.
  - exact Hk.
  - apply (romanToArabic_pos (toUpperCase s) k Hk).
    destruct s; [discriminate | discriminate].
  - apply extract_roman_text; assumption.
Qed.

Lemma extract_bare_roman_witness :
  exists k,
    romanToArabic (toUpperCase (js "iiiiM")) = Some k /\ 0 < k
    /\ extractPageNumber (js "iiiiM") = mkExtracted (Some (js "iiiiM")) (Some k).
Proof. apply (extract_bare_roman (js "iiiiM")); reflexivity. Defined.

(** X5: extracting again from a label that [extractPageNumber] returned
    gives the same label and the same sort key: the sort key, which
    [performOCR] drops, can be recovered from the stored label. *)
Theorem extract_label_round_trip (text l : jsstring) (k : Z) :
  extractPageNumber text = mkExtracted (Some l) (Some k) ->
  extractPageNumber l = mkExtracted (Some l) (Some k).
Proof.
  intros H. apply normalized_fixed.
  destruct (extractLoop_normalized patterns text patterns_capOk)
    as [Hnone | (l' & k' & Heq & Hn)].
  - unfold extractPageNumber in H. rewrite H in Hnone. discriminate.
  - unfold extractPageNumber in H. rewrite H in Heq.
    injection Heq as <- <-. exact Hn.
Qed.

Lemma extract_label_round_trip_witness :
  extractPageNumber (js "xiv") = mkExtracted (Some (js "xiv")) (Some 14).
Proof.
  apply (extract_label_round_trip (js "see page" ++ nl ++ js "xiv") (js "xiv") 14).
  vm_compute. reflexivity.
Defined.

(** ** Waiting time of [retryWithBackoff] *)

Lemma totalDelay_backoff (initialDelay : Z) (n : nat) :
  forall from,
    totalDelay (backoffDelays initialDelay from n)
    = initialDelay * 2 ^ Z.of_nat from * (2 ^ Z.of_nat n - 1).
Proof.
  unfold totalDelay, backoffDelays.
  induction n as [|n IH]; intros from.
  - simpl. lia.
  - cbn [seq List.map fold_right]. rewrite IH.
    rewrite !Nat2Z.inj_succ, !Z.pow_succ_r by lia. ring.
Qed.

(** X6: the delays of a run of [retryWithBackoff] add up to
    initialDelay * (2^r - 1) where r is the number of retries, so that with
    a delay that is not negative the whole wait is at most
    initialDelay * (2^(maxRetries - 1) - 1): 3000 ms with the defaults. *)
Theorem retry_total_delay {W T : Type} (fn : W -> Completion T * W)
  (maxRetries : nat) (initialDelay : Z) (w : W) :
  0 <= initialDelay ->
  let run := retryWithBackoff fn maxRetries initialDelay w in
  totalDelay (delays run)
  = initialDelay * (2 ^ Z.of_nat (List.length (attempts run) - 1) - 1)
  /\ totalDelay (delays run)
     <= initialDelay * (2 ^ Z.of_nat (maxRetries - 1) - 1)
  /\ (maxRetries = defaultMaxRetries -> initialDelay = defaultInitialDelay ->
      totalDelay (delays run) <= 3000).
Proof.
  intros Hd run.
  destruct (retryLoop_spec fn maxRetries initialDelay maxRetries 0
              (NonError (js "undefined")) w ltac:(lia))
    as (Hlen & Hdel & _).
  fold (retryWithBackoff fn maxRetries initialDelay w) in Hlen, Hdel.
  fold run in Hlen, Hdel.
  assert (Hsum : totalDelay (delays run)
                 = initialDelay
                   * (2 ^ Z.of_nat (List.length (attempts run) - 1) - 1)).
  { rewrite Hdel, totalDelay_backoff. simpl (2 ^ Z.of_nat 0). ring. }
  assert (Hbound : totalDelay (delays run)
                   <= initialDelay * (2 ^ Z.of_nat (maxRetries - 1) - 1)).
  { rewrite Hsum. apply Z.mul_le_mono_nonneg_l; [exact Hd|].
    assert (2 ^ Z.of_nat (List.length (attempts run) - 1)
            <= 2 ^ Z.of_nat (maxRetries - 1)); [|lia].
    apply Z.pow_le_mono_r; lia. }
  repeat apply conj; auto.
  intros Hm Hi. rewrite Hm, Hi in Hbound. exact Hbound.
Qed.

Lemma retry_total_delay_witness :
  totalDelay (delays (retryWithBackoff failsTwice 3 1000 0%nat)) <= 3000.
Proof.
  apply (retry_total_delay failsTwice 3 1000 0%nat); [lia | reflexivity | reflexivity].
Defined.

(** ** [performOCR] *)

Section RecognizerFacts.
Context {W : Type}.
Variable invokeLLM : jsstring -> W -> Completion (option jsstring) * W.
Variable JSON_parse : jsstring -> Completion ParsedReply.

(** [performOCR] after a first call of the model that returned. *)
Lemma performOCR_first_reply (imageUrl : jsstring) (w w1 : W)
  (content : option jsstring) :
  invokeLLM imageUrl w = (Returned content, w1) ->
  performOCR invokeLLM JSON_parse imageUrl w
  = match performOCR_try invokeLLM JSON_parse imageUrl w with
    | (Returned r, _) => (Returned r, w1)
    | (Threw error, _) =>
        (Threw (ErrorObject
           (js "OCR processing failed: "
            ++ match error with
               | ErrorObject message => message
               | NonError _ => js "Unknown error"
               end)), w1)
    end
  /\ snd (performOCR_try invokeLLM JSON_parse imageUrl w) = w1.
Proof.
  intros H. unfold performOCR.
  assert (Hw : snd (performOCR_try invokeLLM JSON_parse imageUrl w) = w1).
  { unfold performOCR_try, retryWithBackoff, defaultMaxRetries.
    cbn [retryLoop]. rewrite H. cbn [outcome finalWorld].
    destruct (truthy content); [|reflexivity].
    destruct content as [contentStr|]; [|reflexivity].
    destruct (JSON_parse contentStr); reflexivity. }
  split; [|exact Hw].
  destruct (performOCR_try invokeLLM JSON_parse imageUrl w) as [[r|e] w0];
    simpl in Hw; subst w0; reflexivity.
Qed.

(** X7: whatever fails inside [performOCR], its caller gets an [Error]
    whose message starts with "OCR processing failed: ", so that the
    routers always store that message and never their own fallback text;
    a reply without content gives "OCR processing failed: No response from
    LLM". *)
Theorem performOCR_failure_wrapped (imageUrl : jsstring) (w w' : W) (e : Thrown) :
  (performOCR invokeLLM JSON_parse imageUrl w = (Threw e, w') ->
   exists cause,
     e = ErrorObject (js "OCR processing failed: " ++ cause)
     /\ messageOf e = js "OCR processing failed: " ++ cause)
  /\ (forall content w1,
        invokeLLM imageUrl w = (Returned content, w1) ->
        truthy content = false ->
        performOCR invokeLLM JSON_parse imageUrl w
        = (Threw (ErrorObject
             (js "OCR processing failed: " ++ js "No response from LLM")), w1)).
Proof.
  split.
  - intros H. destruct (performOCR_throws_Error _ _ _ _ _ _ H) as [cause ->].
    exists cause. split; reflexivity.
  - intros content w1 H Hempty.
    unfold performOCR, performOCR_try, retryWithBackoff, defaultMaxRetries.
    cbn [retryLoop]. rewrite H. cbn [outcome finalWorld]. rewrite Hempty.
    reflexivity.
Qed.

(** X8: a failure of the model that is not transient is not retried, and
    neither is a reply that has no content or does not parse: in each case
    the model was called once. *)
Theorem performOCR_single_call (imageUrl : jsstring) (w w1 : W) :
  (forall content,
     invokeLLM imageUrl w = (Returned content, w1) ->
     snd (performOCR invokeLLM JSON_parse imageUrl w) = w1)
  /\ (forall e,
        invokeLLM imageUrl w = (Threw e, w1) -> is500Error e = false ->
        performOCR invokeLLM JSON_parse imageUrl w
        = (Threw (ErrorObject
             (js "OCR processing failed: "
              ++ match e with
                 | ErrorObject message => message
                 | NonError _ => js "Unknown error"
                 end)), w1)).
Proof.
  split.
  - intros content H.
    destruct (performOCR_first_reply imageUrl w w1 content H) as [-> _].
    destruct (performOCR_try invokeLLM JSON_parse imageUrl w) as [[r|e] w0];
      reflexivity.
  - intros e H Ht.
    unfold performOCR, performOCR_try, retryWithBackoff, defaultMaxRetries.
    cbn [retryLoop]. rewrite H, Ht. reflexivity.
Qed.

(** X9: the page number [performOCR] returns is null or a label with a
    sort key as [extractPageNumber] pairs them (digits only, or Roman
    letters only), and it is taken from the page number of the reply of
    the model when that is not empty, from the whole text otherwise. *)
Theorem performOCR_page_number (imageUrl : jsstring) (w w' : W) (r : OCRResult) :
  performOCR invokeLLM JSON_parse imageUrl w = (Returned r, w') ->
  (ocrDetectedPageNumber r = None
   \/ exists l k, ocrDetectedPageNumber r = Some l /\ normalized l k)
  /\ exists contentStr parsed,
       JSON_parse contentStr = Returned parsed
       /\ ocrExtractedText r = parsedText parsed
       /\ ocrDetectedPageNumber r
          = pageNumber
              (extractPageNumber
                 (if truthy (parsedPageNumber parsed)
                  then labelOf_option (parsedPageNumber parsed)
                  else parsedText parsed))
       /\ outcome
            (retryWithBackoff (invokeLLM imageUrl) defaultMaxRetries
               defaultInitialDelay w)
          = Returned (Some contentStr).
Proof.
  unfold performOCR.
  destruct (performOCR_try invokeLLM JSON_parse imageUrl w) as [[r0|e] w0] eqn:E;
    [|discriminate].
  intros H. injection H as <- _. revert E. unfold performOCR_try.
  destruct (outcome _) as [reply|e] eqn:Hout; [|discriminate].
  destruct (truthy reply); [|discriminate].
  destruct reply as [contentStr|]; [|discriminate].
  destruct (JSON_parse contentStr) as [parsed|e] eqn:Hparse; [|discriminate].
  intros E. injection E as <- _. cbn [ocrDetectedPageNumber ocrExtractedText].
  assert (Hsame :
    (if truthy (parsedPageNumber parsed)
     then match parsedPageNumber parsed with
          | Some raw => pageNumber (extractPageNumber raw)
          | None => None
          end
     else pageNumber (extractPageNumber (parsedText parsed)))
    = pageNumber
        (extractPageNumber
           (if truthy (parsedPageNumber parsed)
            then labelOf_option (parsedPageNumber parsed)
            else parsedText parsed))).
  { destruct (parsedPageNumber parsed) as [[|c raw]|]; reflexivity. }
  split.
  - rewrite Hsame.
    destruct (extract_result_shape
                (if truthy (parsedPageNumber parsed)
                 then labelOf_option (parsedPageNumber parsed)
                 else parsedText parsed))
      as [-> | (l & k & -> & Hn)]; [left; reflexivity|].
    right. exists l, k. auto.
  - exists contentStr, parsed. auto.
Qed.

End RecognizerFacts.

(** ** Access control and the successful run of the page procedures *)

Section AccessFacts.
Context {W : Type}.
Variable invokeLLM : jsstring -> W -> Completion (option jsstring) * W.
Variable JSON_parse : jsstring -> Completion ParsedReply.
Variable localeCompare : jsstring -> jsstring -> Z.
Variable user : Z.

Lemma loadPage_cases (pageId : Z) (st : State W) :
  loadPage user pageId st
  = match getPageById pageId (db st) with
    | None => (Threw notFoundError, st)
    | Some page =>
        match getProjectById (Page.projectId page) (db st) with
        | None => (Threw unauthorizedError, st)
        | Some project =>
            if Project.userId project =? user
            then (Returned (page, project), st)
            else (Threw unauthorizedError, st)
        end
    end.
Proof.
  unfold loadPage, bind, readDb.
  destruct (getPageById pageId (db st)) as [page|]; [|reflexivity].
  destruct (getProjectById (Page.projectId page) (db st)) as [project|];
    [|reflexivity].
  destruct (Project.userId project =? user); reflexivity.
Qed.

Lemma loadProject_cases (projectId : Z) (st : State W) :
  loadProject user projectId st
  = match getProjectById projectId (db st) with
    | None => (Threw projectNotFoundError, st)
    | Some project =>
        if Project.userId project =? user
        then (Returned project, st)
        else (Threw unauthorizedError, st)
    end.
Proof.
  unfold loadProject, bind, readDb.
  destruct (getProjectById projectId (db st)) as [project|]; [|reflexivity].
  destruct (Project.userId project =? user); reflexivity.
Qed.

Lemma page_procedures_denied (pageId : Z) (st : State W) (e : Thrown) :
  loadPage user pageId st = (Threw e, st) ->
  processOCR invokeLLM JSON_parse user pageId st = (Threw e, st)
  /\ retrySingle invokeLLM JSON_parse user pageId st = (Threw e, st).
Proof.
  intros H. unfold processOCR, retrySingle, bind. rewrite H. auto.
Qed.

(** X10: [processOCR] and [retrySingle] do nothing for a page that does not
    exist ("Page not found") or whose project is missing or belongs to
    another user ("Unauthorized"): they throw before any write and before
    any call of the recognizer, whatever the status of the page. *)
Theorem page_procedures_access_control (pageId : Z) (st : State W) :
  (getPageById pageId (db st) = None ->
   processOCR invokeLLM JSON_parse user pageId st = (Threw notFoundError, st)
   /\ retrySingle invokeLLM JSON_parse user pageId st = (Threw notFoundError, st))
  /\ (forall page,
        getPageById pageId (db st) = Some page ->
        (getProjectById (Page.projectId page) (db st) = None
         \/ exists project,
              getProjectById (Page.projectId page) (db st) = Some project
              /\ Project.userId project <> user) ->
        processOCR invokeLLM JSON_parse user pageId st
        = (Threw unauthorizedError, st)
        /\ retrySingle invokeLLM JSON_parse user pageId st
           = (Threw unauthorizedError, st)).
Proof.
  split.
  - intros H. apply page_procedures_denied. rewrite loadPage_cases, H.
    reflexivity.
  - intros page Hp Hq. apply page_procedures_denied.
    rewrite loadPage_cases, Hp.
    destruct Hq as [-> | (project & -> & Hne)]; [reflexivity|].
    apply Z.eqb_neq in Hne. rewrite Hne. reflexivity.
Qed.

Lemma project_procedures_denied (projectId : Z) (pageOrders : list (Z * Z))
  (st : State W) (e : Thrown) :
  loadProject user projectId st = (Threw e, st) ->
  retryFailed invokeLLM JSON_parse user projectId st = (Threw e, st)
  /\ reorder localeCompare user projectId st = (Threw e, st)
  /\ updateOrder user projectId pageOrders st = (Threw e, st).
Proof.
  intros H. unfold retryFailed, reorder, updateOrder, bind. rewrite H. auto.
Qed.

(** X11: [retryFailed], [reorder] and [updateOrder] do nothing for a
    project that does not exist ("Project not found") or belongs to
    another user ("Unauthorized"): they throw before any write and before
    any call of the recognizer. *)
Theorem project_procedures_access_control (projectId : Z)
  (pageOrders : list (Z * Z)) (st : State W) :
  (getProjectById projectId (db st) = None ->
   retryFailed invokeLLM JSON_parse user projectId st
   = (Threw projectNotFoundError, st)
   /\ reorder localeCompare user projectId st
      = (Threw projectNotFoundError, st)
   /\ updateOrder user projectId pageOrders st
      = (Threw projectNotFoundError, st))
  /\ (forall project,
        getProjectById projectId (db st) = Some project ->
        Project.userId project <> user ->
        retryFailed invokeLLM JSON_parse user projectId st
        = (Threw unauthorizedError, st)
        /\ reorder localeCompare user projectId st
           = (Threw unauthorizedError, st)
        /\ updateOrder user projectId pageOrders st
           = (Threw unauthorizedError, st)).
Proof.
  split.
  - intros H. apply project_procedures_denied.
    rewrite loadProject_cases, H. reflexivity.
  - intros project Hq Hne. apply project_procedures_denied.
    rewrite loadProject_cases, Hq. apply Z.eqb_neq in Hne. rewrite Hne.
    reflexivity.
Qed.

Lemma completedPage_eq (p : Page.t) (r : OCRResult) (clearError : bool) :
  applyPatch (completedPatch r clearError)
    (applyPatch (mkPatch None None None (Some processing) None None) p)
  = completedPage p r clearError.
Proof. destruct clearError; reflexivity. Qed.

Lemma single_page_run (clearError : bool) (st : State W) (pageId : Z)
  (page : Page.t) (project : Project.t) (r : OCRResult) (w' : W) :
  getPageById pageId (db st) = Some page ->
  getProjectById (Page.projectId page) (db st) = Some project ->
  let d' :=
    updateProject (Page.projectId page) (Project.processedPages project + 1)
      (updatePage pageId (completedPatch r clearError)
         (updatePageStatus pageId processing None (db st))) in
  getPageById pageId d' = Some (completedPage page r clearError)
  /\ getProjectById (Page.projectId page) d'
     = Some (setProcessedPages (Project.processedPages project + 1) project)
  /\ statusJournal d'
     = [(pageId, completed); (pageId, processing)] ++ statusJournal (db st).
Proof.
  intros Hp Hq d'. subst d'. repeat apply conj.
  - rewrite getPageById_updateProject. unfold updatePageStatus.
    rewrite !getPageById_updatePage, Hp. cbn [option_map].
    rewrite completedPage_eq. reflexivity.
  - rewrite getProjectById_updateProject.
    unfold updatePageStatus. rewrite !getProjectById_updatePage, Hq.
    reflexivity.
  - reflexivity.
Qed.

Lemma single_page_completes (st : State W) (pageId : Z) (page : Page.t)
  (project : Project.t) (r : OCRResult) (w' : W) :
  getPageById pageId (db st) = Some page ->
  getProjectById (Page.projectId page) (db st) = Some project ->
  Project.userId project = user ->
  performOCR invokeLLM JSON_parse (Page.imageUrl page) (world st)
  = (Returned r, w') ->
  (exists st',
     processOCR invokeLLM JSON_parse user pageId st
     = (Returned (mkProcessReply true (ocrDetectedPageNumber r)), st')
     /\ world st' = w'
     /\ getPageById pageId (db st') = Some (completedPage page r false)
     /\ getProjectById (Page.projectId page) (db st')
        = Some (setProcessedPages (Project.processedPages project + 1) project))
  /\ (Page.status page = failed \/ Page.status page = pending ->
      exists st',
        retrySingle invokeLLM JSON_parse user pageId st
        = (Returned (mkProcessReply true (ocrDetectedPageNumber r)), st')
        /\ world st' = w'
        /\ getPageById pageId (db st') = Some (completedPage page r true)
        /\ getProjectById (Page.projectId page) (db st')
           = Some (setProcessedPages (Project.processedPages project + 1)
                     project)).
Proof.
  intros Hp Hq Hu Hocr. split.
  - destruct (single_page_run false st pageId page project r w' Hp Hq)
      as (H1 & H2 & _).
    unfold processOCR, bind.
    rewrite (loadPage_ok user st pageId page project Hp Hq Hu).
    unfold tryCatch, bind, writeDb, recognize, onWorld, ret. simpl.
    rewrite Hocr. simpl. eexists. split; [reflexivity|]. simpl. auto.
  - intros Hs.
    destruct (single_page_run true st pageId page project r w' Hp Hq)
      as (H1 & H2 & _).
    unfold retrySingle, bind.
    rewrite (loadPage_ok user st pageId page project Hp Hq Hu).
    assert (Hguard : (negb (PageStatus_eqb (Page.status page) failed)
                      && negb (PageStatus_eqb (Page.status page) pending))%bool
                     = false)
      by (destruct Hs as [-> | ->]; reflexivity).
    rewrite Hguard.
    unfold tryCatch, bind, writeDb, recognize, onWorld, ret. simpl.
    rewrite Hocr. simpl. eexists. split; [reflexivity|]. simpl. auto.
Qed.

(** X12: when recognition succeeds, [processOCR] and (on a failed or
    pending page) [retrySingle] return the page number and leave the page
    completed with the text, the page number and the formatting of the
    result, its image, file name and position as they were; the counter of
    its project is raised by one.  [retrySingle] clears the error text,
    [processOCR] leaves it. *)
Theorem single_page_success (st : State W) (pageId : Z) (page : Page.t)
  (project : Project.t) (r : OCRResult) (w' : W) :
  getPageById pageId (db st) = Some page ->
  getProjectById (Page.projectId page) (db st) = Some project ->
  Project.userId project = user ->
  performOCR invokeLLM JSON_parse (Page.imageUrl page) (world st)
  = (Returned r, w') ->
  (exists st',
     processOCR invokeLLM JSON_parse user pageId st
     = (Returned (mkProcessReply true (ocrDetectedPageNumber r)), st')
     /\ world st' = w'
     /\ getPageById pageId (db st') = Some (completedPage page r false)
     /\ getProjectById (Page.projectId page) (db st')
        = Some (setProcessedPages (Project.processedPages project + 1) project))
  /\ (Page.status page = failed \/ Page.status page = pending ->
      exists st',
        retrySingle invokeLLM JSON_parse user pageId st
        = (Returned (mkProcessReply true (ocrDetectedPageNumber r)), st')
        /\ world st' = w'
        /\ getPageById pageId (db st') = Some (completedPage page r true)
        /\ getProjectById (Page.projectId page) (db st')
           = Some (setProcessedPages (Project.processedPages project + 1)
                     project)).
Proof. apply single_page_completes. Qed.

(** X13: a successful [retrySingle] cannot be repeated: a second call for
    the same page is rejected with "Only failed or pending pages can be
    processed" and writes nothing, so that the counter of the project is
    raised once. *)
Theorem retrySingle_not_repeatable (st : State W) (pageId : Z) (page : Page.t)
  (project : Project.t) (r : OCRResult) (w' : W) :
  getPageById pageId (db st) = Some page ->
  getProjectById (Page.projectId page) (db st) = Some project ->
  Project.userId project = user ->
  Page.status page = failed \/ Page.status page = pending ->
  performOCR invokeLLM JSON_parse (Page.imageUrl page) (world st)
  = (Returned r, w') ->
  exists reply st',
    retrySingle invokeLLM JSON_parse user pageId st = (Returned reply, st')
    /\ retrySingle invokeLLM JSON_parse user pageId st'
       = (Threw notRetryableError, st').
Proof.
  intros Hp Hq Hu Hs Hocr.
  destruct (proj2 (single_page_completes st pageId page project r w'
                     Hp Hq Hu Hocr) Hs)
    as (st' & Hrun & _ & Hp' & Hq').
  eexists. exists st'. split; [exact Hrun|].
  apply (retrySingle_guard invokeLLM JSON_parse user st' pageId
           (completedPage page r true)
           (setProcessedPages (Project.processedPages project + 1) project));
    auto.
Qed.

End AccessFacts.

(** ** What the batch retry touches *)

Lemma find_map_untouched {A} (key : A -> Z) (f : A -> A) (k k' : Z) (l : list A) :
  (forall a, key (f a) = key a) ->
  k <> k' ->
  find (fun a => key a =? k)
    (List.map (fun a => if key a =? k' then f a else a) l)
  = find (fun a => key a =? k) l.
Proof.
  intros Hkey Hne. induction l as [|a l IH]; [reflexivity|]. simpl.
  destruct (key a =? k') eqn:E'.
  - rewrite Hkey. apply Z.eqb_eq in E'.
    destruct (key a =? k) eqn:E; [apply Z.eqb_eq in E; congruence | exact IH].
  - destruct (key a =? k); [reflexivity | exact IH].
Qed.

Lemma getPageById_updatePage_other (k pageId : Z) (patch : PagePatch) (d : Db) :
  k <> pageId ->
  getPageById k (updatePage pageId patch d) = getPageById k d.
Proof.
  intros Hne. unfold getPageById, updatePage. simpl.
  apply (find_map_untouched Page.id); [apply applyPatch_id | exact Hne].
Qed.

Lemma getPageById_dbAfterRetry_other (k : Z) (p : Page.t)
  (c : Completion OCRResult) (d : Db) :
  k <> Page.id p ->
  getPageById k (dbAfterRetry p c d) = getPageById k d.
Proof.
  intros Hne. unfold dbAfterRetry, updatePageStatus.
  rewrite !getPageById_updatePage_other by exact Hne. reflexivity.
Qed.

Lemma getPageById_dbAfterBatch_other (k : Z) (ps : list Page.t) :
  forall cs d,
    ~ In k (List.map Page.id ps) ->
    getPageById k (dbAfterBatch ps cs d) = getPageById k d.
Proof.
  induction ps as [|p ps IH]; intros [|c cs] d Hk; try reflexivity.
  simpl. rewrite IH by (intros H; apply Hk; right; exact H).
  apply getPageById_dbAfterRetry_other. intros ->. apply Hk. left. reflexivity.
Qed.

Lemma getPageById_bumpProcessed (k projectId : Z) (project : Project.t)
  (count : Z) (d : Db) :
  getPageById k (bumpProcessed projectId project count d) = getPageById k d.
Proof. unfold bumpProcessed. destruct (0 <? count); reflexivity. Qed.

Lemma NoDup_map_filter {A} (f : A -> Z) (P : A -> bool) (l : list A) :
  NoDup (List.map f l) -> NoDup (List.map f (filter P l)).
Proof.
  induction l as [|x l IH]; intros H; [constructor|].
  simpl in H. inversion H as [|? ? Hx Hl]; subst. simpl.
  destruct (P x); [|auto]. simpl. constructor; [|auto].
  intros Hin. apply Hx. apply in_map_iff in Hin.
  destruct Hin as (y & Hy & Hin). apply filter_In in Hin.
  rewrite <- Hy. apply in_map. apply Hin.
Qed.

Lemma dbAfterRetry_settled (p p0 : Page.t) (c : Completion OCRResult) (d : Db) :
  getPageById (Page.id p) d = Some p0 ->
  exists p',
    getPageById (Page.id p) (dbAfterRetry p c d) = Some p'
    /\ settled p'
    /\ Page.imageUrl p' = Page.imageUrl p0
    /\ Page.sortOrder p' = Page.sortOrder p0.
Proof.
  intros H. unfold dbAfterRetry, updatePageStatus.
  rewrite !getPageById_updatePage, H. cbn [option_map].
  eexists. split; [reflexivity|]. unfold settled.
  destruct c as [r|e]; simpl.
  - repeat apply conj; auto.
  - repeat apply conj; auto. right. split; [reflexivity | discriminate].
Qed.

Lemma dbAfterBatch_settled (ps : list Page.t) :
  forall cs d,
    List.length cs = List.length ps ->
    NoDup (List.map Page.id ps) ->
    forall p p0, In p ps -> getPageById (Page.id p) d = Some p0 ->
      exists p',
        getPageById (Page.id p) (dbAfterBatch ps cs d) = Some p'
        /\ settled p'
        /\ Page.imageUrl p' = Page.imageUrl p0
        /\ Page.sortOrder p' = Page.sortOrder p0.
Proof.
  induction ps as [|a ps IH]; intros [|c cs] d Hlen Hnd p p0 Hin Hp;
    try discriminate; [contradiction|].
  simpl in Hnd. inversion Hnd as [|? ? Ha Hrest]; subst.
  simpl. destruct Hin as [->|Hin].
  - rewrite getPageById_dbAfterBatch_other by exact Ha.
    apply dbAfterRetry_settled. exact Hp.
  - apply (IH cs _ ltac:(simpl in Hlen; lia) Hrest p p0 Hin).
    rewrite getPageById_dbAfterRetry_other; [exact Hp|].
    intros E. apply Ha. rewrite <- E. apply in_map. exact Hin.
Qed.

Section BatchMoreFacts.
Context {W : Type}.
Variable invokeLLM : jsstring -> W -> Completion (option jsstring) * W.
Variable JSON_parse : jsstring -> Completion ParsedReply.
Variable user : Z.

(** The whole of a run of [retryFailed]. *)
Lemma retryFailed_run (st : State W) (projectId : Z) (project : Project.t) :
  getProjectById projectId (db st) = Some project ->
  Project.userId project = user ->
  let failedPages := filter isFailed (getPagesByProjectId projectId (db st)) in
  let outcomes := fst (recognitions invokeLLM JSON_parse failedPages (world st)) in
  exists reply,
    retryFailed invokeLLM JSON_parse user projectId st
    = (Returned reply,
       mkState
         (bumpProcessed projectId project
            (Z.of_nat (List.length (filter recognized outcomes)))
            (dbAfterBatch failedPages outcomes (db st)))
         (snd (recognitions invokeLLM JSON_parse failedPages (world st))))
    /\ results reply = entriesOf failedPages outcomes.
Proof.
  intros Hq Hu failedPages outcomes.
  pose proof (recognitions_length invokeLLM JSON_parse failedPages (world st))
    as Hlen.
  fold outcomes in Hlen.
  unfold retryFailed, bind.
  rewrite (loadProject_ok user st projectId project Hq Hu).
  unfold readDb at 1. cbv beta iota. fold isFailed. fold failedPages.
  destruct failedPages as [|p0 rest] eqn:Hfp.
  - assert (outcomes = []) by (destruct outcomes; [reflexivity | discriminate]).
    subst outcomes. rewrite H. simpl. destruct st.
    eexists. split; reflexivity.
  - rewrite retryEach_run. fold outcomes.
    rewrite (entriesOf_successes (p0 :: rest) outcomes Hlen).
    unfold bumpProcessed.
    destruct (0 <? Z.of_nat (List.length (filter recognized outcomes)));
      eexists; split; reflexivity.
Qed.

(** X14: [retryFailed] touches the failed pages of the project only.  With
    distinct page ids, every page that is not failed or is of another
    project is left exactly as it was; every failed page of the project
    ends completed without error text or failed with an error text, never
    processing, with the image and the position it had; and when no page
    of the project is failed nothing is written and the recognizer is not
    called. *)
Theorem retryFailed_frame (st : State W) (projectId : Z) (project : Project.t) :
  getProjectById projectId (db st) = Some project ->
  Project.userId project = user ->
  NoDup (List.map Page.id (pages (db st))) ->
  let st' := snd (retryFailed invokeLLM JSON_parse user projectId st) in
  (forall q, In q (pages (db st)) ->
     isFailed q = false \/ Page.projectId q <> projectId ->
     getPageById (Page.id q) (db st') = Some q)
  /\ (forall p, In p (pages (db st)) ->
        isFailed p = true -> Page.projectId p = projectId ->
        exists p',
          getPageById (Page.id p) (db st') = Some p'
          /\ settled p'
          /\ Page.imageUrl p' = Page.imageUrl p
          /\ Page.sortOrder p' = Page.sortOrder p)
  /\ (filter isFailed (getPagesByProjectId projectId (db st)) = [] ->
      st' = st).
Proof.
  intros Hq Hu Hnd st'.
  destruct (retryFailed_run st projectId project Hq Hu) as (reply & Hrun & _).
  set (failedPages := filter isFailed (getPagesByProjectId projectId (db st))) in *.
  set (outcomes := fst (recognitions invokeLLM JSON_parse failedPages (world st))) in *.
  assert (Hst : st' = snd (retryFailed invokeLLM JSON_parse user projectId st))
    by reflexivity.
  rewrite Hrun in Hst. cbn [snd] in Hst.
  assert (Hin : forall p, In p failedPages <->
                  In p (pages (db st)) /\ Page.projectId p = projectId
                  /\ isFailed p = true).
  { intros p. unfold failedPages, getPagesByProjectId.
    rewrite !filter_In, Z.eqb_eq. tauto. }
  repeat apply conj.
  - intros q Hqin Hcase. rewrite Hst. cbn [db].
    rewrite getPageById_bumpProcessed, getPageById_dbAfterBatch_other.
    + apply getPageById_distinct; assumption.
    + intros Hid. apply in_map_iff in Hid. destruct Hid as (p & Hid & Hp).
      apply Hin in Hp. destruct Hp as (Hp & Hproj & Hfail).
      assert (p = q) by (apply (same_id_same_page (pages (db st))); assumption).
      subst p. destruct Hcase; congruence.
  - intros p Hp Hfail Hproj. rewrite Hst. cbn [db].
    rewrite getPageById_bumpProcessed.
    apply (dbAfterBatch_settled failedPages outcomes (db st)).
    + apply recognitions_length.
    + unfold failedPages, getPagesByProjectId.
      apply NoDup_map_filter, NoDup_map_filter. exact Hnd.
    + apply Hin. auto.
    + apply getPageById_distinct; assumption.
  - intros Hnone. rewrite Hst. clear Hst Hrun.
    unfold outcomes. fold failedPages in Hnone. rewrite Hnone. simpl.
    destruct st. reflexivity.
Qed.

End BatchMoreFacts.

Lemma retryFailed_frame_witness :
  getPageById 15
    (db (snd (retryFailed echoLLM echoParse 1 7 sampleState)))
  = Some (samplePage 15 "42" (Some (js "text of page 42")) (Some (js "42"))
            completed None 5).
Proof.
  refine (proj1 (retryFailed_frame echoLLM echoParse 1 sampleState 7
                   (Project.mk 7 1 7 1) eq_refl eq_refl _)
            (samplePage 15 "42" (Some (js "text of page 42")) (Some (js "42"))
               completed None 5) _ _).
  - apply distinct_NoDup. reflexivity.
  - do 5 right. left. reflexivity.
  - left. reflexivity.
Defined.

(** ** The retry loop of the client against the batch retry *)

Lemma updateProject_twice (projectId n1 n2 : Z) (d : Db) :
  updateProject projectId n2 (updateProject projectId n1 d)
  = updateProject projectId n2 d.
Proof.
  unfold updateProject. simpl. f_equal. rewrite map_map. apply map_ext.
  intros p. destruct (Project.id p =? projectId) eqn:E; simpl; rewrite E;
    reflexivity.
Qed.

Lemma dbAfterBatch_updateProject (projectId n : Z) (ps : list Page.t) :
  forall cs d,
    dbAfterBatch ps cs (updateProject projectId n d)
    = updateProject projectId n (dbAfterBatch ps cs d).
Proof.
  induction ps as [|p ps IH]; intros [|c cs] d; try reflexivity.
  simpl. rewrite <- IH. f_equal.
Qed.

Lemma bumpProcessed_step (projectId : Z) (project : Project.t) (count : Z)
  (ps : list Page.t) (cs : list (Completion OCRResult)) (d : Db) :
  0 <= count ->
  bumpProcessed projectId
    (setProcessedPages (Project.processedPages project + 1) project) count
    (dbAfterBatch ps cs
       (updateProject projectId (Project.processedPages project + 1) d))
  = bumpProcessed projectId project (count + 1) (dbAfterBatch ps cs d).
Proof.
  intros Hc. unfold bumpProcessed. rewrite dbAfterBatch_updateProject.
  destruct (Z.ltb_spec 0 (count + 1)) as [_|H]; [|lia].
  cbn [Project.processedPages setProcessedPages].
  destruct (Z.ltb_spec 0 count) as [Hpos|Hzero].
  - rewrite updateProject_twice. f_equal. lia.
  - f_equal. lia.
Qed.

Section ClientFacts.
Context {W : Type}.
Variable invokeLLM : jsstring -> W -> Completion (option jsstring) * W.
Variable JSON_parse : jsstring -> Completion ParsedReply.
Variable user : Z.

(** One [retrySingle] on a failed or pending page does what one iteration
    of the batch does, and counts the page at once when it succeeds. *)
Lemma retrySingle_on_failed (d : Db) (w : W) (p : Page.t) (project : Project.t) :
  getPageById (Page.id p) d = Some p ->
  retryable p = true ->
  getProjectById (Page.projectId p) d = Some project ->
  Project.userId project = user ->
  let c := fst (performOCR invokeLLM JSON_parse (Page.imageUrl p) w) in
  exists result,
    retrySingle invokeLLM JSON_parse user (Page.id p) (mkState d w)
    = (result,
       mkState
         (bumpProcessed (Page.projectId p) project
            (if recognized c then 1 else 0) (dbAfterRetry p c d))
         (snd (performOCR invokeLLM JSON_parse (Page.imageUrl p) w)))
    /\ recognized result = recognized c.
Proof.
  intros Hp Hf Hq Hu c. subst c. unfold retrySingle, bind.
  rewrite (loadPage_ok user (mkState d w) (Page.id p) p project Hp Hq Hu).
  assert (Hguard : (negb (PageStatus_eqb (Page.status p) failed)
                    && negb (PageStatus_eqb (Page.status p) pending))%bool
                   = false).
  { unfold retryable, isFailed, isPending in Hf.
    destruct (PageStatus_eqb (Page.status p) failed); [reflexivity|].
    simpl in Hf. rewrite Hf. reflexivity. }
  rewrite Hguard.
  unfold tryCatch, bind, writeDb, recognize, onWorld, ret, throwError, throw.
  cbn [db world].
  destruct (performOCR invokeLLM JSON_parse (Page.imageUrl p) w) as [[r|e] w'];
    eexists; split; reflexivity.
Qed.

Lemma clientRetryLoop_run (projectId : Z) (ps : list Page.t) :
  forall (d : Db) (w : W) (project : Project.t) (successCount failCount : Z),
    NoDup (List.map Page.id ps) ->
    (forall p, In p ps ->
       getPageById (Page.id p) d = Some p /\ retryable p = true
       /\ Page.projectId p = projectId) ->
    getProjectById projectId d = Some project ->
    Project.userId project = user ->
    let cs := fst (recognitions invokeLLM JSON_parse ps w) in
    let count := Z.of_nat (List.length (filter recognized cs)) in
    clientRetryLoop invokeLLM JSON_parse user (List.map Page.id ps)
      successCount failCount (mkState d w)
    = (Returned (successCount + count,
                 failCount + (Z.of_nat (List.length ps) - count)),
       mkState (bumpProcessed projectId project count (dbAfterBatch ps cs d))
         (snd (recognitions invokeLLM JSON_parse ps w))).
Proof.
  induction ps as [|a ps IH];
    intros d w project successCount failCount Hnd Hps Hq Hu.
  - simpl. unfold ret. repeat f_equal; lia.
  - simpl in Hnd. inversion Hnd as [|x0 l0 Ha Hrest]; subst x0 l0.
    destruct (Hps a (or_introl eq_refl)) as (Hpa & Hfa & Hproj).
    rewrite <- Hproj in Hq.
    destruct (retrySingle_on_failed d w a project Hpa Hfa Hq Hu)
      as (result & Hrun & Hres).
    rewrite Hproj in Hq, Hrun.
    cbn [List.map clientRetryLoop recognitions].
    unfold bind at 1. unfold tryCatch, bind at 1. rewrite Hrun.
    destruct (performOCR invokeLLM JSON_parse (Page.imageUrl a) w)
      as [c w1] eqn:Hocr.
    cbn [fst snd] in *.
    assert (Hrest_pages : forall d1,
              (forall k, getPageById k d1 = getPageById k (dbAfterRetry a c d)) ->
              forall p, In p ps ->
                getPageById (Page.id p) d1 = Some p /\ retryable p = true
                /\ Page.projectId p = projectId).
    { intros d1 Hd1 p Hp. destruct (Hps p (or_intror Hp)) as (H1 & H2 & H3).
      repeat apply conj; auto.
      rewrite Hd1, getPageById_dbAfterRetry_other; [exact H1|].
      intros E. apply Ha. rewrite <- E. apply in_map. exact Hp. }
    destruct (recognitions invokeLLM JSON_parse ps w1) as [cs w2] eqn:Hrec.
    assert (Hcs : cs = fst (recognitions invokeLLM JSON_parse ps w1))
      by (rewrite Hrec; reflexivity).
    assert (Hw2 : w2 = snd (recognitions invokeLLM JSON_parse ps w1))
      by (rewrite Hrec; reflexivity).
    cbn [fst snd].
    destruct result as [reply|e]; destruct c as [r|e0]; try discriminate.
    + cbn [recognized filter List.length dbAfterBatch].
      unfold ret at 1. cbn [fst snd].
      unfold bumpProcessed at 1. cbn [Z.ltb Z.compare].
      rewrite (IH _ w1
                 (setProcessedPages (Project.processedPages project + 1) project)
                 (successCount + 1) failCount Hrest).
      * rewrite <- Hcs, <- Hw2.
        rewrite (bumpProcessed_step projectId project
                   (Z.of_nat (List.length (filter recognized cs))) ps cs
                   (dbAfterRetry a (Returned r) d)) by lia.
        rewrite !Nat2Z.inj_succ. unfold Z.succ.
        f_equal. f_equal. f_equal; lia.
      * apply Hrest_pages. intros k. reflexivity.
      * rewrite getProjectById_updateProject.
        unfold dbAfterRetry, updatePageStatus.
        rewrite !getProjectById_updatePage, Hq. reflexivity.
      * destruct project. exact Hu.
    + cbn [recognized filter dbAfterBatch].
      unfold bumpProcessed at 1. cbn [Z.ltb Z.compare].
      unfold ret at 1. cbn [fst snd].
      rewrite (IH _ w1 project successCount (failCount + 1) Hrest).
      * rewrite <- Hcs, <- Hw2. cbn [List.length].
        rewrite !Nat2Z.inj_succ. unfold Z.succ.
        f_equal. f_equal. f_equal; lia.
      * apply Hrest_pages. intros k. reflexivity.
      * unfold dbAfterRetry, updatePageStatus.
        rewrite !getProjectById_updatePage. exact Hq.
      * exact Hu.
Qed.

End ClientFacts.

Lemma entriesOf_length (ps : list Page.t) :
  forall cs, List.length cs = List.length ps ->
    List.length (entriesOf ps cs) = List.length ps.
Proof.
  intros cs H. unfold entriesOf. rewrite length_map, length_combine. lia.
Qed.

(** X15: the loop of the client's "Retry All Failed" button, one
    [retrySingle] call per failed page of the project (ids distinct, the
    page list fresh), leaves the storage and the outside world exactly as
    one [retryFailed] call does, counter of the project included, and
    counts as many successes as the report of [retryFailed] has, the
    other pages as failures. *)
Theorem client_retry_matches_batch {W : Type}
  (invokeLLM : jsstring -> W -> Completion (option jsstring) * W)
  (JSON_parse : jsstring -> Completion ParsedReply) (user : Z)
  (st : State W) (projectId : Z) (project : Project.t) :
  getProjectById projectId (db st) = Some project ->
  Project.userId project = user ->
  NoDup (List.map Page.id (pages (db st))) ->
  exists reply st',
    retryFailed invokeLLM JSON_parse user projectId st = (Returned reply, st')
    /\ handleRetryFailed invokeLLM JSON_parse user
         (getPagesByProjectId projectId (db st)) st
       = (Returned
            (countSuccesses (results reply),
             Z.of_nat (List.length (results reply))
             - countSuccesses (results reply)),
          st').
Proof.
  intros Hq Hu Hnd.
  destruct (retryFailed_run invokeLLM JSON_parse user st projectId project Hq Hu)
    as (reply & Hrun & Hres).
  set (failedPages := filter isFailed (getPagesByProjectId projectId (db st))) in *.
  pose proof (recognitions_length invokeLLM JSON_parse failedPages (world st))
    as Hlen.
  exists reply. eexists. split; [exact Hrun|].
  unfold handleRetryFailed. fold failedPages.
  destruct st as [d w]. cbn [db world] in *.
  rewrite (clientRetryLoop_run invokeLLM JSON_parse user projectId failedPages
             d w project 0 0); auto.
  - rewrite Hres, (entriesOf_successes failedPages _ Hlen),
      (entriesOf_length failedPages _ Hlen).
    reflexivity.
  - unfold failedPages, getPagesByProjectId.
    apply NoDup_map_filter, NoDup_map_filter. exact Hnd.
  - intros p Hp. unfold failedPages, getPagesByProjectId in Hp.
    rewrite !filter_In, Z.eqb_eq in Hp. destruct Hp as ((Hin & Hproj) & Hf).
    repeat apply conj; auto.
    + apply getPageById_distinct; assumption.
    + unfold retryable. rewrite Hf. reflexivity.
Qed.

Lemma client_retry_matches_batch_witness :
  exists reply st',
    retryFailed echoLLM echoParse 1 7 sampleState = (Returned reply, st')
    /\ handleRetryFailed echoLLM echoParse 1
         (getPagesByProjectId 7 sampleDb) sampleState
       = (Returned
            (countSuccesses (results reply),
             Z.of_nat (List.length (results reply))
             - countSuccesses (results reply)),
          st').
Proof.
  apply (client_retry_matches_batch echoLLM echoParse 1 sampleState 7
           (Project.mk 7 1 7 1) eq_refl eq_refl).
  apply distinct_NoDup. reflexivity.
Defined.

(** ** What [reorder] and [updateOrder] touch *)

Lemma finalPosition_in (ids : list Z) :
  forall i k before before',
    In k ids ->
    finalPosition i ids k before = finalPosition i ids k before'.
Proof.
  induction ids as [|q ids IH]; intros i k before before' Hin; [contradiction|].
  simpl. destruct (Z.eqb_spec k q) as [->|Hne]; [reflexivity|].
  apply IH. destruct Hin as [E|Hin]; [congruence | exact Hin].
Qed.

Lemma repositionFrom_notin (i : Z) (ids : list Z) (p : Page.t) :
  ~ In (Page.id p) ids -> repositionFrom i ids p = p.
Proof.
  intros H. unfold repositionFrom. rewrite finalPosition_notin by exact H.
  apply withSortOrder_same.
Qed.

Lemma orderedBy_form (pageOrders : list (Z * Z)) :
  forall p, orderedBy pageOrders p
            = withSortOrder (Page.sortOrder (orderedBy pageOrders p)) p.
Proof.
  induction pageOrders as [|[k z] rest IH]; intros p; simpl.
  - symmetry. apply withSortOrder_same.
  - destruct (Page.id p =? k); [|apply IH].
    rewrite IH at 1. apply withSortOrder_twice.
Qed.

Lemma orderedBy_notin (pageOrders : list (Z * Z)) :
  forall p, ~ In (Page.id p) (List.map fst pageOrders) ->
            orderedBy pageOrders p = p.
Proof.
  induction pageOrders as [|[k z] rest IH]; intros p H; [reflexivity|]. simpl.
  destruct (Z.eqb_spec (Page.id p) k) as [E|_].
  - exfalso. apply H. left. symmetry. exact E.
  - apply IH. intros Hin. apply H. right. exact Hin.
Qed.

Lemma orderedBy_listed (pageOrders : list (Z * Z)) :
  forall p k z,
    NoDup (List.map fst pageOrders) -> In (k, z) pageOrders ->
    Page.id p = k -> orderedBy pageOrders p = withSortOrder z p.
Proof.
  induction pageOrders as [|[k0 z0] rest IH]; intros p k z Hnd Hin Hid;
    [contradiction|].
  simpl in Hnd. inversion Hnd as [|x0 l0 Hk0 Hrest]; subst x0 l0. simpl.
  destruct Hin as [E|Hin].
  - injection E as -> ->. rewrite Hid, Z.eqb_refl.
    apply orderedBy_notin.
    change (Page.id (withSortOrder z p)) with (Page.id p).
    rewrite Hid. exact Hk0.
  - destruct (Z.eqb_spec (Page.id p) k0) as [E|_].
    + exfalso. apply Hk0. rewrite <- E, Hid.
      apply (in_map fst _ _ Hin).
    + apply (IH p k z Hrest Hin Hid).
Qed.

Lemma filter_project_orderedBy (projectId : Z) (pageOrders : list (Z * Z))
  (l : list Page.t) :
  filter (fun p => Page.projectId p =? projectId)
    (List.map (orderedBy pageOrders) l)
  = List.map (orderedBy pageOrders)
      (filter (fun p => Page.projectId p =? projectId) l).
Proof.
  induction l as [|p ps IH]; [reflexivity|]. simpl.
  rewrite (orderedBy_form pageOrders p) at 1.
  change (Page.projectId (withSortOrder ?x p)) with (Page.projectId p).
  destruct (Page.projectId p =? projectId); simpl; rewrite IH; reflexivity.
Qed.

Section OrderFacts.
Context {W : Type}.
Variable localeCompare : jsstring -> jsstring -> Z.
Variable user : Z.

Lemma writeOrders_run (pageOrders : list (Z * Z)) :
  forall st : State W,
    writeOrders pageOrders st
    = (Returned tt,
       mkState
         (mkDb (List.map (orderedBy pageOrders) (pages (db st)))
            (projects (db st)) (statusJournal (db st)))
         (world st)).
Proof.
  induction pageOrders as [|[k z] rest IH]; intros st.
  - simpl. unfold ret. destruct st as [[ps pr j] w]. simpl.
    rewrite map_id. reflexivity.
  - simpl. unfold bind, writeDb. rewrite IH. cbn [db world].
    unfold updatePage. cbn [pages projects statusJournal sortOrderPatch setStatus].
    rewrite map_map. reflexivity.
Qed.

Lemma updateOrder_run (projectId : Z) (pageOrders : list (Z * Z))
  (st : State W) (project : Project.t) :
  getProjectById projectId (db st) = Some project ->
  Project.userId project = user ->
  updateOrder user projectId pageOrders st
  = (Returned true,
     mkState
       (mkDb (List.map (orderedBy pageOrders) (pages (db st)))
          (projects (db st)) (statusJournal (db st)))
       (world st)).
Proof.
  intros Hq Hu. unfold updateOrder, bind.
  rewrite (loadProject_ok user st projectId project Hq Hu).
  rewrite writeOrders_run. reflexivity.
Qed.

(** X16: [reorder] writes positions and nothing else: projects, status
    journal and outside world are as before, every page keeps all its
    columns but the position, and with distinct page ids the pages of the
    other projects keep their position too. *)
Theorem reorder_frame (st : State W) (projectId : Z) (project : Project.t) :
  getProjectById projectId (db st) = Some project ->
  Project.userId project = user ->
  exists st',
    reorder localeCompare user projectId st = (Returned true, st')
    /\ world st' = world st
    /\ projects (db st') = projects (db st)
    /\ statusJournal (db st') = statusJournal (db st)
    /\ Forall2 (fun p p' => p' = withSortOrder (Page.sortOrder p') p)
         (pages (db st)) (pages (db st'))
    /\ (NoDup (List.map Page.id (pages (db st))) ->
        forall q, In q (pages (db st)) -> Page.projectId q <> projectId ->
          getPageById (Page.id q) (db st') = Some q).
Proof.
  intros Hq Hu. eexists. split.
  { rewrite reorder_run, Hq, Hu, Z.eqb_refl. reflexivity. }
  cbn [db world]. rewrite dbAfterPositions_eq.
  cbn [pages projects statusJournal].
  set (ids := List.map Page.id
                (sortedPagesOf localeCompare
                   (getPagesByProjectId projectId (db st)))).
  repeat apply conj; try reflexivity.
  - induction (pages (db st)) as [|p ps IH]; constructor; [reflexivity | exact IH].
  - intros Hnd q Hin Hproj.
    assert (Hq' : ~ In (Page.id q) ids).
    { intros Hid. unfold ids in Hid. apply in_map_iff in Hid.
      destruct Hid as (p & Hid & Hp).
      apply (Permutation_in p
               (Permutation_sym
                  (sortWith_perm (comparePages localeCompare)
                     (getPagesByProjectId projectId (db st))))) in Hp.
      unfold getPagesByProjectId in Hp. apply filter_In in Hp.
      destruct Hp as [Hp Hpp]. apply Z.eqb_eq in Hpp.
      assert (p = q) by (apply (same_id_same_page (pages (db st))); assumption).
      subst p. contradiction. }
    unfold getPageById. cbn [pages].
    rewrite (find_map_key Page.id (repositionFrom 0 ids)) by reflexivity.
    fold (getPageById (Page.id q) (db st)).
    rewrite (getPageById_distinct (db st) q Hnd Hin). cbn [option_map].
    rewrite repositionFrom_notin by exact Hq'. reflexivity.
Qed.

(** X17: [updateOrder] checks who owns the project it is given, not which
    project the listed pages belong to: with each page listed once, every
    listed page that exists gets the position given for it, whatever its
    project; no other column, page, project or status is written. *)
Theorem updateOrder_writes (st : State W) (projectId : Z)
  (pageOrders : list (Z * Z)) (project : Project.t) :
  getProjectById projectId (db st) = Some project ->
  Project.userId project = user ->
  exists st',
    updateOrder user projectId pageOrders st = (Returned true, st')
    /\ world st' = world st
    /\ projects (db st') = projects (db st)
    /\ statusJournal (db st') = statusJournal (db st)
    /\ Forall2 (fun p p' => p' = withSortOrder (Page.sortOrder p') p)
         (pages (db st)) (pages (db st'))
    /\ (forall q, In q (pages (db st)) ->
          ~ In (Page.id q) (List.map fst pageOrders) -> In q (pages (db st')))
    /\ (NoDup (List.map fst pageOrders) ->
        forall k z, In (k, z) pageOrders ->
          getPageById k (db st')
          = option_map (withSortOrder z) (getPageById k (db st))).
Proof.
  intros Hq Hu. eexists. split; [apply (updateOrder_run _ _ _ project Hq Hu)|].
  cbn [db world pages projects statusJournal].
  repeat apply conj; try reflexivity.
  - induction (pages (db st)) as [|p ps IH]; constructor;
      [apply orderedBy_form | exact IH].
  - intros q Hin Hnot. apply in_map_iff. exists q. split; [|exact Hin].
    apply orderedBy_notin. exact Hnot.
  - intros Hnd k z Hin. unfold getPageById. cbn [pages].
    induction (pages (db st)) as [|p ps IH]; [reflexivity|]. simpl.
    rewrite (orderedBy_form pageOrders p).
    change (Page.id (withSortOrder ?x p)) with (Page.id p).
    destruct (Z.eqb_spec (Page.id p) k) as [E|_]; [|exact IH].
    cbn [option_map]. rewrite <- (orderedBy_form pageOrders p).
    rewrite (orderedBy_listed pageOrders p k z Hnd Hin E). reflexivity.
Qed.

End OrderFacts.

(** ** Runs on the sample data *)

Lemma performOCR_failure_wrapped_witness :
  exists cause,
    ErrorObject (js "OCR processing failed: unreadable image")
    = ErrorObject (js "OCR processing failed: " ++ cause)
    /\ messageOf (ErrorObject (js "OCR processing failed: unreadable image"))
       = js "OCR processing failed: " ++ cause.
Proof.
  apply (proj1 (performOCR_failure_wrapped echoLLM echoParse (js "bad-1")
                  0%nat 1%nat
                  (ErrorObject (js "OCR processing failed: unreadable image")))).
  vm_compute. reflexivity.
Defined.

Lemma performOCR_single_call_witness :
  performOCR echoLLM echoParse (js "bad-1") 0%nat
  = (Threw (ErrorObject
       (js "OCR processing failed: " ++ js "unreadable image")), 1%nat).
Proof.
  apply (proj2 (performOCR_single_call echoLLM echoParse (js "bad-1") 0%nat 1%nat)
           (ErrorObject (js "unreadable image"))); reflexivity.
Defined.

Lemma performOCR_page_number_witness :
  exists r w',
    performOCR echoLLM echoParse (js "Page 12") 0%nat = (Returned r, w')
    /\ (ocrDetectedPageNumber r = None
        \/ exists l k, ocrDetectedPageNumber r = Some l /\ normalized l k).
Proof.
  destruct (performOCR echoLLM echoParse (js "Page 12") 0%nat)
    as [[r|e] w'] eqn:E; [|vm_compute in E; discriminate].
  exists r, w'. split; [reflexivity|].
  apply (proj1 (performOCR_page_number echoLLM echoParse (js "Page 12")
                  0%nat w' r E)).
Defined.

Lemma page_procedures_access_control_witness :
  processOCR echoLLM echoParse 2 10 sampleState
  = (Threw unauthorizedError, sampleState)
  /\ retrySingle echoLLM echoParse 2 10 sampleState
     = (Threw unauthorizedError, sampleState).
Proof.
  apply (proj2 (page_procedures_access_control echoLLM echoParse 2 10 sampleState)
           (samplePage 10 "12" None None failed (Some (js "old failure")) 0));
    [reflexivity|].
  right. exists (Project.mk 7 1 7 1). split; [reflexivity | discriminate].
Defined.

Lemma project_procedures_access_control_witness :
  retryFailed echoLLM echoParse 2 7 sampleState
  = (Threw unauthorizedError, sampleState)
  /\ reorder rootCollation 2 7 sampleState
     = (Threw unauthorizedError, sampleState)
  /\ updateOrder 2 7 [(10, 3)] sampleState
     = (Threw unauthorizedError, sampleState).
Proof.
  apply (proj2 (project_procedures_access_control echoLLM echoParse
                  rootCollation 2 7 [(10, 3)] sampleState)
           (Project.mk 7 1 7 1));
    [reflexivity | discriminate].
Defined.

Lemma single_page_success_witness :
  exists reply st',
    retrySingle echoLLM echoParse 1 16 sampleState = (Returned reply, st')
    /\ option_map Page.status (getPageById 16 (db st')) = Some completed.
Proof.
  destruct (performOCR echoLLM echoParse (js "9") 0%nat)
    as [[r|e] w'] eqn:E; [|vm_compute in E; discriminate].
  destruct (proj2 (single_page_success echoLLM echoParse 1 sampleState 16
                     (samplePage 16 "9" None None pending None 6)
                     (Project.mk 7 1 7 1) r w' eq_refl eq_refl eq_refl E)
              (or_intror eq_refl))
    as (st' & Hrun & _ & Hpage & _).
  eexists. exists st'. split; [exact Hrun|]. rewrite Hpage. reflexivity.
Defined.

Lemma retrySingle_not_repeatable_witness :
  exists reply st',
    retrySingle echoLLM echoParse 1 16 sampleState = (Returned reply, st')
    /\ retrySingle echoLLM echoParse 1 16 st' = (Threw notRetryableError, st').
Proof.
  destruct (performOCR echoLLM echoParse (js "9") 0%nat)
    as [[r|e] w'] eqn:E; [|vm_compute in E; discriminate].
  apply (retrySingle_not_repeatable echoLLM echoParse 1 sampleState 16
           (samplePage 16 "9" None None pending None 6)
           (Project.mk 7 1 7 1) r w' eq_refl eq_refl eq_refl
           (or_intror eq_refl) E).
Defined.

Lemma reorder_frame_witness :
  exists st',
    reorder rootCollation 1 8 orderingState = (Returned true, st')
    /\ projects (db st') = projects orderingDb
    /\ getPageById 30 (db st')
       = Some (labelledPage 30 9 (Some (js "ix")) 0).
Proof.
  destruct (reorder_frame rootCollation 1 orderingState 8 (Project.mk 8 1 7 7)
              eq_refl eq_refl)
    as (st' & Hrun & _ & Hprojects & _ & _ & Hother).
  exists st'. repeat apply conj; [exact Hrun | exact Hprojects |].
  apply (Hother (distinct_NoDup (List.map Page.id (pages orderingDb)) eq_refl)
           (labelledPage 30 9 (Some (js "ix")) 0)).
  - do 7 right. left. reflexivity.
  - discriminate.
Defined.

Lemma updateOrder_writes_witness :
  exists st',
    updateOrder 1 8 [(30, 5)] orderingState = (Returned true, st')
    /\ option_map (fun p => (Page.projectId p, Page.sortOrder p))
         (getPageById 30 (db st')) = Some (9, 5).
Proof.
  destruct (updateOrder_writes 1 orderingState 8 [(30, 5)] (Project.mk 8 1 7 7)
              eq_refl eq_refl)
    as (st' & Hrun & _ & _ & _ & _ & _ & Hlisted).
  exists st'. split; [exact Hrun|].
  rewrite (Hlisted (distinct_NoDup [30] eq_refl) 30 5 (or_introl eq_refl)).
  reflexivity.
Defined.

(** ** The comparator of [reorder] is consistent *)

(** X19: the function [reorder] gives to [sort], as the sort reads it, is
    a consistent comparator on pages whose labels are such as the label
    extractor gives, whatever the locale: it is 0 on a page and itself,
    changes sign when its arguments are swapped (on any pages), and its
    "before or equal" and "before" are transitive. *)
Theorem comparePages_consistent (localeCompare : jsstring -> jsstring -> Z)
  (a b c : Page.t) :
  Collation localeCompare ->
  comparePages localeCompare a a = 0
  /\ comparePages localeCompare b a = - comparePages localeCompare a b
  /\ (labelOk a = true -> labelOk b = true -> labelOk c = true ->
      (comparePages localeCompare a b <= 0 ->
       comparePages localeCompare b c <= 0 ->
       comparePages localeCompare a c <= 0)
      /\ (comparePages localeCompare a b < 0 ->
          comparePages localeCompare b c < 0 ->
          comparePages localeCompare a c < 0)).
Proof.
  intros Hlaw.
  assert (Hflip : forall x y, comparePages localeCompare y x
                              = - comparePages localeCompare x y)
    by (intros; apply comparePages_flip; exact Hlaw).
  assert (Hle : forall x y z,
            labelOk x = true -> labelOk y = true -> labelOk z = true ->
            comparePages localeCompare x y <= 0 ->
            comparePages localeCompare y z <= 0 ->
            comparePages localeCompare x z <= 0).
  { intros x y z Hx Hy Hz Hxy Hyz.
    apply pageOrder_comparePages; auto.
    apply (pageOrder_trans localeCompare Hlaw x y z);
      apply comparePages_le; auto. }
  split; [|split].
  - pose proof (Hflip a a). lia.
  - apply Hflip.
  - intros Ha Hb Hc. split.
    + apply (Hle a b c); assumption.
    + intros Hab Hbc.
      assert (H1 : comparePages localeCompare a c <= 0)
        by (apply (Hle a b c); auto; lia).
      destruct (Z.eq_dec (comparePages localeCompare a c) 0) as [E|E]; [|lia].
      exfalso.
      assert (H2 : comparePages localeCompare c b <= 0).
      { apply (Hle c a b); auto; try lia.
        rewrite (Hflip a c). lia. }
      rewrite (Hflip b c) in H2. lia.
Qed.

Lemma comparePages_consistent_witness :
  comparePages turkishCollation (labelledPage 23 8 (Some (js "9")) 0)
    (labelledPage 21 8 None 0) < 0.
Proof.
  refine (proj2 (proj2 (proj2 (comparePages_consistent turkishCollation
            (labelledPage 23 8 (Some (js "9")) 0)
            (labelledPage 22 8 (Some (js "iv")) 0)
            (labelledPage 21 8 None 0) turkishCollation_lawful))
            eq_refl eq_refl eq_refl) _ _);
    vm_compute; reflexivity.
Defined.

(** ** The order [reorder] computes and the order of the rows *)




(** ** The "process pending" loop of the client *)

Lemma getProjectById_dbAfterBatch (projectId : Z) (ps : list Page.t)
  (cs : list (Completion OCRResult)) (d : Db) :
  getProjectById projectId (dbAfterBatch ps cs d) = getProjectById projectId d.
Proof. unfold getProjectById. rewrite dbAfterBatch_projects. reflexivity. Qed.

Lemma getProjectById_bumpProcessed (projectId : Z) (project : Project.t)
  (count : Z) (d : Db) :
  getProjectById projectId d = Some project -> 0 <= count ->
  getProjectById projectId (bumpProcessed projectId project count d)
  = Some (setProcessedPages (Project.processedPages project + count) project).
Proof.
  intros Hq Hc. unfold bumpProcessed.
  destruct (Z.ltb_spec 0 count) as [_|Hz].
  - rewrite getProjectById_updateProject, Hq. reflexivity.
  - assert (count = 0) by lia. subst count.
    rewrite setProcessedPages_same. exact Hq.
Qed.

(** X20: the loop of the client's "process pending" button, one
    [retrySingle] call per pending page of the project (ids distinct, the
    page list fresh), counts each of these pages once, as a success or as
    a failure; it leaves each of them completed without error text or
    failed with an error text, so that none is pending any more, every
    other page as it was, and the counter of the project raised by the
    number of successes. *)
Theorem handleProcessPending_settles {W : Type}
  (invokeLLM : jsstring -> W -> Completion (option jsstring) * W)
  (JSON_parse : jsstring -> Completion ParsedReply) (user : Z)
  (st : State W) (projectId : Z) (project : Project.t) :
  getProjectById projectId (db st) = Some project ->
  Project.userId project = user ->
  NoDup (List.map Page.id (pages (db st))) ->
  let pendingPages := filter isPending (getPagesByProjectId projectId (db st)) in
  exists successCount failCount st',
    handleProcessPending invokeLLM JSON_parse user
      (getPagesByProjectId projectId (db st)) st
    = (Returned (successCount, failCount), st')
    /\ 0 <= successCount /\ 0 <= failCount
    /\ successCount + failCount = Z.of_nat (List.length pendingPages)
    /\ getProjectById projectId (db st')
       = Some (setProcessedPages
                 (Project.processedPages project + successCount) project)
    /\ (forall p, In p pendingPages ->
          exists p',
            getPageById (Page.id p) (db st') = Some p' /\ settled p'
            /\ Page.imageUrl p' = Page.imageUrl p
            /\ Page.sortOrder p' = Page.sortOrder p)
    /\ (forall q, In q (pages (db st)) -> ~ In q pendingPages ->
          getPageById (Page.id q) (db st') = Some q).
Proof.
  intros Hq Hu Hnd pendingPages.
  destruct st as [d w]. cbn [db world] in *.
  pose proof (recognitions_length invokeLLM JSON_parse pendingPages w) as Hlen.
  set (cs := fst (recognitions invokeLLM JSON_parse pendingPages w)) in *.
  assert (Hin : forall p, In p pendingPages <->
                  In p (pages d) /\ Page.projectId p = projectId
                  /\ isPending p = true).
  { intros p. unfold pendingPages, getPagesByProjectId.
    rewrite !filter_In, Z.eqb_eq. tauto. }
  assert (Hndp : NoDup (List.map Page.id pendingPages)).
  { unfold pendingPages, getPagesByProjectId.
    apply NoDup_map_filter, NoDup_map_filter. exact Hnd. }
  assert (Hcount : (List.length (filter recognized cs) <= List.length cs)%nat)
    by apply filter_length_le.
  exists (0 + Z.of_nat (List.length (filter recognized cs))).
  exists (0 + (Z.of_nat (List.length pendingPages)
               - Z.of_nat (List.length (filter recognized cs)))).
  eexists. split.
  { unfold handleProcessPending. fold pendingPages.
    apply (clientRetryLoop_run invokeLLM JSON_parse user projectId pendingPages
             d w project 0 0); auto.
    intros p Hp. apply Hin in Hp. destruct Hp as (Hp & Hproj & Hpend).
    repeat apply conj; auto.
    - apply getPageById_distinct; assumption.
    - unfold retryable. rewrite Hpend. apply orb_true_r. }
  cbn [db]. repeat apply conj; try lia.
  - rewrite getProjectById_bumpProcessed; [f_equal; f_equal; lia | | lia].
    rewrite getProjectById_dbAfterBatch. exact Hq.
  - intros p Hp. rewrite getPageById_bumpProcessed.
    apply (dbAfterBatch_settled pendingPages cs d); auto.
    apply getPageById_distinct; [exact Hnd | apply Hin; exact Hp].
  - intros q Hqin Hnot. rewrite getPageById_bumpProcessed.
    rewrite getPageById_dbAfterBatch_other.
    + apply getPageById_distinct; assumption.
    + intros Hid. apply in_map_iff in Hid. destruct Hid as (p & Hid & Hp).
      assert (p = q).
      { apply (same_id_same_page (pages d)); auto. apply Hin. exact Hp. }
      subst p. contradiction.
Qed.

Lemma handleProcessPending_settles_witness :
  exists successCount failCount st',
    handleProcessPending echoLLM echoParse 1
      (getPagesByProjectId 7 sampleDb) sampleState
    = (Returned (successCount, failCount), st')
    /\ successCount + failCount = 1.
Proof.
  destruct (handleProcessPending_settles echoLLM echoParse 1 sampleState 7
              (Project.mk 7 1 7 1) eq_refl eq_refl
              (distinct_NoDup (List.map Page.id samplePages) eq_refl))
    as (s & f & st' & Hrun & _ & _ & Hsum & _).
  exists s, f, st'. split; [exact Hrun | exact Hsum].
Defined.

(** ** The counter of processed pages *)

Lemma map_untouched {A} (key : A -> Z) (f : A -> A) (k : Z) (l : list A) :
  ~ In k (List.map key l) ->
  List.map (fun a => if key a =? k then f a else a) l = l.
Proof.
  induction l as [|a l IH]; intros H; [reflexivity|]. simpl.
  destruct (Z.eqb_spec (key a) k) as [E|_].
  - exfalso. apply H. left. exact E.
  - f_equal. apply IH. intros Hin. apply H. right. exact Hin.
Qed.

(** Replacing the one element with a given key changes a count by what
    that element contributes. *)
Lemma count_after_update (g : Page.t -> bool) (f : Page.t -> Page.t)
  (p : Page.t) (l : list Page.t) :
  NoDup (List.map Page.id l) -> In p l ->
  (List.length
     (filter g
        (List.map (fun q => if (Page.id q =? Page.id p)%Z then f q else q) l))
   + (if g p then 1 else 0)
   = List.length (filter g l) + (if g (f p) then 1 else 0))%nat.
Proof.
  induction l as [|x l IH]; intros Hnd Hin; [contradiction|].
  simpl in Hnd. inversion Hnd as [|x0 l0 Hx Hl]; subst x0 l0.
  destruct Hin as [->|Hin].
  - simpl. rewrite Z.eqb_refl.
    rewrite (map_untouched Page.id f (Page.id p) l Hx).
    destruct (g p), (g (f p)); simpl; lia.
  - simpl. destruct (Z.eqb_spec (Page.id x) (Page.id p)) as [E|_].
    + exfalso. apply Hx. rewrite E. apply in_map. exact Hin.
    + specialize (IH Hl Hin). simpl. destruct (g x); simpl; lia.
Qed.

Lemma dbAfterRetry_pages (p : Page.t) (c : Completion OCRResult) (d : Db) :
  pages (dbAfterRetry p c d)
  = List.map
      (fun q =>
         if Page.id q =? Page.id p
         then applyPatch
                (match c with
                 | Returned r => completedPatch r true
                 | Threw e => failedPatch (messageOf e)
                 end)
                (applyPatch (mkPatch None None None (Some processing) None None) q)
         else q)
      (pages d).
Proof.
  unfold dbAfterRetry, updatePageStatus, updatePage. cbn [pages].
  rewrite map_map. apply map_ext. intros q.
  destruct (Page.id q =? Page.id p) eqn:E; [|rewrite E; reflexivity].
  rewrite applyPatch_id, E. reflexivity.
Qed.

Lemma dbAfterRetry_ids (p : Page.t) (c : Completion OCRResult) (d : Db) :
  List.map Page.id (pages (dbAfterRetry p c d)) = List.map Page.id (pages d).
Proof.
  rewrite dbAfterRetry_pages, map_map. apply map_ext. intros q.
  destruct (Page.id q =? Page.id p); reflexivity.
Qed.

Lemma dbAfterRetry_count (projectId : Z) (p : Page.t)
  (c : Completion OCRResult) (d : Db) :
  NoDup (List.map Page.id (pages d)) -> In p (pages d) ->
  Page.projectId p = projectId -> Page.status p <> completed ->
  completedCount projectId (dbAfterRetry p c d)
  = completedCount projectId d + (if recognized c then 1 else 0).
Proof.
  intros Hnd Hin Hproj Hst. unfold completedCount.
  rewrite dbAfterRetry_pages.
  pose proof (count_after_update (isCompletedIn projectId)
                (fun q =>
                   applyPatch
                     (match c with
                      | Returned r => completedPatch r true
                      | Threw e => failedPatch (messageOf e)
                      end)
                     (applyPatch
                        (mkPatch None None None (Some processing) None None) q))
                p (pages d) Hnd Hin) as H.
  cbv beta in H.
  assert (Hbefore : isCompletedIn projectId p = false).
  { unfold isCompletedIn. destruct (Page.status p); try congruence;
      simpl; apply andb_false_r. }
  rewrite Hbefore in H.
  assert (Hafter : isCompletedIn projectId
                     (applyPatch
                        (match c with
                         | Returned r => completedPatch r true
                         | Threw e => failedPatch (messageOf e)
                         end)
                        (applyPatch
                           (mkPatch None None None (Some processing) None None) p))
                   = recognized c).
  { unfold isCompletedIn. destruct c; simpl; rewrite Hproj, Z.eqb_refl;
      reflexivity. }
  rewrite Hafter in H. destruct (recognized c); lia.
Qed.

Lemma dbAfterBatch_count (projectId : Z) (ps : list Page.t) :
  forall cs d,
    List.length cs = List.length ps ->
    NoDup (List.map Page.id (pages d)) ->
    NoDup (List.map Page.id ps) ->
    (forall p, In p ps ->
       In p (pages d) /\ Page.projectId p = projectId
       /\ Page.status p <> completed) ->
    completedCount projectId (dbAfterBatch ps cs d)
    = completedCount projectId d
      + Z.of_nat (List.length (filter recognized cs)).
Proof.
  induction ps as [|a ps IH]; intros [|c cs] d Hlen Hnd Hndp Hps;
    try discriminate; [simpl; lia|].
  simpl in Hndp. inversion Hndp as [|x0 l0 Ha Hrest]; subst x0 l0.
  destruct (Hps a (or_introl eq_refl)) as (Hina & Hproja & Hsta).
  cbn [dbAfterBatch]. rewrite IH.
  - rewrite (dbAfterRetry_count projectId a c d Hnd Hina Hproja Hsta).
    cbn [filter]. destruct (recognized c); cbn [List.length]; lia.
  - simpl in Hlen. lia.
  - rewrite dbAfterRetry_ids. exact Hnd.
  - exact Hrest.
  - intros q Hq. destruct (Hps q (or_intror Hq)) as (Hin & Hproj & Hst).
    repeat apply conj; auto.
    rewrite dbAfterRetry_pages. apply in_map_iff. exists q. split; [|exact Hin].
    destruct (Z.eqb_spec (Page.id q) (Page.id a)) as [E|_]; [|reflexivity].
    exfalso. apply Ha. rewrite <- E. apply in_map. exact Hq.
Qed.

Lemma completedCount_bumpProcessed (projectId k : Z) (project : Project.t)
  (count : Z) (d : Db) :
  completedCount projectId (bumpProcessed k project count d)
  = completedCount projectId d.
Proof. unfold bumpProcessed. destruct (0 <? count); reflexivity. Qed.

(** X21: [retryFailed] and [retrySingle] keep the counter of the project
    right: with distinct page ids, when the counter of processed pages
    equals the number of completed pages of the project before the call,
    it does so after it, whatever the recognizer does. *)
Theorem retry_keeps_counter_consistent {W : Type}
  (invokeLLM : jsstring -> W -> Completion (option jsstring) * W)
  (JSON_parse : jsstring -> Completion ParsedReply) (user : Z)
  (st : State W) (projectId : Z) (project : Project.t) :
  getProjectById projectId (db st) = Some project ->
  Project.userId project = user ->
  NoDup (List.map Page.id (pages (db st))) ->
  Project.processedPages project = completedCount projectId (db st) ->
  (exists project',
     getProjectById projectId
       (db (snd (retryFailed invokeLLM JSON_parse user projectId st)))
     = Some project'
     /\ Project.processedPages project'
        = completedCount projectId
            (db (snd (retryFailed invokeLLM JSON_parse user projectId st))))
  /\ (forall page,
        In page (pages (db st)) -> Page.projectId page = projectId ->
        exists project',
          getProjectById projectId
            (db (snd (retrySingle invokeLLM JSON_parse user (Page.id page) st)))
          = Some project'
          /\ Project.processedPages project'
             = completedCount projectId
                 (db (snd (retrySingle invokeLLM JSON_parse user
                             (Page.id page) st)))).
Proof.
  intros Hq Hu Hnd Hc. split.
  - destruct (retryFailed_run invokeLLM JSON_parse user st projectId project
                Hq Hu) as (reply & Hrun & _).
    rewrite Hrun. cbn [snd db].
    set (failedPages := filter isFailed (getPagesByProjectId projectId (db st))).
    set (cs := fst (recognitions invokeLLM JSON_parse failedPages (world st))).
    eexists. split.
    + apply getProjectById_bumpProcessed; [|lia].
      rewrite getProjectById_dbAfterBatch. exact Hq.
    + rewrite completedCount_bumpProcessed.
      rewrite (dbAfterBatch_count projectId failedPages cs (db st)).
      * cbn [Project.processedPages setProcessedPages]. lia.
      * apply recognitions_length.
      * exact Hnd.
      * unfold failedPages, getPagesByProjectId.
        apply NoDup_map_filter, NoDup_map_filter. exact Hnd.
      * intros p Hp. unfold failedPages, getPagesByProjectId in Hp.
        rewrite !filter_In, Z.eqb_eq in Hp. destruct Hp as ((Hin & Hproj) & Hf).
        repeat apply conj; auto. unfold isFailed in Hf.
        intros E. rewrite E in Hf. discriminate.
  - intros page Hin Hproj.
    pose proof (getPageById_distinct (db st) page Hnd Hin) as Hp.
    destruct (retryable page) eqn:Hr.
    + destruct st as [d w]. cbn [db world] in *.
      rewrite <- Hproj in Hq.
      destruct (retrySingle_on_failed invokeLLM JSON_parse user d w page project
                  Hp Hr Hq Hu) as (result & Hrun & _).
      rewrite Hproj in Hq, Hrun. rewrite Hrun. cbn [snd db].
      eexists. split.
      * apply getProjectById_bumpProcessed.
        -- unfold getProjectById, dbAfterRetry, updatePageStatus. exact Hq.
        -- destruct (recognized _); lia.
      * rewrite completedCount_bumpProcessed.
        rewrite (dbAfterRetry_count projectId page _ d Hnd Hin Hproj).
        -- cbn [Project.processedPages setProcessedPages]. lia.
        -- intros E. unfold retryable, isFailed, isPending in Hr.
           rewrite E in Hr. discriminate.
    + rewrite <- Hproj in Hq.
      rewrite (retrySingle_guard invokeLLM JSON_parse user st (Page.id page)
                 page project Hp Hq Hu).
      * rewrite Hproj in Hq. cbn [snd]. exists project. auto.
      * unfold retryable, isFailed, isPending in Hr.
        destruct (Page.status page); try discriminate; auto.
Qed.

Lemma retry_keeps_counter_consistent_witness :
  exists project',
    getProjectById 7 (db (snd (retryFailed echoLLM echoParse 1 7 sampleState)))
    = Some project'
    /\ Project.processedPages project'
       = completedCount 7
           (db (snd (retryFailed echoLLM echoParse 1 7 sampleState))).
Proof.
  apply (proj1 (retry_keeps_counter_consistent echoLLM echoParse 1 sampleState 7
                  (Project.mk 7 1 7 1) eq_refl eq_refl
                  (distinct_NoDup (List.map Page.id samplePages) eq_refl)
                  eq_refl)).
Defined.
